(** * AI-Refrigerator-Analysis: the diagnosis pipeline client and its store

    A shallow embedding of
    - [lib/config.ts] ([getApiUrl], [apiRequest], [checkBackendHealth]),
    - the [Home] component of the upload page ([processS3Video]: the
      chunk-reading loop and the handling of the streamed records), which
      the source tree at hand keeps in [app/history/[id]/page.tsx],
    - [supabase-schema.sql] (the chat tables and the diagnoses table),
    together with the part of the JavaScript runtime these rely on
    (strings as UTF-16 code units, [TextDecoder], [String.prototype.split],
    [String.prototype.trim], [JSON.parse], truthiness) and the part of SQL
    the schema relies on (constraints, INSERT, DELETE with cascades,
    UPDATE with its trigger). *)

From Stdlib Require Import List ZArith NArith Lia Bool.
From Stdlib.Strings Require Import String Ascii Byte.
From Stdlib Require DecimalString.
Import ListNotations.

Set Implicit Arguments.
Set Warnings "-register-all".

(* ================================================================== *)
(** * The JavaScript runtime *)
(* ================================================================== *)

Module Js.

Local Open Scope N_scope.

(** A JavaScript string is a sequence of 16-bit code units. *)
Definition js_string := list N.

(** String literals of the source (ASCII only). *)
Definition lit (s : string) : js_string :=
  map N_of_ascii (list_ascii_of_string s).

Fixpoint str_eqb (a b : js_string) : bool :=
  match a, b with
  | [], [] => true
  | x :: a', y :: b' => (x =? y) && str_eqb a' b'
  | _, _ => false
  end.

(** ** [String.prototype.split] with a one-unit separator

    [s.split('\n')] cuts at every separator; it always returns at least one
    piece, and a string that ends with the separator has an empty last
    piece. *)
Fixpoint split (sep : N) (s : js_string) : list js_string :=
  match s with
  | [] => [[]]
  | c :: s' =>
      if c =? sep then [] :: split sep s'
      else match split sep s' with
           | l :: ls => (c :: l) :: ls
           | [] => [[c]]
           end
  end.

(** ** [String.prototype.trim]

    White space and line terminators of ECMAScript (all in the basic plane). *)
Definition is_white_space (c : N) : bool :=
  (c =? 9) || (c =? 10) || (c =? 11) || (c =? 12) || (c =? 13) || (c =? 32)
  || (c =? 160) || (c =? 5760) || ((8192 <=? c) && (c <=? 8202))
  || (c =? 8232) || (c =? 8233) || (c =? 8239) || (c =? 8287)
  || (c =? 12288) || (c =? 65279).

Fixpoint trim_start (s : js_string) : js_string :=
  match s with
  | c :: s' => if is_white_space c then trim_start s' else s
  | [] => []
  end.

Definition trim (s : js_string) : js_string :=
  rev (trim_start (rev (trim_start s))).

(** ** Values produced by [JSON.parse]

    A number keeps the exact decimal value of its literal, [m * 10^e];
    rounding to a double is not modelled (integers below 2^53 are exact). *)
Inductive json : Type :=
| JNull
| JBool (b : bool)
| JNumber (m e : Z)
| JString (s : js_string)
| JArray (elems : list json)
| JObject (props : list (js_string * json)).

(** A value read from a property: [None] is [undefined]. *)
Definition jsval := option json.

Definition undefined : jsval := None.
Definition number (z : Z) : jsval := Some (JNumber z 0).
Definition text (s : string) : jsval := Some (JString (lit s)).

(** The double nearest to [m * 10^e] is zero when [m] is, or when the value
    is at most half the smallest subnormal, [2^-1075]. *)
Definition rounds_to_zero (m e : Z) : bool :=
  ((m =? 0) || ((e <? 0) && (Z.abs m * 2 ^ 1075 <=? 10 ^ (- e))))%Z.

(** ToBoolean. *)
Definition truthy (v : jsval) : bool :=
  match v with
  | None => false
  | Some JNull => false
  | Some (JBool b) => b
  | Some (JNumber m e) => negb (rounds_to_zero m e)
  | Some (JString s) => match s with [] => false | _ => true end
  | Some (JArray _) => true
  | Some (JObject _) => true
  end.

(** [a || b]. *)
Definition or_else (a b : jsval) : jsval := if truthy a then a else b.

(** [v === 'literal']. *)
Definition strict_eq_str (v : jsval) (s : js_string) : bool :=
  match v with
  | Some (JString s') => str_eqb s' s
  | _ => false
  end.

(** Own data property of an object built by [JSON.parse]: when a key is
    repeated in the text the last occurrence wins. *)
Fixpoint own_property (key : js_string) (props : list (js_string * json)) : jsval :=
  match props with
  | [] => None
  | (k, v) :: rest =>
      match own_property key rest with
      | Some v' => Some v'
      | None => if str_eqb k key then Some v else None
      end
  end.

(** ** [JSON.parse] *)

Definition is_json_ws (c : N) : bool :=
  (c =? 9) || (c =? 10) || (c =? 13) || (c =? 32).

Fixpoint skip_ws (s : js_string) : js_string :=
  match s with
  | c :: s' => if is_json_ws c then skip_ws s' else s
  | [] => []
  end.

Definition is_digit (c : N) : bool := (48 <=? c) && (c <=? 57).

Definition hex_digit (c : N) : option N :=
  if (48 <=? c) && (c <=? 57) then Some (c - 48)
  else if (65 <=? c) && (c <=? 70) then Some (c - 55)
  else if (97 <=? c) && (c <=? 102) then Some (c - 87)
  else None.

Definition hex4 (a b c d : N) : option N :=
  match hex_digit a, hex_digit b, hex_digit c, hex_digit d with
  | Some x, Some y, Some z, Some w => Some (((x * 16 + y) * 16 + z) * 16 + w)
  | _, _, _, _ => None
  end.

(** The single-character escapes: quote, backslash, slash, b f n r t. *)
Definition escape (c : N) : option N :=
  if c =? 34 then Some 34
  else if c =? 92 then Some 92
  else if c =? 47 then Some 47
  else if c =? 98 then Some 8
  else if c =? 102 then Some 12
  else if c =? 110 then Some 10
  else if c =? 114 then Some 13
  else if c =? 116 then Some 9
  else None.

(** The characters of a string literal, after its opening quote, up to and
    including the closing quote. *)
Fixpoint parse_chars (s : js_string) : option (js_string * js_string) :=
  match s with
  | [] => None
  | c :: r =>
      if c =? 34 then Some ([], r)
      else if c =? 92 then
        match r with
        | [] => None
        | e :: r1 =>
            if e =? 117 then
              match r1 with
              | h1 :: h2 :: h3 :: h4 :: r2 =>
                  match hex4 h1 h2 h3 h4, parse_chars r2 with
                  | Some u, Some (cs, rest) => Some (u :: cs, rest)
                  | _, _ => None
                  end
              | _ => None
              end
            else
              match escape e, parse_chars r1 with
              | Some u, Some (cs, rest) => Some (u :: cs, rest)
              | _, _ => None
              end
        end
      else if c <? 32 then None
      else match parse_chars r with
           | Some (cs, rest) => Some (c :: cs, rest)
           | None => None
           end
  end.

(** Leading decimal digits, as digit values, and what follows them. *)
Fixpoint digits (s : js_string) : list N * js_string :=
  match s with
  | c :: s' =>
      if is_digit c then let (ds, rest) := digits s' in ((c - 48) :: ds, rest)
      else ([], s)
  | [] => ([], [])
  end.

Definition digits_value (ds : list N) : Z :=
  fold_left (fun acc d => 10 * acc + Z.of_N d)%Z ds 0%Z.

(** A number literal: an optional minus sign; an integer part that is
    either the digit 0 alone or starts with a non-zero digit; an optional
    fraction (a dot and at least one digit); an optional exponent (e or E,
    an optional sign, at least one digit). *)
Definition parse_number (s : js_string) : option (json * js_string) :=
  let (neg, s1) := match s with
                   | c :: r => if c =? 45 then (true, r) else (false, s)
                   | [] => (false, s)
                   end in
  let (ip, s2) := digits s1 in
  match ip with
  | [] => None
  | d :: ds =>
      if (d =? 0) && (match ds with [] => false | _ => true end) then None
      else
        let frac :=
          match s2 with
          | c :: r =>
              if c =? 46 then
                let (fp, s3) := digits r in
                match fp with [] => None | _ => Some (fp, s3) end
              else Some ([], s2)
          | [] => Some ([], s2)
          end in
        match frac with
        | None => None
        | Some (fp, s3) =>
            let expo :=
              match s3 with
              | c :: r =>
                  if (c =? 101) || (c =? 69) then
                    let (eneg, r') :=
                      match r with
                      | sg :: r0 =>
                          if sg =? 45 then (true, r0)
                          else if sg =? 43 then (false, r0)
                          else (false, r)
                      | [] => (false, r)
                      end in
                    let (ep, s4) := digits r' in
                    match ep with
                    | [] => None
                    | _ => Some ((if eneg then - digits_value ep
                                  else digits_value ep)%Z, s4)
                    end
                  else Some (0%Z, s3)
              | [] => Some (0%Z, s3)
              end in
            match expo with
            | None => None
            | Some (ex, s4) =>
                let m := digits_value (ip ++ fp) in
                Some (JNumber (if neg then - m else m)%Z
                              (ex - Z.of_nat (List.length fp))%Z, s4)
            end
        end
  end.

Definition expect (word : js_string) (v : json) (s : js_string)
  : option (json * js_string) :=
  if str_eqb (firstn (List.length word) s) word
  then Some (v, skipn (List.length word) s) else None.

(** Recursive descent on fuel.  A value, a list of array elements (up to
    the closing bracket) and a list of object members (up to the closing
    brace) call one another; [JSON_parse] gives twice the length of the
    text plus two as fuel, which [JsonFacts.JSON_parse_fuel] shows to be
    enough. *)
Fixpoint parse_value (fuel : nat) (s : js_string) : option (json * js_string) :=
  match fuel with
  | O => None
  | S fuel' =>
      match skip_ws s with
      | [] => None
      | c :: r =>
          if c =? 110 then expect (lit "null") JNull (c :: r)
          else if c =? 116 then expect (lit "true") (JBool true) (c :: r)
          else if c =? 102 then expect (lit "false") (JBool false) (c :: r)
          else if c =? 34 then
            match parse_chars r with
            | Some (cs, rest) => Some (JString cs, rest)
            | None => None
            end
          else if c =? 91 then
            match skip_ws r with
            | c' :: r' =>
                if c' =? 93 then Some (JArray [], r')
                else match parse_elements fuel' r with
                     | Some (vs, rest) => Some (JArray vs, rest)
                     | None => None
                     end
            | [] => None
            end
          else if c =? 123 then
            match skip_ws r with
            | c' :: r' =>
                if c' =? 125 then Some (JObject [], r')
                else match parse_members fuel' r with
                     | Some (ms, rest) => Some (JObject ms, rest)
                     | None => None
                     end
            | [] => None
            end
          else parse_number (c :: r)
      end
  end

with parse_elements (fuel : nat) (s : js_string) : option (list json * js_string) :=
  match fuel with
  | O => None
  | S fuel' =>
      match parse_value fuel' s with
      | None => None
      | Some (v, rest) =>
          match skip_ws rest with
          | c :: r =>
              if c =? 44 then
                match parse_elements fuel' r with
                | Some (vs, rest') => Some (v :: vs, rest')
                | None => None
                end
              else if c =? 93 then Some ([v], r)
              else None
          | [] => None
          end
      end
  end

with parse_members (fuel : nat) (s : js_string)
  : option (list (js_string * json) * js_string) :=
  match fuel with
  | O => None
  | S fuel' =>
      match skip_ws s with
      | q :: r0 =>
          if q =? 34 then
            match parse_chars r0 with
            | None => None
            | Some (key, r1) =>
                match skip_ws r1 with
                | col :: r2 =>
                    if col =? 58 then
                      match parse_value fuel' r2 with
                      | None => None
                      | Some (v, rest) =>
                          match skip_ws rest with
                          | c :: r =>
                              if c =? 44 then
                                match parse_members fuel' r with
                                | Some (ms, rest') => Some ((key, v) :: ms, rest')
                                | None => None
                                end
                              else if c =? 125 then Some ([(key, v)], r)
                              else None
                          | [] => None
                          end
                      end
                    else None
                | [] => None
                end
            end
          else None
      | [] => None
      end
  end.

(** [JSON.parse(text)]: [None] stands for the [SyntaxError] it throws. *)
Definition JSON_parse (s : js_string) : option json :=
  match parse_value (2 * List.length s + 2) s with
  | Some (v, rest) => match skip_ws rest with [] => Some v | _ => None end
  | None => None
  end.

(** ** [TextDecoder]

    The UTF-8 decoder of the Encoding standard: one byte at a time, with a
    code point under construction, the number of continuation bytes needed
    and seen, and the range allowed for the next continuation byte. *)
Record utf8_decoder := {
  code_point : N;
  bytes_needed : N;
  bytes_seen : N;
  lower_boundary : N;
  upper_boundary : N
}.

Definition utf8_start : utf8_decoder :=
  {| code_point := 0; bytes_needed := 0; bytes_seen := 0;
     lower_boundary := 0x80; upper_boundary := 0xBF |}.

Definition REPLACEMENT : N := 0xFFFD.

(** A byte read when no continuation byte is awaited. *)
Definition utf8_lead (b : N) : list N * utf8_decoder :=
  if b <=? 0x7F then ([b], utf8_start)
  else if (0xC2 <=? b) && (b <=? 0xDF) then
    ([], {| code_point := N.land b 0x1F; bytes_needed := 1; bytes_seen := 0;
            lower_boundary := 0x80; upper_boundary := 0xBF |})
  else if (0xE0 <=? b) && (b <=? 0xEF) then
    ([], {| code_point := N.land b 0xF; bytes_needed := 2; bytes_seen := 0;
            lower_boundary := if b =? 0xE0 then 0xA0 else 0x80;
            upper_boundary := if b =? 0xED then 0x9F else 0xBF |})
  else if (0xF0 <=? b) && (b <=? 0xF4) then
    ([], {| code_point := N.land b 0x7; bytes_needed := 3; bytes_seen := 0;
            lower_boundary := if b =? 0xF0 then 0x90 else 0x80;
            upper_boundary := if b =? 0xF4 then 0x8F else 0xBF |})
  else ([REPLACEMENT], utf8_start).

(** One byte: the code points emitted and the next decoder state.  A byte
    outside the awaited range ends the sequence with U+FFFD and is then read
    again as a lead byte. *)
Definition utf8_step (d : utf8_decoder) (b : N) : list N * utf8_decoder :=
  if bytes_needed d =? 0 then utf8_lead b
  else if negb ((lower_boundary d <=? b) && (b <=? upper_boundary d)) then
    let (out, d') := utf8_lead b in (REPLACEMENT :: out, d')
  else
    let cp := N.lor (N.shiftl (code_point d) 6) (N.land b 0x3F) in
    if bytes_seen d + 1 =? bytes_needed d then ([cp], utf8_start)
    else ([], {| code_point := cp; bytes_needed := bytes_needed d;
                 bytes_seen := bytes_seen d + 1;
                 lower_boundary := 0x80; upper_boundary := 0xBF |}).

(** The whole input; an unfinished sequence at the end gives U+FFFD. *)
Fixpoint utf8_run (d : utf8_decoder) (bytes : list byte) : list N :=
  match bytes with
  | [] => if bytes_needed d =? 0 then [] else [REPLACEMENT]
  | b :: rest =>
      let (out, d') := utf8_step d (Byte.to_N b) in out ++ utf8_run d' rest
  end.

(** A leading byte-order mark is dropped ([ignoreBOM] is false). *)
Definition strip_bom (cps : list N) : list N :=
  match cps with
  | c :: rest => if c =? 0xFEFF then rest else cps
  | [] => []
  end.

(** Code points to UTF-16 code units. *)
Definition utf16_units (cp : N) : list N :=
  if cp <? 0x10000 then [cp]
  else [0xD800 + (cp - 0x10000) / 0x400; 0xDC00 + (cp - 0x10000) mod 0x400].

(** [new TextDecoder().decode(value)]: UTF-8, replacement on error, no
    [stream] option, so every call starts from a fresh decoder and flushes
    at the end of [value]. *)
Definition decode (value : list byte) : js_string :=
  flat_map utf16_units (strip_bom (utf8_run utf8_start value)).

(** ** Abrupt completion *)

Inductive outcome (E A : Type) : Type :=
| Normal (a : A)
| Throw (e : E).
Arguments Normal {E A} a.
Arguments Throw {E A} e.

(** Values a [catch] clause of the program receives from the runtime or
    from a [new Error('literal')]: an [Error] instance with its message, or
    something that is not an [Error]. *)
Inductive thrown : Type :=
| ErrorObject (message : js_string)
| NotAnError.

(** What the program's own [throw] statements and the calls inside its
    [try] blocks raise.  [Error_of v] is [new Error(v)] for an arbitrary
    value [v]; its message is the string conversion of [v] ([v] itself when
    [v] is a string). *)
Inductive raised : Type :=
| Error_of (message : jsval)
| SyntaxError
| TypeError
| Rethrown (e : thrown).

(** ** [fetch]: responses and body streams *)

(** One [await reader.read()] that does not report [done]. *)
Inductive read_result : Type :=
| Value (bytes : list byte)
| Rejected (e : thrown).

(** A response: its status and its body ([None] for a null body); the
    stream reports [done] when the list is exhausted. *)
Record Response := {
  status : N;
  body : option (list read_result)
}.

(** [response.ok]: the status is in the range 200-299. *)
Definition ok (r : Response) : bool := (200 <=? status r) && (status r <=? 299).

(** All the bytes of a body, unless a read fails. *)
Fixpoint read_all (reads : list read_result) : outcome thrown (list byte) :=
  match reads with
  | [] => Normal []
  | Value bytes :: rest =>
      match read_all rest with
      | Normal more => Normal (bytes ++ more)
      | Throw e => Throw e
      end
  | Rejected e :: _ => Throw e
  end.

(** [await response.json()]. *)
Definition Response_json (r : Response) : outcome raised json :=
  match read_all (match body r with Some reads => reads | None => [] end) with
  | Throw e => Throw (Rethrown e)
  | Normal bytes =>
      match JSON_parse (decode bytes) with
      | Some v => Normal v
      | None => Throw SyntaxError
      end
  end.

(** A request as [fetch] receives it; the body is kept as the value whose
    [JSON.stringify] text is sent. *)
Record RequestInit := {
  method : option js_string;
  headers : option (list (js_string * js_string));
  request_body : option json
}.

(** The network: what [await fetch(url, init)] gives. *)
Definition network := js_string -> RequestInit -> outcome thrown Response.

(** Decimal digits of a number, as in a template literal. *)
Definition N_to_string (n : N) : js_string :=
  lit (DecimalString.NilZero.string_of_uint (N.to_uint n)).

End Js.

Import Js.

(* ================================================================== *)
(** * [lib/config.ts] *)
(* ================================================================== *)

Module Config.

(** Sequencing of calls that may throw. *)
Definition bind {E A B} (c : outcome E A) (k : A -> outcome E B) : outcome E B :=
  match c with
  | Normal a => k a
  | Throw e => Throw e
  end.

(** [try { c } catch (e) { h e }] *)
Definition try_catch {E E' A} (c : outcome E A) (h : E -> outcome E' A)
  : outcome E' A :=
  match c with
  | Normal a => Normal a
  | Throw e => h e
  end.

(** A thrown value moving from an awaited runtime call into the program. *)
Definition await {A} (c : outcome thrown A) : outcome raised A :=
  match c with
  | Normal a => Normal a
  | Throw e => Throw (Rethrown e)
  end.

Notation "x <- c ;; k" := (bind c (fun x => k))
  (at level 61, c at next level, right associativity).

(** [process.env.NEXT_PUBLIC_API_BASE_URL || 'https://...']. *)
Definition BASE_URL (env : option js_string) : js_string :=
  match env with
  | Some (c :: u) => c :: u
  | _ => lit "https://ai-analysis-backend-production.up.railway.app"
  end.

Module ENDPOINTS.
Definition SUMMARIZE := lit "/api/summarize".
Definition PROCESS_VIDEO := lit "/api/process-video".
Definition PROCESS_S3_VIDEO := lit "/api/process-s3-video".
Definition UPLOAD_PRESIGNED := lit "/api/upload/presigned".
Definition HISTORY := lit "/api/history".
Definition DELETE_SUMMARY := lit "/api/history".
Definition CHAT_CONVERSATIONS := lit "/api/chat/conversations".
Definition CHAT_CONVERSATION := lit "/api/chat/conversation".
Definition CHAT_MESSAGE := lit "/api/chat/message".
Definition HEALTH := lit "/health".
End ENDPOINTS.

Section WithEnvironment.

(** The build-time environment variable and the network. *)
Variable env : option js_string.
Variable fetch : network.

Definition getApiUrl (endpoint : js_string) : js_string :=
  BASE_URL env ++ endpoint.

Definition json_headers : list (js_string * js_string) :=
  [(lit "Content-Type", lit "application/json")].

(** [{ ...a, ...b }] on header lists: a key of [b] replaces the same key of
    [a] in place, new keys are appended. *)
Fixpoint set_header (k v : js_string) (hs : list (js_string * js_string))
  : list (js_string * js_string) :=
  match hs with
  | [] => [(k, v)]
  | (k', v') :: rest =>
      if str_eqb k' k then (k', v) :: rest else (k', v') :: set_header k v rest
  end.

Definition spread_headers (a b : list (js_string * js_string))
  : list (js_string * js_string) :=
  fold_left (fun acc kv => set_header (fst kv) (snd kv) acc) b a.

(** [{ headers: { 'Content-Type': 'application/json', ...options?.headers },
       ...options }]: the spread of [options] comes last, so a [headers]
    property of [options] replaces the merged one. *)
Definition defaultOptions (options : option RequestInit) : RequestInit :=
  let merged :=
    spread_headers json_headers
      (match options with
       | Some o => match headers o with Some h => h | None => [] end
       | None => []
       end) in
  match options with
  | None => {| method := None; headers := Some merged; request_body := None |}
  | Some o =>
      {| method := method o;
         headers := match headers o with Some h => Some h | None => Some merged end;
         request_body := request_body o |}
  end.

(** [errorData.detail] and [errorData.message]: reading a property of
    [null] throws; values other than objects have no such property. *)
Definition get (data : json) (key : string) : outcome raised jsval :=
  match data with
  | JNull => Throw TypeError
  | JObject props => Normal (own_property (lit key) props)
  | _ => Normal undefined
  end.

(** [`HTTP error! status: ${response.status}`] *)
Definition http_error (response : Response) : jsval :=
  Some (JString (lit "HTTP error! status: " ++ N_to_string (status response))).

Definition apiRequest (endpoint : js_string) (options : option RequestInit)
  : outcome raised Response :=
  let url := getApiUrl endpoint in
  response <- await (fetch url (defaultOptions options)) ;;
  if negb (ok response) then
    let errorMessage : jsval := http_error response in
    errorMessage <-
      try_catch
        (errorData <- Response_json response ;;
         detail <- get errorData "detail" ;;
         message <- get errorData "message" ;;
         Normal (or_else (or_else detail message) errorMessage))
        (fun _ => Normal errorMessage) ;;
    Throw (Error_of errorMessage)
  else Normal response.

(** [{ method: 'GET', headers: { 'Content-Type': 'application/json' } }] *)
Definition health_request : RequestInit :=
  {| method := Some (lit "GET"); headers := Some json_headers;
     request_body := None |}.

Definition checkBackendHealth : outcome thrown bool :=
  try_catch
    (response <- fetch (getApiUrl ENDPOINTS.HEALTH) health_request ;;
     Normal (ok response))
    (fun error => Normal false).

End WithEnvironment.

End Config.

(* ================================================================== *)
(** * The [Home] component *)
(* ================================================================== *)

Module Home.

(** The component's state variables, and the redirects handed to
    [setTimeout] (each after 1500 ms, to [/history/<diagnosisId>]), oldest
    first. *)
Record state := {
  s3Key : option js_string;
  fileName : option js_string;
  isProcessing : bool;
  progress : jsval;
  progressMessage : jsval;
  error : option js_string;
  redirects : list jsval
}.

(** [useState] initial values. *)
Definition initial : state :=
  {| s3Key := None; fileName := None; isProcessing := false;
     progress := number 0; progressMessage := text "";
     error := None; redirects := [] |}.

(** Code that updates the component state and may throw. *)
Definition M (E A : Type) : Type := state -> outcome E A * state.

Definition ret {E A} (a : A) : M E A := fun st => (Normal a, st).

Definition bind {E A B} (c : M E A) (k : A -> M E B) : M E B :=
  fun st =>
    match c st with
    | (Normal a, st') => k a st'
    | (Throw e, st') => (Throw e, st')
    end.

Definition throw {E A} (e : E) : M E A := fun st => (Throw e, st).

(** [try { c } catch (e) { h e }] *)
Definition try_catch {E E' A} (c : M E A) (h : E -> M E' A) : M E' A :=
  fun st =>
    match c st with
    | (Normal a, st') => (Normal a, st')
    | (Throw e, st') => h e st'
    end.

(** [try { c } finally { f }] *)
Definition try_finally {E A} (c : M E A) (f : M E unit) : M E A :=
  fun st =>
    match c st with
    | (r, st') =>
        match f st' with
        | (Normal _, st'') => (r, st'')
        | (Throw e, st'') => (Throw e, st'')
        end
    end.

Notation "x <- c ;; k" := (bind c (fun x => k))
  (at level 61, c at next level, right associativity).
Notation "c ;; k" := (bind c (fun _ => k))
  (at level 61, right associativity).

(** [for (const x of xs) body(x)] *)
Fixpoint for_of {E A} (xs : list A) (body : A -> M E unit) : M E unit :=
  match xs with
  | [] => ret tt
  | x :: rest => body x ;; for_of rest body
  end.

Definition update {E} (f : state -> state) : M E unit :=
  fun st => (Normal tt, f st).

(** Record updates, one per state variable. *)
Definition with_s3Key (v : option js_string) (st : state) : state :=
  {| s3Key := v; fileName := fileName st; isProcessing := isProcessing st;
     progress := progress st; progressMessage := progressMessage st;
     error := error st; redirects := redirects st |}.

Definition with_fileName (v : option js_string) (st : state) : state :=
  {| s3Key := s3Key st; fileName := v; isProcessing := isProcessing st;
     progress := progress st; progressMessage := progressMessage st;
     error := error st; redirects := redirects st |}.

Definition with_isProcessing (v : bool) (st : state) : state :=
  {| s3Key := s3Key st; fileName := fileName st; isProcessing := v;
     progress := progress st; progressMessage := progressMessage st;
     error := error st; redirects := redirects st |}.

Definition with_progress (v : jsval) (st : state) : state :=
  {| s3Key := s3Key st; fileName := fileName st; isProcessing := isProcessing st;
     progress := v; progressMessage := progressMessage st;
     error := error st; redirects := redirects st |}.

Definition with_progressMessage (v : jsval) (st : state) : state :=
  {| s3Key := s3Key st; fileName := fileName st; isProcessing := isProcessing st;
     progress := progress st; progressMessage := v;
     error := error st; redirects := redirects st |}.

Definition with_error (v : option js_string) (st : state) : state :=
  {| s3Key := s3Key st; fileName := fileName st; isProcessing := isProcessing st;
     progress := progress st; progressMessage := progressMessage st;
     error := v; redirects := redirects st |}.

Definition with_redirect (id : jsval) (st : state) : state :=
  {| s3Key := s3Key st; fileName := fileName st; isProcessing := isProcessing st;
     progress := progress st; progressMessage := progressMessage st;
     error := error st; redirects := redirects st ++ [id] |}.

Definition setS3Key {E} (v : option js_string) : M E unit := update (with_s3Key v).
Definition setFileName {E} (v : option js_string) : M E unit := update (with_fileName v).
Definition setIsProcessing {E} (v : bool) : M E unit := update (with_isProcessing v).
Definition setProgress {E} (v : jsval) : M E unit := update (with_progress v).
Definition setProgressMessage {E} (v : jsval) : M E unit :=
  update (with_progressMessage v).
Definition setError {E} (v : option js_string) : M E unit := update (with_error v).

(** [setTimeout(() => router.push(`/history/${id}`), 1500)] *)
Definition scheduleRedirect {E} (id : jsval) : M E unit := update (with_redirect id).

Definition handleVideoUploaded {E} (uploadedS3Key uploadedFileName : js_string)
  : M E unit :=
  setS3Key (Some uploadedS3Key) ;;
  setFileName (Some uploadedFileName) ;;
  setError None.

Definition handleUploadProgress {E} (p : jsval) : M E unit := setProgress p.

(** [data.key] on a value returned by [JSON.parse]. *)
Definition get (data : json) (key : string) : M raised jsval :=
  match data with
  | JNull => throw TypeError
  | JObject props => ret (own_property (lit key) props)
  | _ => ret undefined
  end.

(** [JSON.parse(line)] inside the [try]. *)
Definition parse (line : js_string) : M raised json :=
  match JSON_parse line with
  | Some data => ret data
  | None => throw SyntaxError
  end.

(** The statements of the [try] block that follow [JSON.parse]. *)
Definition dispatch (data : json) : M raised unit :=
  type <- get data "type" ;;
  if strict_eq_str type (lit "progress") then
    p <- get data "progress" ;;
    setProgress p ;;
    m <- get data "message" ;;
    setProgressMessage m
  else if strict_eq_str type (lit "complete") then
    setProgress (number 100) ;;
    setProgressMessage (text "Analysis complete! Redirecting...") ;;
    id <- get data "diagnosisId" ;;
    scheduleRedirect id
  else if strict_eq_str type (lit "error") then
    m <- get data "message" ;;
    throw (Error_of m)
  else ret tt.

(** The body of [for (const line of lines)]; [console.debug] leaves the
    component state alone. *)
Definition handle_line {E} (line : js_string) : M E unit :=
  match trim line with
  | _ :: _ =>
      try_catch
        (data <- parse line ;; dispatch data)
        (fun parseError => ret tt)
  | [] => ret tt
  end.

(** The body of [while (true)] for one chunk that was read. *)
Definition handle_chunk {E} (value : list byte) : M E unit :=
  let chunk := decode value in
  let lines := split 10 chunk in
  for_of lines handle_line.

(** [while (true) { const { done, value } = await reader.read(); ... }] *)
Fixpoint read_loop (reads : list read_result) : M thrown unit :=
  match reads with
  | [] => ret tt
  | Rejected e :: _ => throw e
  | Value value :: rest => handle_chunk value ;; read_loop rest
  end.

Section WithEnvironment.

Variable env : option js_string.
Variable fetch : network.

Definition await {A} (c : outcome thrown A) : M thrown A :=
  fun st => (c, st).

(** The request of the diagnosis-start call:
    [{ method: 'POST', headers: { 'Content-Type': 'application/json' },
       body: JSON.stringify({ s3Key, fileName }) }]. *)
Definition processing_request (s3Key fileName : js_string) : RequestInit :=
  {| method := Some (lit "POST");
     headers := Some Config.json_headers;
     request_body := Some (JObject [(lit "s3Key", JString s3Key);
                                    (lit "fileName", JString fileName)]) |}.

Definition processS3Video : M thrown unit :=
  fun st =>
    match s3Key st, fileName st with
    | Some (k :: ks), Some (f :: fs) =>
        (setIsProcessing true ;;
         setProgress (number 0) ;;
         setError None ;;
         setProgressMessage (text "Initializing analysis...") ;;
         try_finally
           (try_catch
              (response <-
                 await (fetch (Config.getApiUrl env Config.ENDPOINTS.PROCESS_S3_VIDEO)
                              (processing_request (k :: ks) (f :: fs))) ;;
               if negb (ok response) then
                 throw (ErrorObject (lit "Failed to process S3 video"))
               else
                 match body response with
                 | None => throw (ErrorObject (lit "Failed to read response stream"))
                 | Some reader => read_loop reader
                 end)
              (fun error =>
                 setError (Some (match error with
                                 | ErrorObject message => message
                                 | NotAnError => lit "Failed to process S3 video"
                                 end)) ;;
                 setProgress (number 0) ;;
                 setProgressMessage (text "")))
           (setIsProcessing false)) st
    | _, _ => (Normal tt, st)
    end.

End WithEnvironment.

(** ** The records the loop recognises

    The loop reads, splits, parses and acts in one pass.  The definitions
    below name what it recognises on the way: the record a line carries
    when the line is not blank, parses, and its [type] is one of the three
    the [if] chain tests. *)

Inductive event : Type :=
| Progress (percent message : jsval)
| Complete (diagnosisId : jsval)
| Failure (message : jsval).

Definition event_of (data : json) : option event :=
  match data with
  | JObject props =>
      let type := own_property (lit "type") props in
      if strict_eq_str type (lit "progress") then
        Some (Progress (own_property (lit "progress") props)
                       (own_property (lit "message") props))
      else if strict_eq_str type (lit "complete") then
        Some (Complete (own_property (lit "diagnosisId") props))
      else if strict_eq_str type (lit "error") then
        Some (Failure (own_property (lit "message") props))
      else None
  | _ => None
  end.

Definition line_event (line : js_string) : option event :=
  match trim line with
  | [] => None
  | _ :: _ =>
      match JSON_parse line with
      | Some data => event_of data
      | None => None
      end
  end.

Fixpoint line_events (lines : list js_string) : list event :=
  match lines with
  | [] => []
  | line :: rest =>
      match line_event line with
      | Some ev => ev :: line_events rest
      | None => line_events rest
      end
  end.

Definition chunk_events (value : list byte) : list event :=
  line_events (split 10 (decode value)).

(** The events of a body, in order, up to the end of the stream or to the
    first read that fails. *)
Fixpoint decoded_events (reads : list read_result) : list event :=
  match reads with
  | [] => []
  | Rejected _ :: _ => []
  | Value value :: rest => chunk_events value ++ decoded_events rest
  end.

(** What the [try] block does to the component state for each of them (the
    [Error] thrown for the third is caught by the [catch] of that block). *)
Definition on_event (ev : event) (st : state) : state :=
  match ev with
  | Progress p m => with_progressMessage m (with_progress p st)
  | Complete id =>
      with_redirect id
        (with_progressMessage (text "Analysis complete! Redirecting...")
           (with_progress (number 100) st))
  | Failure _ => st
  end.

Definition on_events (evs : list event) (st : state) : state :=
  fold_left (fun s ev => on_event ev s) evs st.

(** The component states after each event of a sequence. *)
Fixpoint displayed (evs : list event) (st : state) : list state :=
  match evs with
  | [] => []
  | ev :: rest => on_event ev st :: displayed rest (on_event ev st)
  end.

Definition is_terminal (ev : event) : bool :=
  match ev with
  | Progress _ _ => false
  | Complete _ | Failure _ => true
  end.

Definition is_failure (ev : event) : bool :=
  match ev with
  | Failure _ => true
  | _ => false
  end.

(** The percent an event carries: its own for a progress record, 100 for a
    complete record (an error record carries none). *)
Definition carried_percent (ev : event) : jsval :=
  match ev with
  | Progress p _ => p
  | Complete _ => number 100
  | Failure _ => undefined
  end.

Definition carried_message (ev : event) : jsval :=
  match ev with
  | Progress _ m => m
  | Complete _ => text "Analysis complete! Redirecting..."
  | Failure m => m
  end.

(** The identifiers of the complete records of a sequence, in order. *)
Definition completed_ids (evs : list event) : list jsval :=
  flat_map (fun ev => match ev with Complete id => [id] | _ => [] end) evs.

(** Order on displayed percents: exact comparison of two numbers. *)
Definition percent_le (a b : jsval) : bool :=
  match a, b with
  | Some (JNumber m1 e1), Some (JNumber m2 e2) =>
      let k := Z.min e1 e2 in
      (m1 * 10 ^ (e1 - k) <=? m2 * 10 ^ (e2 - k))%Z
  | _, _ => false
  end.

Fixpoint non_decreasing (l : list jsval) : bool :=
  match l with
  | a :: rest =>
      match rest with
      | b :: _ => percent_le a b && non_decreasing rest
      | [] => true
      end
  | [] => true
  end.

(** ** Chunk boundaries *)

Definition ends_line (c : list byte) : bool :=
  match rev c with
  | [] => true
  | b :: _ => Byte.eqb b x0a
  end.

(** The chunk starts with an encoded U+FEFF, which [decode] drops. *)
Definition begins_with_bom (c : list byte) : bool :=
  match utf8_run utf8_start c with
  | cp :: _ => N.eqb cp 0xFEFF
  | [] => false
  end.

(** Every chunk boundary falls just after a newline byte, and no chunk
    after the first starts with a byte-order mark. *)
Definition line_aligned (chunks : list (list byte)) : bool :=
  forallb ends_line (removelast chunks)
  && forallb (fun c => negb (begins_with_bom c)) (tl chunks).

(** The run has failed when an error message is set and processing is over. *)
Definition Failed (st : state) : Prop :=
  error st <> None /\ isProcessing st = false.

End Home.


(* ================================================================== *)
(** * [supabase-schema.sql] *)
(* ================================================================== *)

Module Schema.

Local Open Scope string_scope.

(** ** The statements of the file *)

Inductive sql_type := TEXT | TIMESTAMPTZ | SERIAL | JSONB.

Inductive default_expr :=
| gen_random_uuid
| NOW
| nextval
| LITERAL (s : string).

Inductive referential_action := NO_ACTION | CASCADE.

Inductive column_constraint :=
| PRIMARY_KEY
| NOT_NULL
| DEFAULT (d : default_expr)
| REFERENCES (t c : string) (on_delete : referential_action)
| CHECK_IN (allowed : list string).

Record column_def := {
  column_name : string;
  data_type : sql_type;
  column_constraints : list column_constraint
}.

Definition col (n : string) (ty : sql_type) (cs : list column_constraint) :=
  {| column_name := n; data_type := ty; column_constraints := cs |}.

Inductive statement :=
| CREATE_TABLE (if_not_exists : bool) (t : string) (cols : list column_def)
| ADD_COLUMN_IF_NOT_EXISTS (t : string) (c : column_def)
| DROP_CONSTRAINT_IF_EXISTS (t name : string)
| DROP_COLUMN_IF_EXISTS (t c : string)
| CREATE_INDEX (name t c : string)
| CREATE_FUNCTION (name : string)
| CREATE_TRIGGER_BEFORE_UPDATE (name t function : string)
| ENABLE_ROW_LEVEL_SECURITY (t : string)
| CREATE_POLICY_ALLOW_ALL (name t : string).

(** The file, statement by statement. *)
Definition script : list statement :=
  [ CREATE_TABLE false "chat_conversations"
      [ col "id" TEXT [PRIMARY_KEY; DEFAULT gen_random_uuid];
        col "summary_id" TEXT [NOT_NULL; REFERENCES "summaries" "id" CASCADE];
        col "title" TEXT [NOT_NULL];
        col "created_at" TIMESTAMPTZ [DEFAULT NOW];
        col "updated_at" TIMESTAMPTZ [DEFAULT NOW] ];
    CREATE_TABLE false "chat_messages"
      [ col "id" TEXT [PRIMARY_KEY; DEFAULT gen_random_uuid];
        col "conversation_id" TEXT
          [NOT_NULL; REFERENCES "chat_conversations" "id" CASCADE];
        col "role" TEXT [NOT_NULL; CHECK_IN ["user"; "assistant"]];
        col "content" TEXT [NOT_NULL];
        col "created_at" TIMESTAMPTZ [DEFAULT NOW] ];
    CREATE_INDEX "idx_chat_conversations_summary_id" "chat_conversations" "summary_id";
    CREATE_INDEX "idx_chat_conversations_created_at" "chat_conversations" "created_at";
    CREATE_INDEX "idx_chat_messages_conversation_id" "chat_messages" "conversation_id";
    CREATE_INDEX "idx_chat_messages_created_at" "chat_messages" "created_at";
    CREATE_FUNCTION "update_updated_at_column";
    CREATE_TRIGGER_BEFORE_UPDATE "update_summaries_updated_at" "summaries"
      "update_updated_at_column";
    CREATE_TRIGGER_BEFORE_UPDATE "update_chat_conversations_updated_at"
      "chat_conversations" "update_updated_at_column";
    ENABLE_ROW_LEVEL_SECURITY "summaries";
    ENABLE_ROW_LEVEL_SECURITY "chat_conversations";
    ENABLE_ROW_LEVEL_SECURITY "chat_messages";
    CREATE_POLICY_ALLOW_ALL "Allow all operations on summaries" "summaries";
    CREATE_POLICY_ALLOW_ALL "Allow all operations on chat_conversations"
      "chat_conversations";
    CREATE_POLICY_ALLOW_ALL "Allow all operations on chat_messages" "chat_messages";
    ADD_COLUMN_IF_NOT_EXISTS "summaries" (col "analysis" JSONB []);
    CREATE_INDEX "idx_summaries_analysis" "summaries" "analysis";
    CREATE_TABLE true "refrigerator_diagnoses"
      [ col "id" SERIAL [PRIMARY_KEY];
        col "video_id" TEXT [NOT_NULL];
        col "file_name" TEXT [NOT_NULL];
        col "video_url" TEXT [NOT_NULL];
        col "user_description" TEXT [];
        col "brand" TEXT [];
        col "model" TEXT [];
        col "issue_category" TEXT [];
        col "severity_level" TEXT [];
        col "diagnosis_result" TEXT [NOT_NULL];
        col "solutions" TEXT [NOT_NULL];
        col "audio_summary" TEXT [];
        col "ai_model" TEXT [DEFAULT (LITERAL "gemini-2.0-flash-001")];
        col "created_at" TIMESTAMPTZ [DEFAULT NOW] ];
    CREATE_INDEX "idx_refrigerator_diagnoses_video_id" "refrigerator_diagnoses" "video_id";
    CREATE_INDEX "idx_refrigerator_diagnoses_brand" "refrigerator_diagnoses" "brand";
    CREATE_INDEX "idx_refrigerator_diagnoses_issue_category" "refrigerator_diagnoses"
      "issue_category";
    CREATE_INDEX "idx_refrigerator_diagnoses_severity_level" "refrigerator_diagnoses"
      "severity_level";
    CREATE_INDEX "idx_refrigerator_diagnoses_created_at" "refrigerator_diagnoses"
      "created_at";
    ENABLE_ROW_LEVEL_SECURITY "refrigerator_diagnoses";
    CREATE_POLICY_ALLOW_ALL "Allow all operations on refrigerator_diagnoses"
      "refrigerator_diagnoses";
    ADD_COLUMN_IF_NOT_EXISTS "refrigerator_diagnoses" (col "refrigerator_type" TEXT []);
    ADD_COLUMN_IF_NOT_EXISTS "chat_conversations" (col "diagnosis_id" TEXT []);
    DROP_CONSTRAINT_IF_EXISTS "chat_conversations" "chat_conversations_summary_id_fkey";
    DROP_COLUMN_IF_EXISTS "chat_conversations" "summary_id";
    CREATE_INDEX "idx_chat_conversations_diagnosis_id" "chat_conversations" "diagnosis_id"
  ].

(** ** The catalog the statements build *)

Inductive table_constraint :=
| PKEY (c : string)
| CHECK (c : string) (allowed : list string)
| FKEY (c : string) (ref_table ref_column : string) (on_delete : referential_action).

Record column := {
  name : string;
  type : sql_type;
  not_null : bool;
  default : option default_expr
}.

Record table := {
  table_name : string;
  columns : list column;
  constraints : list (string * table_constraint);
  before_update : list string
}.

Definition catalog := list table.

Definition find_table (cat : catalog) (t : string) : option table :=
  find (fun tb => table_name tb =? t) cat.

Fixpoint replace_table (cat : catalog) (tb : table) : catalog :=
  match cat with
  | [] => []
  | tb' :: rest =>
      if table_name tb' =? table_name tb then tb :: rest
      else tb' :: replace_table rest tb
  end.

Definition has_constraint (P : column_constraint -> bool) (c : column_def) : bool :=
  existsb P (column_constraints c).

Definition column_of (c : column_def) : column :=
  {| name := column_name c;
     type := data_type c;
     not_null := has_constraint
                   (fun k => match k with PRIMARY_KEY | NOT_NULL => true | _ => false end) c;
     default := fold_left (fun acc k => match k with DEFAULT d => Some d | _ => acc end)
                          (column_constraints c)
                          (match data_type c with SERIAL => Some nextval | _ => None end) |}.

(** Column constraints get the names the server gives them:
    [<table>_pkey], [<table>_<column>_check], [<table>_<column>_fkey]. *)
Definition constraints_of (t : string) (c : column_def)
  : list (string * table_constraint) :=
  flat_map
    (fun k =>
       match k with
       | PRIMARY_KEY => [(t ++ "_pkey", PKEY (column_name c))]
       | CHECK_IN allowed =>
           [(t ++ "_" ++ column_name c ++ "_check", CHECK (column_name c) allowed)]
       | REFERENCES rt rc a =>
           [(t ++ "_" ++ column_name c ++ "_fkey", FKEY (column_name c) rt rc a)]
       | NOT_NULL | DEFAULT _ => []
       end)
    (column_constraints c).

Definition constrained_column (k : table_constraint) : string :=
  match k with
  | PKEY c => c
  | CHECK c _ => c
  | FKEY c _ _ _ => c
  end.

(** Tables a column definition refers to must exist. *)
Definition references_exist (cat : catalog) (self : string) (c : column_def) : bool :=
  forallb
    (fun k =>
       match k with
       | REFERENCES rt _ _ =>
           (rt =? self) || match find_table cat rt with Some _ => true | None => false end
       | _ => true
       end)
    (column_constraints c).

(** One statement; [None] when the server rejects it. *)
Definition exec (cat : catalog) (s : statement) : option catalog :=
  match s with
  | CREATE_TABLE if_not_exists t cols =>
      match find_table cat t with
      | Some _ => if if_not_exists then Some cat else None
      | None =>
          if forallb (references_exist cat t) cols then
            Some (cat ++ [{| table_name := t;
                             columns := map column_of cols;
                             constraints := flat_map (constraints_of t) cols;
                             before_update := [] |}])%list
          else None
      end
  | ADD_COLUMN_IF_NOT_EXISTS t c =>
      match find_table cat t with
      | None => None
      | Some tb =>
          if existsb (fun c' => name c' =? column_name c) (columns tb) then Some cat
          else if references_exist cat t c then
            Some (replace_table cat
                    {| table_name := t;
                       columns := (columns tb ++ [column_of c])%list;
                       constraints := (constraints tb ++ constraints_of t c)%list;
                       before_update := before_update tb |})
          else None
      end
  | DROP_CONSTRAINT_IF_EXISTS t n =>
      match find_table cat t with
      | None => None
      | Some tb =>
          Some (replace_table cat
                  {| table_name := t;
                     columns := columns tb;
                     constraints := filter (fun nk => negb (fst nk =? n)) (constraints tb);
                     before_update := before_update tb |})
      end
  | DROP_COLUMN_IF_EXISTS t c =>
      match find_table cat t with
      | None => None
      | Some tb =>
          Some (replace_table cat
                  {| table_name := t;
                     columns := filter (fun c' => negb (name c' =? c)) (columns tb);
                     constraints :=
                       filter (fun nk => negb (constrained_column (snd nk) =? c))
                              (constraints tb);
                     before_update := before_update tb |})
      end
  | CREATE_TRIGGER_BEFORE_UPDATE _ t f =>
      match find_table cat t with
      | None => None
      | Some tb =>
          Some (replace_table cat
                  {| table_name := t;
                     columns := columns tb;
                     constraints := constraints tb;
                     before_update := (before_update tb ++ [f])%list |})
      end
  | CREATE_INDEX _ t _ | ENABLE_ROW_LEVEL_SECURITY t | CREATE_POLICY_ALLOW_ALL _ t =>
      match find_table cat t with
      | None => None
      | Some _ => Some cat
      end
  | CREATE_FUNCTION _ => Some cat
  end.

Fixpoint run (cat : catalog) (ss : list statement) : option catalog :=
  match ss with
  | [] => Some cat
  | s :: rest =>
      match exec cat s with
      | Some cat' => run cat' rest
      | None => None
      end
  end.

(** The file starts from a database that already has [summaries], made by
    an earlier migration that is not part of the file: only its key and the
    column its trigger writes are given here. *)
Definition before_script : catalog :=
  [ {| table_name := "summaries";
       columns := [ {| name := "id"; type := TEXT; not_null := true; default := None |};
                    {| name := "updated_at"; type := TIMESTAMPTZ; not_null := false;
                       default := Some NOW |} ];
       constraints := [("summaries_pkey", PKEY "id")];
       before_update := [] |} ].

Definition schema : catalog :=
  match run before_script script with
  | Some cat => cat
  | None => []
  end.

(** ** Rows and statements on them *)

Inductive value :=
| NULL
| Text (s : string)
| Int (z : Z)
| Time (t : Z)
| Json (s : string).

Definition value_eqb (a b : value) : bool :=
  match a, b with
  | NULL, NULL => true
  | Text x, Text y => x =? y
  | Int x, Int y => (x =? y)%Z
  | Time x, Time y => (x =? y)%Z
  | Json x, Json y => x =? y
  | _, _ => false
  end.

Definition is_null (v : value) : bool :=
  match v with NULL => true | _ => false end.

Definition row := list (string * value).

Fixpoint given (r : row) (c : string) : option value :=
  match r with
  | [] => None
  | (c', v) :: rest => if c' =? c then Some v else given rest c
  end.

Definition field (r : row) (c : string) : value :=
  match given r c with Some v => v | None => NULL end.

Definition database := list (string * list row).

Fixpoint rows (db : database) (t : string) : list row :=
  match db with
  | [] => []
  | (t', rs) :: rest => if t' =? t then rs else rows rest t
  end.

Fixpoint set_rows (db : database) (t : string) (rs : list row) : database :=
  match db with
  | [] => [(t, rs)]
  | (t', rs') :: rest =>
      if t' =? t then (t', rs) :: rest else (t', rs') :: set_rows rest t rs
  end.

(** What the server supplies while a statement runs. *)
Record session := {
  fresh_uuid : string;
  current_time : Z;
  next_serial : Z
}.

Definition default_value (env : session) (d : option default_expr) : value :=
  match d with
  | None => NULL
  | Some gen_random_uuid => Text (fresh_uuid env)
  | Some NOW => Time (current_time env)
  | Some nextval => Int (next_serial env)
  | Some (LITERAL s) => Text s
  end.

Inductive sql_error :=
| undefined_table
| undefined_column
| datatype_mismatch
| not_null_violation
| check_violation
| unique_violation
| foreign_key_violation
| feature_not_supported
| statement_too_complex.

Definition has_type (ty : sql_type) (v : value) : bool :=
  match v, ty with
  | NULL, _ => true
  | Text _, TEXT => true
  | Int _, SERIAL => true
  | Time _, TIMESTAMPTZ => true
  | Json _, JSONB => true
  | _, _ => false
  end.

(** The row as stored: one value per column, defaults for the columns the
    statement does not mention. *)
Definition complete (env : session) (tb : table) (r : row) : row :=
  map (fun c => (name c,
                 match given r (name c) with
                 | Some v => v
                 | None => default_value env (default c)
                 end))
      (columns tb).

Definition check_ok (r : row) (k : table_constraint) : bool :=
  match k with
  | CHECK c allowed =>
      match field r c with
      | NULL => true
      | Text s => existsb (String.eqb s) allowed
      | _ => false
      end
  | _ => true
  end.

Definition unique_ok (existing : list row) (r : row) (k : table_constraint) : bool :=
  match k with
  | PKEY c => negb (existsb (fun r' => value_eqb (field r' c) (field r c)) existing)
  | _ => true
  end.

Definition reference_ok (db : database) (r : row) (k : table_constraint) : bool :=
  match k with
  | FKEY c rt rc _ =>
      is_null (field r c)
      || existsb (fun p => value_eqb (field p rc) (field r c)) (rows db rt)
  | _ => true
  end.

(** Constraints on a row about to be stored, in the order the server
    applies them: first those on the row alone (types, NOT NULL, CHECK),
    then keys, then references. *)
Definition row_violates (tb : table) (r : row) : option sql_error :=
  if negb (forallb (fun c => has_type (type c) (field r (name c))) (columns tb))
  then Some datatype_mismatch
  else if negb (forallb (fun c => negb (not_null c && is_null (field r (name c))))
                        (columns tb))
  then Some not_null_violation
  else if negb (forallb (fun nk => check_ok r (snd nk)) (constraints tb))
  then Some check_violation
  else None.

Definition violates (db : database) (tb : table) (others : list row) (r : row)
  : option sql_error :=
  match row_violates tb r with
  | Some e => Some e
  | None =>
      if negb (forallb (fun nk => unique_ok others r (snd nk)) (constraints tb))
      then Some unique_violation
      else if negb (forallb (fun nk => reference_ok db r (snd nk)) (constraints tb))
      then Some foreign_key_violation
      else None
  end.

(** [INSERT INTO t (columns of r) VALUES (values of r)] *)
Definition insert (cat : catalog) (env : session) (db : database)
  (t : string) (r : row) : outcome sql_error database :=
  match find_table cat t with
  | None => Throw undefined_table
  | Some tb =>
      if negb (forallb (fun cv => existsb (fun c => name c =? fst cv) (columns tb)) r)
      then Throw undefined_column
      else
        let stored := complete env tb r in
        match violates db tb (rows db t) stored with
        | Some e => Throw e
        | None => Normal (set_rows db t (rows db t ++ [stored])%list)
        end
  end.

(** Foreign keys of other tables that point at [t]:
    (referencing table, its column, referenced column, action). *)
Definition referencing (cat : catalog) (t : string)
  : list (string * string * string * referential_action) :=
  flat_map
    (fun tb =>
       flat_map
         (fun nk =>
            match snd nk with
            | FKEY c rt rc a => if rt =? t then [(table_name tb, c, rc, a)] else []
            | _ => []
            end)
         (constraints tb))
    cat.

(** [DELETE FROM t WHERE doomed]: the rows go, and so do, for every foreign
    key with ON DELETE CASCADE that points at them, the rows that refer to
    them; a foreign key without it makes the statement fail when such rows
    exist. *)
Fixpoint delete_where (fuel : nat) (cat : catalog) (db : database)
  (t : string) (doomed : row -> bool) : outcome sql_error database :=
  match fuel with
  | O => Throw statement_too_complex
  | S fuel' =>
      let victims := filter doomed (rows db t) in
      let remaining := filter (fun r => negb (doomed r)) (rows db t) in
      fold_left
        (fun acc ref =>
           match acc with
           | Throw e => Throw e
           | Normal db' =>
               match ref with
               | (ct, cc, pc, action) =>
                   let hit := fun r : row =>
                     negb (is_null (field r cc))
                     && existsb (fun v => value_eqb (field v pc) (field r cc)) victims in
                   match action with
                   | CASCADE => delete_where fuel' cat db' ct hit
                   | NO_ACTION =>
                       if existsb hit (rows db' ct) then Throw foreign_key_violation
                       else Normal db'
                   end
               end
           end)
        (referencing cat t)
        (Normal (set_rows db t remaining))
  end.

Definition delete (cat : catalog) (db : database) (t c : string) (v : value)
  : outcome sql_error database :=
  delete_where (S (List.length cat)) cat db t (fun r => value_eqb (field r c) v).

Fixpoint set_field (r : row) (c : string) (v : value) : row :=
  match r with
  | [] => []
  | (c', v') :: rest =>
      if c' =? c then (c', v) :: rest else (c', v') :: set_field rest c v
  end.

(** The trigger function [update_updated_at_column]. *)
Definition run_trigger (env : session) (f : string) (new : row) : row :=
  if f =? "update_updated_at_column"
  then set_field new "updated_at" (Time (current_time env))
  else new.

Fixpoint first_violation (tb : table) (rs : list row) : option sql_error :=
  match rs with
  | [] => None
  | r :: rest =>
      match row_violates tb r with
      | Some e => Some e
      | None => first_violation tb rest
      end
  end.

(** [UPDATE t SET c = v WHERE k = kv], for a column [c] that no key or
    reference involves. *)
Definition update (cat : catalog) (env : session) (db : database)
  (t c : string) (v : value) (k : string) (kv : value)
  : outcome sql_error database :=
  match find_table cat t with
  | None => Throw undefined_table
  | Some tb =>
      if negb (existsb (fun c' => name c' =? c) (columns tb)) then Throw undefined_column
      else if existsb (fun nk => match snd nk with
                                 | PKEY c' | FKEY c' _ _ _ => c' =? c
                                 | CHECK _ _ => false
                                 end) (constraints tb)
              || existsb (fun ref => match ref with (_, _, pc, _) => pc =? c end)
                         (referencing cat t)
      then Throw feature_not_supported
      else
        let rewrite := fun r : row =>
          fold_left (fun new f => run_trigger env f new) (before_update tb)
                    (set_field r c v) in
        let hit := fun r : row => value_eqb (field r k) kv in
        match first_violation tb (map rewrite (filter hit (rows db t))) with
        | Some e => Throw e
        | None =>
            Normal (set_rows db t
                      (map (fun r => if hit r then rewrite r else r) (rows db t)))
        end
  end.

(** ** The store operations of the backend *)

Inductive store_error :=
| ValidationError
| NotFoundError
| StoreError (e : sql_error).

Definition id_text (id : Z) : string :=
  DecimalString.NilZero.string_of_int (Z.to_int id).

(** Modelled from the spec: [appendMessage(conversationId, role, content)]
    of the chat subsystem, whose code is not in the repository files at
    hand.  It "fails with ValidationError if role is outside
    {user, assistant} or content is empty; fails with NotFoundError if the
    conversation does not exist; bumps the owning Conversation's updated
    timestamp".  The message is stored by an INSERT into [chat_messages]
    under the constraints of the schema: a constraint on the row's values
    is reported as [ValidationError], a missing conversation (the foreign
    key) as [NotFoundError]. *)
Definition appendMessage (env : session) (db : database)
  (conversationId role content : value) : outcome store_error database :=
  match content with
  | Text "" => Throw ValidationError
  | _ =>
      match insert schema env db "chat_messages"
              [("conversation_id", conversationId); ("role", role); ("content", content)]
      with
      | Throw (datatype_mismatch | not_null_violation | check_violation) =>
          Throw ValidationError
      | Throw foreign_key_violation => Throw NotFoundError
      | Throw e => Throw (StoreError e)
      | Normal db' =>
          match update schema env db' "chat_conversations"
                  "updated_at" (Time (current_time env)) "id" conversationId
          with
          | Normal db'' => Normal db''
          | Throw e => Throw (StoreError e)
          end
      end
  end.

(** Modelled from the spec: [delete(id)] of the diagnosis store, whose code
    is not in the repository files at hand.  It "fails with NotFoundError if
    absent; on success, atomically removes the Diagnosis and, via cascade,
    every Conversation and Message owned by it", as "an explicit
    transactional delete operation spanning all three entities": in one
    transaction, a DELETE of the conversations whose [diagnosis_id] spells
    the identifier, then a DELETE of the diagnosis row.  The messages go
    with their conversations by the ON DELETE CASCADE the schema declares
    on [chat_messages.conversation_id]; the schema declares no foreign key
    on [chat_conversations.diagnosis_id], so the first statement is the
    operation's own.  A statement that fails ends the transaction and
    leaves the store as it was. *)
Definition delete_diagnosis (db : database) (id : Z) : outcome store_error database :=
  if existsb (fun r => value_eqb (field r "id") (Int id)) (rows db "refrigerator_diagnoses")
  then match delete schema db "chat_conversations" "diagnosis_id" (Text (id_text id)) with
       | Throw e => Throw (StoreError e)
       | Normal db1 =>
           match delete schema db1 "refrigerator_diagnoses" "id" (Int id) with
           | Normal db' => Normal db'
           | Throw e => Throw (StoreError e)
           end
       end
  else Throw NotFoundError.

(** [deleteConversation(conversationId)]: one DELETE on [chat_conversations]. *)
Definition delete_conversation (db : database) (id : string)
  : outcome sql_error database :=
  delete schema db "chat_conversations" "id" (Text id).


Definition owned_by_conversation (conversation message : row) : bool :=
  negb (is_null (field message "conversation_id"))
  && value_eqb (field message "conversation_id") (field conversation "id").

(** The role of a stored message is one of the two values. *)
Definition valid_role (message : row) : Prop :=
  field message "role" = Text "user" \/ field message "role" = Text "assistant".

(** The databases the statements above can produce, starting from the
    empty one. *)
Inductive reachable : database -> Prop :=
| reach_empty : reachable []
| reach_insert (env : session) (db : database) (t : string) (r : row) (db' : database) :
    reachable db -> insert schema env db t r = Normal db' -> reachable db'
| reach_delete (db : database) (t c : string) (v : value) (db' : database) :
    reachable db -> delete schema db t c v = Normal db' -> reachable db'
| reach_update (env : session) (db : database) (t c : string) (v : value)
    (k : string) (kv : value) (db' : database) :
    reachable db -> update schema env db t c v k kv = Normal db' -> reachable db'
| reach_append (env : session) (db : database) (conversationId role content : value)
    (db' : database) :
    reachable db -> appendMessage env db conversationId role content = Normal db' ->
    reachable db'.

End Schema.


(* ================================================================== *)
(** * Sample data *)
(* ================================================================== *)

Module Samples.

(** The bytes of a JSON text, written here with ' for the double quote. *)
Definition json_text (s : string) : list byte :=
  map (fun b => if Byte.eqb b x27 then x22 else b) (list_byte_of_string s).

(** The same, followed by a newline. *)
Definition json_line (s : string) : list byte := json_text s ++ [x0a].

(** The lines of the example scenario. *)
Definition progress_10 : string :=
  "{'type':'progress','progress':10,'message':'Analyzing'}".
Definition progress_90 : string :=
  "{'type':'progress','progress':90,'message':'Finalizing'}".
Definition complete_d1 : string := "{'type':'complete','diagnosisId':'d1'}".

Definition error_unavailable : string :=
  "{'type':'error','message':'model unavailable'}".

(** A response with status 200 whose body arrives in the given chunks. *)
Definition streamed (chunks : list (list byte)) : Response :=
  {| status := 200; body := Some (map Value chunks) |}.

(** A network that answers every request with the same result. *)
Definition always (r : outcome thrown Response) : network := fun _ _ => r.

(** The component once a video has been uploaded. *)
Definition uploaded : Home.state :=
  Home.with_fileName (Some (lit "fridge1.mp4"))
    (Home.with_s3Key (Some (lit "videos/key1")) Home.initial).

(** The component while the body is read: [processS3Video] has set its
    four state variables. *)
Definition running : Home.state :=
  Home.with_progressMessage (text "Initializing analysis...")
    (Home.with_error None
       (Home.with_progress (number 0) (Home.with_isProcessing true uploaded))).

(** A store with one diagnosis, one conversation about it and one message
    in that conversation. *)
Definition diagnosis_1 : Schema.row :=
  [("id", Schema.Int 1); ("video_id", Schema.Text "v1");
   ("file_name", Schema.Text "fridge1.mp4");
   ("video_url", Schema.Text "s3://bucket/key1");
   ("user_description", Schema.NULL); ("brand", Schema.NULL);
   ("model", Schema.NULL); ("issue_category", Schema.NULL);
   ("severity_level", Schema.NULL);
   ("diagnosis_result", Schema.Text "Blocked drain");
   ("solutions", Schema.Text "Clear the drain pan");
   ("audio_summary", Schema.NULL);
   ("ai_model", Schema.Text "gemini-2.0-flash-001");
   ("created_at", Schema.Time 10); ("refrigerator_type", Schema.NULL)]%string.

Definition conversation_c1 : Schema.row :=
  [("id", Schema.Text "c1"); ("title", Schema.Text "Leak");
   ("created_at", Schema.Time 20); ("updated_at", Schema.Time 30);
   ("diagnosis_id", Schema.Text "1")]%string.

Definition message_m1 : Schema.row :=
  [("id", Schema.Text "m1"); ("conversation_id", Schema.Text "c1");
   ("role", Schema.Text "user"); ("content", Schema.Text "why is it leaking?");
   ("created_at", Schema.Time 30)]%string.

Definition store_with_chat : Schema.database :=
  [("refrigerator_diagnoses", [diagnosis_1]);
   ("chat_conversations", [conversation_c1]);
   ("chat_messages", [message_m1])]%string.

Definition at_time (uuid : string) (t serial : Z) : Schema.session :=
  {| Schema.fresh_uuid := uuid; Schema.current_time := t;
     Schema.next_serial := serial |}.

(** Error responses of the backend. *)
Definition not_found : Response :=
  {| status := 404;
     body := Some [Value (json_text "{'detail':'Diagnosis not found'}")] |}.

Definition empty_detail : Response :=
  {| status := 400;
     body := Some [Value (json_text "{'detail':'','message':'bad request'}")] |}.

End Samples.

(* ================================================================== *)
(** * Bodies, lines and headers: further observations *)
(* ================================================================== *)

Module Observations.

(** The error of the first read of a body that fails, if one does. *)
Fixpoint first_rejection (reads : list read_result) : option thrown :=
  match reads with
  | [] => None
  | Rejected e :: _ => Some e
  | Value _ :: rest => first_rejection rest
  end.

(** [pieces.join(sep)] with a one-unit separator. *)
Fixpoint join (sep : N) (pieces : list js_string) : js_string :=
  match pieces with
  | [] => []
  | p :: rest =>
      match rest with
      | [] => p
      | _ :: _ => p ++ sep :: join sep rest
      end
  end.

(** The message [processS3Video] shows for what its [catch] receives. *)
Definition caught_message (e : thrown) : js_string :=
  match e with
  | ErrorObject message => message
  | NotAnError => lit "Failed to process S3 video"
  end.

(** The state in which [processS3Video] starts to read the body, and the
    state its [catch] leaves. *)
Definition started_from (st : Home.state) : Home.state :=
  Home.with_progressMessage (text "Initializing analysis...")
    (Home.with_error None
       (Home.with_progress (number 0) (Home.with_isProcessing true st))).

Definition failed_with (e : thrown) (st : Home.state) : Home.state :=
  Home.with_progressMessage (text "")
    (Home.with_progress (number 0)
       (Home.with_error (Some (caught_message e)) st)).

(** A body that fails after a complete record. *)
Definition interrupted : Response :=
  {| status := 200;
     body := Some [Value (Samples.json_line Samples.complete_d1);
                   Rejected (ErrorObject (lit "network error"))] |}.

End Observations.

(* ================================================================== *)
(** * Integrity of the store *)
(* ================================================================== *)

Module Integrity.
Import Schema.
Local Open Scope string_scope.

(** The message refers to a conversation that is in the store. *)
Definition has_conversation (db : database) (message : row) : Prop :=
  field message "conversation_id" <> NULL
  /\ exists c, In c (rows db "chat_conversations")
               /\ field c "id" = field message "conversation_id".

(** The primary keys of the rows of a table. *)
Definition ids (rs : list row) : list value :=
  map (fun r => field r "id") rs.

(** The rows of a table satisfy what the table asks of a row alone:
    column types, NOT NULL, CHECK. *)
Definition rows_checked (db : database) (t : string) : Prop :=
  forall tb r, find_table schema t = Some tb -> In r (rows db t) ->
               row_violates tb r = None.

(** The stores that INSERT, DELETE and UPDATE statements produce from the
    empty one. *)
Inductive produced : database -> Prop :=
| produced_empty : produced []
| produced_insert (env : session) (db : database) (t : string) (r : row)
    (db' : database) :
    produced db -> insert schema env db t r = Normal db' -> produced db'
| produced_delete (db : database) (t c : string) (v : value) (db' : database) :
    produced db -> delete schema db t c v = Normal db' -> produced db'
| produced_update (env : session) (db : database) (t c : string) (v : value)
    (k : string) (kv : value) (db' : database) :
    produced db -> update schema env db t c v k kv = Normal db' -> produced db'.

(** The tables of the schema, as the file leaves them. *)
Definition no_table : table :=
  {| table_name := ""; columns := []; constraints := []; before_update := [] |}.

Definition table_of (t : string) : table :=
  match find_table schema t with
  | Some tb => tb
  | None => no_table
  end.

Definition messages_table : table := Eval vm_compute in table_of "chat_messages".
Definition conversations_table : table :=
  Eval vm_compute in table_of "chat_conversations".
Definition diagnoses_table : table :=
  Eval vm_compute in table_of "refrigerator_diagnoses".

(** The row an UPDATE of [chat_conversations] makes of a row it touches:
    the new value, then the trigger. *)
Definition touched (env : session) (c : string) (v : value) (r : row) : row :=
  set_field (set_field r c v) "updated_at" (Time (current_time env)).

End Integrity.

(* ================================================================== *)
(** * Component code: state, exceptions and what a [catch] shows *)
(* ================================================================== *)

Module Effects.

(** Code that updates a component state [S] and may throw. *)
Definition M (S E A : Type) : Type := S -> outcome E A * S.

Definition ret {S E A} (a : A) : M S E A := fun st => (Normal a, st).

Definition bind {S E A B} (c : M S E A) (k : A -> M S E B) : M S E B :=
  fun st =>
    match c st with
    | (Normal a, st') => k a st'
    | (Throw e, st') => (Throw e, st')
    end.

Definition throw {S E A} (e : E) : M S E A := fun st => (Throw e, st).

(** [try { c } catch (e) { h e }] *)
Definition try_catch {S E E' A} (c : M S E A) (h : E -> M S E' A) : M S E' A :=
  fun st =>
    match c st with
    | (Normal a, st') => (Normal a, st')
    | (Throw e, st') => h e st'
    end.

(** [try { c } finally { f }] *)
Definition try_finally {S E A} (c : M S E A) (f : M S E unit) : M S E A :=
  fun st =>
    match c st with
    | (r, st') =>
        match f st' with
        | (Normal _, st'') => (r, st'')
        | (Throw e, st'') => (Throw e, st'')
        end
    end.

Definition update {S E} (f : S -> S) : M S E unit :=
  fun st => (Normal tt, f st).

(** A call that leaves the component state alone. *)
Definition call {S E A} (c : outcome E A) : M S E A := fun st => (c, st).

(** [await] of a promise of the runtime. *)
Definition await {S A} (c : outcome thrown A) : M S raised A :=
  call (Config.await c).

Notation "x <- c ;; k" := (bind c (fun x => k))
  (at level 61, c at next level, right associativity).
Notation "c ;; k" := (bind c (fun _ => k))
  (at level 61, right associativity).

(** [fetch(url)]: a request without options. *)
Definition no_options : RequestInit :=
  {| method := None; headers := None; request_body := None |}.

(** [v.key] for a value that may be [undefined]. *)
Definition property (v : jsval) (key : string) : outcome raised jsval :=
  match v with
  | Some data => Config.get data key
  | None => Throw TypeError
  end.

(** The text a component keeps of what it caught.  [MessageOf e] is the
    [message] of an error whose text the engine or a string conversion
    chooses: a [SyntaxError], a [TypeError], an [Error] made from a value
    that is not a string. *)
Inductive error_text : Type :=
| Literal (s : js_string)
| MessageOf (e : raised).

(** [err instanceof Error ? err.message : 'fallback'] *)
Definition message_or (fallback : string) (err : raised) : error_text :=
  match err with
  | Error_of (Some (JString s)) => Literal s
  | Rethrown (ErrorObject message) => Literal message
  | Rethrown NotAnError => Literal (lit fallback)
  | e => MessageOf e
  end.

End Effects.

(* ================================================================== *)
(** * The [HistoryPage] component *)
(* ================================================================== *)

Module HistoryPage.
Import Effects.

Record state := {
  diagnoses : jsval;
  loading : bool;
  error : option error_text
}.

(** [useState] initial values. *)
Definition initial : state :=
  {| diagnoses := Some (JArray []); loading := true; error := None |}.

Definition setDiagnoses {E} (v : jsval) : M state E unit :=
  update (fun st => {| diagnoses := v; loading := loading st; error := error st |}).

Definition setLoading {E} (v : bool) : M state E unit :=
  update (fun st => {| diagnoses := diagnoses st; loading := v; error := error st |}).

Definition setError {E} (v : option error_text) : M state E unit :=
  update (fun st => {| diagnoses := diagnoses st; loading := loading st; error := v |}).

Section WithEnvironment.

Variable env : option js_string.
Variable fetch : network.

Definition fetchHistory : M state raised unit :=
  try_finally
    (try_catch
       (setLoading true ;;
        setError None ;;
        response <- await (fetch (Config.getApiUrl env Config.ENDPOINTS.HISTORY)
                                 no_options) ;;
        if negb (ok response) then
          throw (Error_of (text "Failed to fetch history"))
        else
          data <- call (Response_json response) ;;
          d <- call (Config.get data "diagnoses") ;;
          setDiagnoses (or_else d (Some (JArray []))))
       (fun err => setError (Some (message_or "Failed to load history" err))))
    (setLoading false).

End WithEnvironment.

(** [s.substring(0, n)] for an integer [n]: an end below zero counts as
    zero, an end past the string as its length. *)
Definition substring_to (s : js_string) (n : Z) : js_string :=
  firstn (Z.to_nat n) s.

(** [truncateContent(content, maxLength)] for an integer [maxLength]. *)
Definition truncateContent (content : js_string) (maxLength : Z) : js_string :=
  if (Z.of_nat (List.length content) <=? maxLength)%Z then content
  else substring_to content maxLength ++ lit "...".

End HistoryPage.

(* ================================================================== *)
(** * The [HistoryDetailPage] component *)
(* ================================================================== *)

Module HistoryDetailPage.
Import Effects.

(** The state variables, the paths handed to [router.push] and the texts
    handed to [alert], oldest first. *)
Record state := {
  diagnosis : jsval;
  loading : bool;
  error : option error_text;
  showChat : bool;
  isDeleting : bool;
  pushed : list js_string;
  alerts : list js_string
}.

(** [useState] initial values. *)
Definition initial : state :=
  {| diagnosis := Some JNull; loading := true; error := None; showChat := false;
     isDeleting := false; pushed := []; alerts := [] |}.

Definition with_diagnosis (v : jsval) (st : state) : state :=
  {| diagnosis := v; loading := loading st; error := error st;
     showChat := showChat st; isDeleting := isDeleting st;
     pushed := pushed st; alerts := alerts st |}.

Definition with_loading (v : bool) (st : state) : state :=
  {| diagnosis := diagnosis st; loading := v; error := error st;
     showChat := showChat st; isDeleting := isDeleting st;
     pushed := pushed st; alerts := alerts st |}.

Definition with_error (v : option error_text) (st : state) : state :=
  {| diagnosis := diagnosis st; loading := loading st; error := v;
     showChat := showChat st; isDeleting := isDeleting st;
     pushed := pushed st; alerts := alerts st |}.

Definition with_isDeleting (v : bool) (st : state) : state :=
  {| diagnosis := diagnosis st; loading := loading st; error := error st;
     showChat := showChat st; isDeleting := v;
     pushed := pushed st; alerts := alerts st |}.

Definition with_push (path : js_string) (st : state) : state :=
  {| diagnosis := diagnosis st; loading := loading st; error := error st;
     showChat := showChat st; isDeleting := isDeleting st;
     pushed := pushed st ++ [path]; alerts := alerts st |}.

Definition with_alert (message : js_string) (st : state) : state :=
  {| diagnosis := diagnosis st; loading := loading st; error := error st;
     showChat := showChat st; isDeleting := isDeleting st;
     pushed := pushed st; alerts := alerts st ++ [message] |}.

Definition setDiagnosis {E} (v : jsval) : M state E unit := update (with_diagnosis v).
Definition setLoading {E} (v : bool) : M state E unit := update (with_loading v).
Definition setError {E} (v : option error_text) : M state E unit :=
  update (with_error v).
Definition setIsDeleting {E} (v : bool) : M state E unit := update (with_isDeleting v).

(** [router.push(path)] and [alert(message)]. *)
Definition push {E} (path : js_string) : M state E unit := update (with_push path).
Definition alert {E} (message : js_string) : M state E unit :=
  update (with_alert message).

(** [elems.find((diagnosis) => diagnosis.id === id)] *)
Fixpoint find_id (id : js_string) (elems : list json) : outcome raised jsval :=
  match elems with
  | [] => Normal undefined
  | diagnosis :: rest =>
      match Config.get diagnosis "id" with
      | Throw e => Throw e
      | Normal v => if strict_eq_str v id then Normal (Some diagnosis)
                    else find_id id rest
      end
  end.

(** [data.diagnoses.find(...)]: only an array has a [find] to call. *)
Definition find_in (diagnoses : jsval) (id : js_string) : outcome raised jsval :=
  match diagnoses with
  | Some (JArray elems) => find_id id elems
  | _ => Throw TypeError
  end.

(** The text [window.confirm] shows. *)
Definition confirm_text : js_string :=
  lit "Are you sure you want to delete this refrigerator diagnosis?"
  ++ [10; 10]%N
  ++ lit "This will permanently delete the diagnosis and all associated conversations. This action cannot be undone.".

(** [{ method: 'DELETE' }] *)
Definition delete_options : RequestInit :=
  {| method := Some (lit "DELETE"); headers := None; request_body := None |}.

Section WithEnvironment.

Variable env : option js_string.
Variable fetch : network.

Definition fetchDiagnosis (id : js_string) : M state raised unit :=
  try_finally
    (try_catch
       (setLoading true ;;
        setError None ;;
        response <- await (fetch (Config.getApiUrl env Config.ENDPOINTS.HISTORY)
                                 no_options) ;;
        if negb (ok response) then
          throw (Error_of (text "Failed to fetch diagnoses"))
        else
          data <- call (Response_json response) ;;
          diagnoses <- call (Config.get data "diagnoses") ;;
          foundDiagnosis <- call (find_in diagnoses id) ;;
          if negb (truthy foundDiagnosis) then
            throw (Error_of (text "Refrigerator diagnosis not found"))
          else setDiagnosis foundDiagnosis)
       (fun err =>
          setError (Some (message_or "Failed to load refrigerator diagnosis" err))))
    (setLoading false).

(** The answer of [window.confirm], and the string conversion of a value
    inside a template literal. *)
Variable confirm : js_string -> bool.
Variable ToString : jsval -> js_string.

(** [`${v}`]: a string is itself. *)
Definition template (v : jsval) : js_string :=
  match v with
  | Some (JString s) => s
  | _ => ToString v
  end.

(** [console.error] leaves the component alone. *)
Definition handleDeleteDiagnosis : M state raised unit :=
  fun st =>
    if negb (truthy (diagnosis st)) then (Normal tt, st)
    else
      let confirmDelete := confirm confirm_text in
      if negb confirmDelete then (Normal tt, st)
      else
        try_finally
          (try_catch
             (setIsDeleting true ;;
              id <- call (property (diagnosis st) "id") ;;
              _ <- call (Config.apiRequest env fetch
                           (Config.ENDPOINTS.HISTORY ++ lit "/" ++ template id)
                           (Some delete_options)) ;;
              push (lit "/history"))
             (fun err => alert (lit "Failed to delete diagnosis. Please try again.")))
          (setIsDeleting false) st.

End WithEnvironment.

(** ** What the page reads and sends *)

(** The element is an object whose [id] is the string [id]. *)
Definition has_id (id : js_string) (d : json) : bool :=
  match d with
  | JObject props => strict_eq_str (own_property (lit "id") props) id
  | _ => false
  end.

(** The element is [null]: reading its [id] throws. *)
Definition is_null_element (d : json) : bool :=
  match d with
  | JNull => true
  | _ => false
  end.

(** [diagnosis.id] for the diagnosis of the state. *)
Definition id_of (diagnosis : jsval) : jsval :=
  match diagnosis with
  | Some (JObject props) => own_property (lit "id") props
  | _ => undefined
  end.

(** What the page does with the answer to its delete call. *)
Definition after_delete (answer : outcome thrown Response) (st : state) : state :=
  match answer with
  | Normal response =>
      if ok response then with_push (lit "/history") st
      else with_alert (lit "Failed to delete diagnosis. Please try again.") st
  | Throw _ => with_alert (lit "Failed to delete diagnosis. Please try again.") st
  end.

(** The request [apiRequest] makes of [delete_options]. *)
Definition delete_sent : RequestInit :=
  {| method := Some (lit "DELETE"); headers := Some Config.json_headers;
     request_body := None |}.

(** The address of the delete call for a diagnosis with the given [id]. *)
Definition delete_url (env : option js_string) (id : js_string) : js_string :=
  Config.getApiUrl env (Config.ENDPOINTS.HISTORY ++ lit "/" ++ id).

End HistoryDetailPage.

(* ================================================================== *)
(** * The [BackendHealthCheck] component *)
(* ================================================================== *)

Module BackendHealthCheck.
Import Effects.

(** [lastChecked] is a time, [None] for [null]; [response] is [undefined]
    until the first check ends. *)
Record BackendStatus := {
  isHealthy : bool;
  isChecking : bool;
  lastChecked : option Z;
  error : option error_text;
  response : jsval
}.

(** [useState] initial value. *)
Definition initial : BackendStatus :=
  {| isHealthy := false; isChecking := true; lastChecked := None;
     error := None; response := undefined |}.

Definition setStatus {E} (f : BackendStatus -> BackendStatus)
  : M BackendStatus E unit := update f.

Section WithEnvironment.

Variable env : option js_string.
Variable fetch : network.

(** The time [new Date()] gives, and the [statusText] of a response. *)
Variable now : Z.
Variable statusText : Response -> js_string.

Definition checkHealth : M BackendStatus raised unit :=
  setStatus (fun prev =>
               {| isHealthy := isHealthy prev; isChecking := true;
                  lastChecked := lastChecked prev; error := None;
                  response := response prev |}) ;;
  try_catch
    (response <- await (fetch (Config.getApiUrl env (lit "/health"))
                              {| method := Some (lit "GET");
                                 headers := Some [(lit "Content-Type",
                                                   lit "application/json")];
                                 request_body := None |}) ;;
     if ok response then
       data <- call (Response_json response) ;;
       setStatus (fun _ =>
                    {| isHealthy := true; isChecking := false;
                       lastChecked := Some now; error := None;
                       response := Some data |})
     else
       throw (Error_of
                (Some (JString (lit "Backend returned "
                                ++ N_to_string (status response)
                                ++ lit ": " ++ statusText response)))))
    (fun error =>
       setStatus (fun _ =>
                    {| isHealthy := false; isChecking := false;
                       lastChecked := Some now;
                       error := Some (message_or "Unknown error" error);
                       response := Some JNull |})).

End WithEnvironment.

End BackendHealthCheck.

(* ================================================================== *)
(** * Example responses of the history and health endpoints *)
(* ================================================================== *)

Module PageSamples.

Definition history_text : string :=
  "{'diagnoses':[{'id':'7','fileName':'a.mp4'},{'id':'8','fileName':'b.mp4'}],'total':2}".

Definition history : Response :=
  {| status := 200; body := Some [Value (Samples.json_text history_text)] |}.

(** A history whose identifiers are numbers. *)
Definition numbered : Response :=
  {| status := 200;
     body := Some [Value (Samples.json_text
                            "{'diagnoses':[{'id':8,'fileName':'b.mp4'}],'total':1}")] |}.

Definition diagnosis_7 : json :=
  JObject [(lit "id", JString (lit "7")); (lit "fileName", JString (lit "a.mp4"))].

Definition diagnosis_8 : json :=
  JObject [(lit "id", JString (lit "8")); (lit "fileName", JString (lit "b.mp4"))].

(** The detail page once diagnosis 8 is loaded. *)
Definition loaded : HistoryDetailPage.state :=
  HistoryDetailPage.with_loading false
    (HistoryDetailPage.with_diagnosis (Some diagnosis_8) HistoryDetailPage.initial).

Definition deleted : Response :=
  {| status := 200; body := Some [Value (Samples.json_text "{'success':true}")] |}.

Definition healthy : Response :=
  {| status := 200;
     body := Some [Value (Samples.json_text "{'status':'healthy','version':'2.0.0'}")] |}.

(** A gateway page: status 200, a body that is not JSON. *)
Definition gateway_page : Response :=
  {| status := 200; body := Some [Value (Samples.json_text "<html>ok</html>")] |}.

Definition yes : js_string -> bool := fun _ => true.

(** A string conversion for the examples. *)
Definition plain (v : jsval) : js_string :=
  match v with
  | Some (JString s) => s
  | _ => lit "undefined"
  end.

Definition reason_phrase (r : Response) : js_string :=
  if (status r =? 404)%N then lit "Not Found" else lit "".

End PageSamples.

(* ================================================================== *)
(** * The fuel of [JSON_parse] *)
(* ================================================================== *)

Module JsonFacts.
Local Open Scope N_scope.

Lemma skip_ws_length (s : js_string) : (List.length (skip_ws s) <= List.length s)%nat.
Proof.
  induction s as [|c s IH]; simpl; [lia|].
  destruct (is_json_ws c); simpl; lia.
Qed.

Lemma skip_ws_cons (s : js_string) (c : N) (r : js_string) :
  skip_ws s = c :: r -> (List.length r < List.length s)%nat.
Proof.
  intro H. pose proof (skip_ws_length s) as L. rewrite H in L. simpl in L. lia.
Qed.

Lemma parse_chars_length (s cs rest : js_string) :
  parse_chars s = Some (cs, rest) -> (List.length rest < List.length s)%nat.
Proof.
  remember (List.length s) as n eqn:Hn. revert s cs rest Hn.
  induction n as [n IH] using lt_wf_ind. intros s cs rest Hn.
  destruct s as [|c r]; simpl; [discriminate|].
  destruct (c =? 34).
  - intro H. injection H as _ <-. simpl in Hn. lia.
  - destruct (c =? 92).
    + destruct r as [|e r1]; [discriminate|].
      destruct (e =? 117).
      * destruct r1 as [|h1 [|h2 [|h3 [|h4 r2]]]]; try discriminate.
        destruct (hex4 h1 h2 h3 h4); [|discriminate].
        destruct (parse_chars r2) as [[cs' rest']|] eqn:E; [|discriminate].
        intro H. injection H as _ <-.
        simpl in Hn.
        pose proof (IH (List.length r2) ltac:(lia) r2 cs' rest' eq_refl E). simpl. lia.
      * destruct (escape e); [|discriminate].
        destruct (parse_chars r1) as [[cs' rest']|] eqn:E; [|discriminate].
        intro H. injection H as _ <-.
        simpl in Hn.
        pose proof (IH (List.length r1) ltac:(lia) r1 cs' rest' eq_refl E). simpl. lia.
    + destruct (c <? 32); [discriminate|].
      destruct (parse_chars r) as [[cs' rest']|] eqn:E; [|discriminate].
      intro H. injection H as _ <-.
      simpl in Hn.
      pose proof (IH (List.length r) ltac:(lia) r cs' rest' eq_refl E). simpl. lia.
Qed.

Lemma digits_length (s : js_string) :
  (List.length (fst (digits s)) + List.length (snd (digits s)) = List.length s)%nat.
Proof.
  induction s as [|c s IH]; simpl; [reflexivity|].
  destruct (is_digit c); simpl; [|reflexivity].
  destruct (digits s) as [ds rest]. simpl in *. lia.
Qed.

Lemma digits_rest (s : js_string) (ds : list N) (rest : js_string) :
  digits s = (ds, rest) -> (List.length ds + List.length rest = List.length s)%nat.
Proof. intro H. pose proof (digits_length s) as L. rewrite H in L. exact L. Qed.

Lemma parse_number_length (s : js_string) (v : json) (rest : js_string) :
  parse_number s = Some (v, rest) -> (List.length rest < List.length s)%nat.
Proof.
  unfold parse_number.
  set (sign := match s with
               | [] => (false, s)
               | c :: r => if c =? 45 then (true, r) else (false, s)
               end).
  assert (Hs : (List.length (snd sign) <= List.length s)%nat).
  { subst sign. destruct s as [|c r]; simpl; [lia|]. destruct (c =? 45); simpl; lia. }
  destruct sign as [neg s1]. simpl in Hs.
  destruct (digits s1) as [ip s2] eqn:Ed. apply digits_rest in Ed.
  destruct ip as [|d ds]; [discriminate|].
  destruct (_ && _)%bool; [discriminate|].
  simpl in Ed.
  assert (H2 : (List.length s2 < List.length s)%nat) by lia.
  clear Ed Hs.
  destruct s2 as [|c r].
  - simpl. intro H. injection H as _ <-. exact H2.
  - destruct (c =? 46).
    + destruct (digits r) as [fp s3] eqn:Ef. apply digits_rest in Ef.
      destruct fp as [|f0 fp]; [discriminate|].
      assert (H3 : (List.length s3 < List.length s)%nat) by (simpl in *; lia).
      clear Ef H2.
      destruct s3 as [|c3 r3].
      * intro H. injection H as _ <-. exact H3.
      * destruct ((c3 =? 101) || (c3 =? 69))%bool.
        -- set (esign := match r3 with
                          | [] => (false, r3)
                          | sg :: r0 =>
                              if sg =? 45 then (true, r0)
                              else if sg =? 43 then (false, r0) else (false, r3)
                          end).
           assert (He : (List.length (snd esign) <= List.length r3)%nat).
           { subst esign. destruct r3 as [|sg r0]; simpl; [lia|].
             destruct (sg =? 45); simpl; [lia|]. destruct (sg =? 43); simpl; lia. }
           destruct esign as [eneg r']. simpl in He.
           destruct (digits r') as [ep s4] eqn:Ee. apply digits_rest in Ee.
           destruct ep; [discriminate|].
           intro H. injection H as _ <-. simpl in *. lia.
        -- intro H. injection H as _ <-. exact H3.
    + destruct ((c =? 101) || (c =? 69))%bool.
      * set (esign := match r with
                       | [] => (false, r)
                       | sg :: r0 =>
                           if sg =? 45 then (true, r0)
                           else if sg =? 43 then (false, r0) else (false, r)
                       end).
        assert (He : (List.length (snd esign) <= List.length r)%nat).
        { subst esign. destruct r as [|sg r0]; simpl; [lia|].
          destruct (sg =? 45); simpl; [lia|]. destruct (sg =? 43); simpl; lia. }
        destruct esign as [eneg r']. simpl in He.
        destruct (digits r') as [ep s4] eqn:Ee. apply digits_rest in Ee.
        destruct ep; [discriminate|].
        intro H. injection H as _ <-. simpl in *. lia.
      * intro H. injection H as _ <-. exact H2.
Qed.



Lemma str_eqb_eq (a b : js_string) : str_eqb a b = true -> a = b.
Proof.
  revert b; induction a as [|x a IH]; intros [|y b]; simpl; try discriminate.
  - reflexivity.
  - intro H. apply andb_prop in H. destruct H as [H1 H2].
    apply N.eqb_eq in H1. subst y. f_equal. apply IH. exact H2.
Qed.

Lemma expect_length (w : js_string) (v v' : json) (s rest : js_string) :
  w <> [] -> expect w v s = Some (v', rest) ->
  (List.length rest < List.length s)%nat.
Proof.
  unfold expect. intros Hw.
  destruct (str_eqb (firstn (List.length w) s) w) eqn:E; [|discriminate].
  intro H. injection H as _ <-.
  apply str_eqb_eq in E.
  pose proof (firstn_skipn (List.length w) s) as F.
  rewrite E in F. rewrite <- F at 2. rewrite length_app.
  destruct w; [congruence|]. simpl. lia.
Qed.

(** What a successful parse leaves is shorter than what it was given. *)
Lemma parse_length (n : nat) :
  (forall s v rest, parse_value n s = Some (v, rest) ->
                    (List.length rest < List.length s)%nat)
  /\ (forall s vs rest, parse_elements n s = Some (vs, rest) ->
                        (List.length rest < List.length s)%nat)
  /\ (forall s ms rest, parse_members n s = Some (ms, rest) ->
                        (List.length rest < List.length s)%nat).
Proof.
  induction n as [|n [IHv [IHe IHm]]]; [repeat split; discriminate|].
  split; [|split].
  - intros s v rest. simpl.
    destruct (skip_ws s) as [|c r] eqn:Es; [discriminate|].
    pose proof (skip_ws_length s) as Ls. rewrite Es in Ls. simpl in Ls.
    destruct (c =? 110).
    { intro H. apply expect_length in H; [simpl in *; lia|discriminate]. }
    destruct (c =? 116).
    { intro H. apply expect_length in H; [simpl in *; lia|discriminate]. }
    destruct (c =? 102).
    { intro H. apply expect_length in H; [simpl in *; lia|discriminate]. }
    destruct (c =? 34).
    { destruct (parse_chars r) as [[cs rest']|] eqn:E; [|discriminate].
      intro H. injection H as _ <-. apply parse_chars_length in E. lia. }
    destruct (c =? 91).
    { destruct (skip_ws r) as [|c' r'] eqn:Er; [discriminate|].
      pose proof (skip_ws_length r) as Lr. rewrite Er in Lr. simpl in Lr.
      destruct (c' =? 93).
      - intro H. injection H as _ <-. lia.
      - destruct (parse_elements n r) as [[vs rest']|] eqn:E; [|discriminate].
        intro H. injection H as _ <-. apply IHe in E. lia. }
    destruct (c =? 123).
    { destruct (skip_ws r) as [|c' r'] eqn:Er; [discriminate|].
      pose proof (skip_ws_length r) as Lr. rewrite Er in Lr. simpl in Lr.
      destruct (c' =? 125).
      - intro H. injection H as _ <-. lia.
      - destruct (parse_members n r) as [[ms rest']|] eqn:E; [|discriminate].
        intro H. injection H as _ <-. apply IHm in E. lia. }
    intro H. apply parse_number_length in H. simpl in H. lia.
  - intros s vs rest. simpl.
    destruct (parse_value n s) as [[v rest1]|] eqn:Ev; [|discriminate].
    apply IHv in Ev.
    destruct (skip_ws rest1) as [|c r] eqn:Es; [discriminate|].
    pose proof (skip_ws_length rest1) as Ls. rewrite Es in Ls. simpl in Ls.
    destruct (c =? 44).
    + destruct (parse_elements n r) as [[vs' rest']|] eqn:E; [|discriminate].
      intro H. injection H as _ <-. apply IHe in E. lia.
    + destruct (c =? 93); [|discriminate].
      intro H. injection H as _ <-. lia.
  - intros s ms rest. simpl.
    destruct (skip_ws s) as [|q r0] eqn:Es; [discriminate|].
    pose proof (skip_ws_length s) as Ls. rewrite Es in Ls. simpl in Ls.
    destruct (q =? 34); [|discriminate].
    destruct (parse_chars r0) as [[key r1]|] eqn:Ek; [|discriminate].
    apply parse_chars_length in Ek.
    destruct (skip_ws r1) as [|col r2] eqn:E1; [discriminate|].
    pose proof (skip_ws_length r1) as L1. rewrite E1 in L1. simpl in L1.
    destruct (col =? 58); [|discriminate].
    destruct (parse_value n r2) as [[v rest1]|] eqn:Ev; [|discriminate].
    apply IHv in Ev.
    destruct (skip_ws rest1) as [|c r] eqn:E2; [discriminate|].
    pose proof (skip_ws_length rest1) as L2. rewrite E2 in L2. simpl in L2.
    destruct (c =? 44).
    + destruct (parse_members n r) as [[ms' rest']|] eqn:E; [|discriminate].
      intro H. injection H as _ <-. apply IHm in E. lia.
    + destruct (c =? 125); [|discriminate].
      intro H. injection H as _ <-. lia.
Qed.

(** With twice the length of the text (and one or two more) as fuel, more
    fuel changes nothing. *)
Lemma parse_fuel (n : nat) :
  (forall s m, (2 * List.length s + 1 <= n)%nat -> (n <= m)%nat ->
               parse_value n s = parse_value m s)
  /\ (forall s m, (2 * List.length s + 2 <= n)%nat -> (n <= m)%nat ->
                  parse_elements n s = parse_elements m s)
  /\ (forall s m, (2 * List.length s + 2 <= n)%nat -> (n <= m)%nat ->
                  parse_members n s = parse_members m s).
Proof.
  induction n as [|n [IHv [IHe IHm]]]; [repeat split; intros; lia|].
  split; [|split].
  - intros s [|m] Hn Hm; [lia|]. simpl.
    destruct (skip_ws s) as [|c r] eqn:Es; [reflexivity|].
    pose proof (skip_ws_length s) as Ls. rewrite Es in Ls. simpl in Ls.
    assert (He : parse_elements n r = parse_elements m r) by (apply IHe; lia).
    assert (Hb : parse_members n r = parse_members m r) by (apply IHm; lia).
    rewrite He, Hb. reflexivity.
  - intros s [|m] Hn Hm; [lia|]. simpl.
    assert (Hv : parse_value n s = parse_value m s) by (apply IHv; lia).
    rewrite <- Hv.
    destruct (parse_value n s) as [[v rest1]|] eqn:Ev; [|reflexivity].
    apply (proj1 (parse_length n)) in Ev.
    destruct (skip_ws rest1) as [|c r] eqn:Es; [reflexivity|].
    pose proof (skip_ws_length rest1) as Ls. rewrite Es in Ls. simpl in Ls.
    assert (He : parse_elements n r = parse_elements m r) by (apply IHe; lia).
    rewrite He. reflexivity.
  - intros s [|m] Hn Hm; [lia|]. simpl.
    destruct (skip_ws s) as [|q r0] eqn:Es; [reflexivity|].
    pose proof (skip_ws_length s) as Ls. rewrite Es in Ls. simpl in Ls.
    destruct (q =? 34); [|reflexivity].
    destruct (parse_chars r0) as [[key r1]|] eqn:Ek; [|reflexivity].
    apply parse_chars_length in Ek.
    destruct (skip_ws r1) as [|col r2] eqn:E1; [reflexivity|].
    pose proof (skip_ws_length r1) as L1. rewrite E1 in L1. simpl in L1.
    destruct (col =? 58); [|reflexivity].
    assert (Hv : parse_value n r2 = parse_value m r2) by (apply IHv; lia).
    rewrite <- Hv.
    destruct (parse_value n r2) as [[v rest1]|] eqn:Ev; [|reflexivity].
    apply (proj1 (parse_length n)) in Ev.
    destruct (skip_ws rest1) as [|c r] eqn:E2; [reflexivity|].
    pose proof (skip_ws_length rest1) as L2. rewrite E2 in L2. simpl in L2.
    assert (Hb : parse_members n r = parse_members m r) by (apply IHm; lia).
    rewrite Hb. reflexivity.
Qed.

(** The fuel [JSON_parse] gives is enough: no larger amount changes the
    result. *)
Lemma JSON_parse_fuel (s : js_string) (m : nat) :
  (2 * List.length s + 2 <= m)%nat ->
  parse_value m s = parse_value (2 * List.length s + 2) s.
Proof.
  intro H. symmetry. apply (proj1 (parse_fuel (2 * List.length s + 2))); lia.
Qed.

End JsonFacts.

(* ================================================================== *)
(** * The chunk-reading loop, line by line *)
(* ================================================================== *)

Module HomeFacts.
Import Home.

(** A line changes the state exactly as the record it carries says, and
    never throws. *)
Lemma handle_line_event (E : Type) (line : js_string) (st : state) :
  @handle_line E line st =
  (Normal tt, match line_event line with
              | Some ev => on_event ev st
              | None => st
              end).
Proof.
  unfold handle_line, line_event.
  destruct (trim line) as [|c t]; [reflexivity|].
  unfold try_catch, bind, parse.
  destruct (JSON_parse line) as [data|]; [|reflexivity].
  destruct data; try reflexivity.
  unfold dispatch, event_of, bind, get, ret; simpl.
  destruct (strict_eq_str (own_property (lit "type") props) (lit "progress"));
    [reflexivity|].
  destruct (strict_eq_str (own_property (lit "type") props) (lit "complete"));
    [reflexivity|].
  destruct (strict_eq_str (own_property (lit "type") props) (lit "error"));
    reflexivity.
Qed.

Lemma for_of_lines (E : Type) (lines : list js_string) (st : state) :
  for_of lines (@handle_line E) st = (Normal tt, on_events (line_events lines) st).
Proof.
  revert st; induction lines as [|line rest IH]; intro st; [reflexivity|].
  simpl. unfold bind at 1. rewrite handle_line_event.
  rewrite IH. destruct (line_event line); reflexivity.
Qed.

Lemma handle_chunk_events (E : Type) (value : list byte) (st : state) :
  @handle_chunk E value st = (Normal tt, on_events (chunk_events value) st).
Proof. unfold handle_chunk, chunk_events. apply for_of_lines. Qed.

Lemma on_events_app (a b : list event) (st : state) :
  on_events (a ++ b) st = on_events b (on_events a st).
Proof. unfold on_events. apply fold_left_app. Qed.

(** A body none of whose reads fails is handled to its end. *)
Lemma read_loop_values (values : list (list byte)) (st : state) :
  read_loop (map Value values) st =
  (Normal tt, on_events (decoded_events (map Value values)) st).
Proof.
  revert st; induction values as [|v rest IH]; intro st; [reflexivity|].
  simpl. unfold bind at 1. rewrite handle_chunk_events.
  rewrite IH, on_events_app. reflexivity.
Qed.

Lemma line_events_app (l1 l2 : list js_string) :
  line_events (l1 ++ l2) = line_events l1 ++ line_events l2.
Proof.
  induction l1 as [|l l1 IH]; simpl; [reflexivity|].
  destruct (line_event l); rewrite IH; reflexivity.
Qed.

(** No event sets the error message. *)
Lemma on_event_error (ev : event) (st : state) : error (on_event ev st) = error st.
Proof. destruct ev; reflexivity. Qed.

Lemma on_events_error (evs : list event) (st : state) :
  error (on_events evs st) = error st.
Proof.
  revert st; induction evs as [|ev evs IH]; intro st; [reflexivity|].
  change (on_events (ev :: evs) st) with (on_events evs (on_event ev st)).
  rewrite IH. apply on_event_error.
Qed.

End HomeFacts.

(* ================================================================== *)
(** * Text cut at line ends *)
(* ================================================================== *)

Module StreamFacts.
Import Home HomeFacts.
Local Open Scope N_scope.

Lemma split_not_nil (sep : N) (s : js_string) : split sep s <> [].
Proof.
  destruct s as [|c s]; simpl; [discriminate|].
  destruct (c =? sep); [discriminate|].
  destruct (split sep s); discriminate.
Qed.

(** Cutting a text at a separator cuts its list of pieces. *)
Lemma split_app_sep (sep : N) (a b : js_string) :
  split sep (a ++ sep :: b) = split sep a ++ split sep b.
Proof.
  induction a as [|c a IH]; simpl.
  - rewrite N.eqb_refl. reflexivity.
  - destruct (c =? sep).
    + rewrite IH. reflexivity.
    + rewrite IH. destruct (split sep a) as [|l ls] eqn:E.
      * exfalso. exact (split_not_nil _ _ E).
      * reflexivity.
Qed.

(** After a newline byte the decoder awaits a lead byte again. *)
Lemma utf8_step_newline (d : utf8_decoder) :
  0x80 <= lower_boundary d ->
  exists out, utf8_step d 10 = (out ++ [10], utf8_start).
Proof.
  intro H. unfold utf8_step.
  destruct (bytes_needed d =? 0).
  - exists []. reflexivity.
  - assert (L : (lower_boundary d <=? 10) = false) by (apply N.leb_gt; lia).
    rewrite L. simpl. exists [REPLACEMENT]. reflexivity.
Qed.

Lemma utf8_lead_lower (b : N) : 0x80 <= lower_boundary (snd (utf8_lead b)).
Proof.
  unfold utf8_lead.
  repeat match goal with
         | |- context [if ?c then _ else _] => destruct c
         end; simpl; lia.
Qed.

Lemma utf8_step_lower (d : utf8_decoder) (b : N) :
  0x80 <= lower_boundary (snd (utf8_step d b)).
Proof.
  unfold utf8_step.
  destruct (bytes_needed d =? 0); [apply utf8_lead_lower|].
  destruct (negb _).
  - pose proof (utf8_lead_lower b) as H. destruct (utf8_lead b). exact H.
  - destruct (bytes_seen d + 1 =? bytes_needed d); simpl; lia.
Qed.

Lemma utf8_run_line (a b : list byte) (d : utf8_decoder) :
  0x80 <= lower_boundary d ->
  utf8_run d (a ++ x0a :: b) = utf8_run d (a ++ [x0a]) ++ utf8_run utf8_start b.
Proof.
  revert d; induction a as [|x a IH]; intros d H; simpl.
  - change (Byte.to_N x0a) with 10.
    destruct (utf8_step_newline d H) as [out E]. rewrite E. simpl.
    rewrite app_nil_r. reflexivity.
  - pose proof (utf8_step_lower d (Byte.to_N x)) as H'.
    destruct (utf8_step d (Byte.to_N x)) as [out d']. simpl in H'.
    rewrite (IH d' H'). apply app_assoc.
Qed.

Lemma utf8_run_ends_newline (a : list byte) (d : utf8_decoder) :
  0x80 <= lower_boundary d ->
  exists cps, utf8_run d (a ++ [x0a]) = cps ++ [10].
Proof.
  revert d; induction a as [|x a IH]; intros d H; simpl.
  - change (Byte.to_N x0a) with 10.
    destruct (utf8_step_newline d H) as [out E]. rewrite E. simpl.
    exists out. apply app_nil_r.
  - pose proof (utf8_step_lower d (Byte.to_N x)) as H'.
    destruct (utf8_step d (Byte.to_N x)) as [out d']. simpl in H'.
    destruct (IH d' H') as [cps E]. rewrite E.
    exists (out ++ cps). apply app_assoc.
Qed.

Lemma start_lower : 0x80 <= lower_boundary utf8_start.
Proof. simpl. lia. Qed.

Lemma strip_bom_ends_newline (cps : list N) :
  exists cps', strip_bom (cps ++ [10]) = cps' ++ [10].
Proof.
  destruct cps as [|c cps]; simpl.
  - exists []. reflexivity.
  - destruct (c =? 65279).
    + exists cps. reflexivity.
    + exists (c :: cps). reflexivity.
Qed.

Lemma strip_bom_app (a b : list N) :
  a <> [] -> strip_bom (a ++ b) = strip_bom a ++ b.
Proof.
  destruct a as [|c a]; [congruence|]. intros _. simpl.
  destruct (c =? 65279); reflexivity.
Qed.

(** The text of a chunk that ends with a newline byte ends with a newline. *)
Lemma decode_ends_newline (a : list byte) :
  exists t, decode (a ++ [x0a]) = t ++ [10].
Proof.
  unfold decode.
  destruct (utf8_run_ends_newline a utf8_start start_lower) as [cps E].
  rewrite E. destruct (strip_bom_ends_newline cps) as [cps' E'].
  rewrite E', flat_map_app. simpl. eexists. reflexivity.
Qed.

(** Decoding commutes with a cut just after a newline byte, unless what
    follows starts with a byte-order mark. *)
Lemma decode_line (a b : list byte) :
  begins_with_bom b = false ->
  decode ((a ++ [x0a]) ++ b) = decode (a ++ [x0a]) ++ decode b.
Proof.
  intro Hb. unfold decode.
  rewrite <- app_assoc. simpl.
  rewrite (utf8_run_line a b utf8_start start_lower).
  destruct (utf8_run_ends_newline a utf8_start start_lower) as [cps E].
  rewrite E.
  rewrite strip_bom_app by (destruct cps; discriminate).
  rewrite flat_map_app. f_equal. f_equal.
  unfold begins_with_bom in Hb.
  destruct (utf8_run utf8_start b) as [|c r]; [reflexivity|].
  simpl. simpl in Hb. rewrite Hb. reflexivity.
Qed.

Lemma chunk_events_nil : chunk_events [] = [].
Proof. reflexivity. Qed.

(** The events of a text cut just after a newline are those of its two
    parts. *)
Lemma chunk_events_line (a b : list byte) :
  begins_with_bom b = false ->
  chunk_events ((a ++ [x0a]) ++ b) = chunk_events (a ++ [x0a]) ++ chunk_events b.
Proof.
  intro Hb. unfold chunk_events.
  rewrite (decode_line a b Hb).
  destruct (decode_ends_newline a) as [t E]. rewrite E.
  rewrite <- app_assoc. simpl.
  rewrite !split_app_sep, !line_events_app.
  simpl. rewrite app_nil_r. reflexivity.
Qed.

Lemma ends_line_cases (c : list byte) :
  ends_line c = true -> c = [] \/ exists a, c = a ++ [x0a].
Proof.
  unfold ends_line. intro H.
  destruct (rev c) as [|b l] eqn:E.
  - left. apply (f_equal (@rev byte)) in E. rewrite rev_involutive in E. exact E.
  - right. apply Byte.byte_dec_bl in H. subst b.
    exists (rev l). apply (f_equal (@rev byte)) in E.
    rewrite rev_involutive in E. exact E.
Qed.

Lemma chunk_events_cut (c rest : list byte) :
  ends_line c = true -> begins_with_bom rest = false ->
  chunk_events (c ++ rest) = chunk_events c ++ chunk_events rest.
Proof.
  intros Hc Hb. destruct (ends_line_cases c Hc) as [->|[a ->]].
  - reflexivity.
  - apply chunk_events_line; exact Hb.
Qed.

End StreamFacts.

(* ================================================================== *)
(** * Chunk boundaries and the events of a stream *)
(* ================================================================== *)

Module ChunkBoundaries.
Import Home StreamFacts HomeFacts Samples.

Lemma bom_of_cut (c rest : list byte) :
  ends_line c = true -> begins_with_bom c = false ->
  begins_with_bom rest = false ->
  begins_with_bom (c ++ rest) = false.
Proof.
  intros Hc Hb Hr. destruct (ends_line_cases c Hc) as [->|[a ->]]; [exact Hr|].
  unfold begins_with_bom in *.
  rewrite <- app_assoc. simpl.
  rewrite (utf8_run_line a rest utf8_start start_lower).
  destruct (utf8_run_ends_newline a utf8_start start_lower) as [cps E].
  rewrite E in *.
  destruct cps as [|cp cps]; simpl in *; [reflexivity|exact Hb].
Qed.

(** Chunks without byte-order marks, cut at line ends: the events of the
    chunks are those of the whole text. *)
Lemma inner_chunks (chunks : list (list byte)) :
  forallb ends_line (removelast chunks) = true ->
  forallb (fun c => negb (begins_with_bom c)) chunks = true ->
  decoded_events (map Value chunks) = chunk_events (List.concat chunks)
  /\ begins_with_bom (List.concat chunks) = false.
Proof.
  induction chunks as [|c [|c' rest] IH]; intros He Hb.
  - split; reflexivity.
  - simpl in *. rewrite !app_nil_r.
    apply andb_prop in Hb. destruct Hb as [Hb _].
    apply negb_true_iff in Hb. split; [reflexivity|exact Hb].
  - change (removelast (c :: c' :: rest)) with (c :: removelast (c' :: rest)) in He.
    change (forallb ends_line (c :: removelast (c' :: rest)))
      with (ends_line c && forallb ends_line (removelast (c' :: rest)))%bool in He.
    apply andb_prop in He. destruct He as [Hc He].
    change (forallb (fun c0 => negb (begins_with_bom c0)) (c :: c' :: rest))
      with (negb (begins_with_bom c)
            && forallb (fun c0 => negb (begins_with_bom c0)) (c' :: rest))%bool in Hb.
    apply andb_prop in Hb. destruct Hb as [Hbc Hb].
    apply negb_true_iff in Hbc.
    destruct (IH He Hb) as [IHe IHb].
    change (decoded_events (map Value (c :: c' :: rest)))
      with (chunk_events c ++ decoded_events (map Value (c' :: rest))).
    change (List.concat (c :: c' :: rest)) with (c ++ List.concat (c' :: rest)).
    rewrite IHe. split.
    + symmetry. apply chunk_events_cut; assumption.
    + apply bom_of_cut; assumption.
Qed.

Lemma aligned_events (chunks : list (list byte)) :
  line_aligned chunks = true ->
  decoded_events (map Value chunks) = chunk_events (List.concat chunks).
Proof.
  unfold line_aligned. intro H. apply andb_prop in H. destruct H as [He Hb].
  destruct chunks as [|c [|c' rest]].
  - reflexivity.
  - simpl. rewrite !app_nil_r. reflexivity.
  - change (removelast (c :: c' :: rest)) with (c :: removelast (c' :: rest)) in He.
    change (forallb ends_line (c :: removelast (c' :: rest)))
      with (ends_line c && forallb ends_line (removelast (c' :: rest)))%bool in He.
    apply andb_prop in He. destruct He as [Hc He].
    change (tl (c :: c' :: rest)) with (c' :: rest) in Hb.
    destruct (inner_chunks (c' :: rest) He Hb) as [IHe IHb].
    change (decoded_events (map Value (c :: c' :: rest)))
      with (chunk_events c ++ decoded_events (map Value (c' :: rest))).
    change (List.concat (c :: c' :: rest)) with (c ++ List.concat (c' :: rest)).
    rewrite IHe. symmetry. apply chunk_events_cut; assumption.
Qed.

(** C1, as the code has it.  When every chunk boundary of two splittings
    of the same byte stream falls just after a newline byte (and no chunk
    after the first starts with a byte-order mark), the loop recognises the
    same events in the same order and leaves the component in the same
    state.  The loop keeps no pending text from one chunk to the next. *)
Theorem aligned_chunkings_agree (a b : list (list byte)) :
  List.concat a = List.concat b ->
  line_aligned a = true ->
  line_aligned b = true ->
  decoded_events (map Value a) = decoded_events (map Value b)
  /\ forall st, read_loop (map Value a) st = read_loop (map Value b) st.
Proof.
  intros Hab Ha Hb.
  assert (E : decoded_events (map Value a) = decoded_events (map Value b)).
  { rewrite (aligned_events a Ha), (aligned_events b Hb), Hab. reflexivity. }
  split; [exact E|].
  intro st. rewrite !read_loop_values, E. reflexivity.
Qed.

Lemma aligned_chunkings_agree_witness :
  List.concat [json_line progress_10; json_line progress_90 ++ json_line complete_d1]
  = List.concat [json_line progress_10 ++ json_line progress_90; json_line complete_d1]
  /\ line_aligned
       [json_line progress_10; json_line progress_90 ++ json_line complete_d1] = true
  /\ line_aligned
       [json_line progress_10 ++ json_line progress_90; json_line complete_d1] = true
  /\ (decoded_events
        (map Value [json_line progress_10;
                    json_line progress_90 ++ json_line complete_d1])
      = decoded_events
          (map Value [json_line progress_10 ++ json_line progress_90;
                      json_line complete_d1])
      /\ forall st,
           read_loop
             (map Value [json_line progress_10;
                         json_line progress_90 ++ json_line complete_d1]) st
           = read_loop
               (map Value [json_line progress_10 ++ json_line progress_90;
                           json_line complete_d1]) st).
Proof.
  split; [reflexivity|].
  split; [reflexivity|].
  split; [reflexivity|].
  apply aligned_chunkings_agree; reflexivity.
Defined.

(** C1, as stated, fails: the same bytes in one chunk carry a progress
    event, and cut inside the record they carry none, because each part is
    parsed as a line of its own and rejected. *)
Lemma split_record_is_lost :
  List.concat [json_text "{'type':'progress','prog";
          json_line "ress':10,'message':'Analyzing'}"]
  = List.concat [json_line progress_10]
  /\ decoded_events
       (map Value [json_text "{'type':'progress','prog";
                   json_line "ress':10,'message':'Analyzing'}"]) = []
  /\ decoded_events (map Value [json_line progress_10])
     = [Progress (number 10) (text "Analyzing")]
  /\ decoded_events
       (map Value [json_text "{'type':'progress','prog";
                   json_line "ress':10,'message':'Analyzing'}"])
     <> decoded_events (map Value [json_line progress_10]).
Proof.
  split; [reflexivity|].
  split; [vm_compute; reflexivity|].
  split; [vm_compute; reflexivity|].
  vm_compute. discriminate.
Qed.

End ChunkBoundaries.

(* ================================================================== *)
(** * The run of [processS3Video] *)
(* ================================================================== *)

Module Orchestrator.
Import Home HomeFacts Samples.

Lemma type_is_not_progress (v : jsval) :
  strict_eq_str v (lit "complete") = true ->
  strict_eq_str v (lit "progress") = false.
Proof.
  destruct v as [[| | |s| |]|]; try discriminate.
  cbn [strict_eq_str]. intro H. apply JsonFacts.str_eqb_eq in H. subst s.
  reflexivity.
Qed.

(** C6.  A line that [JSON.parse] rejects leaves the component state as it
    was and does not throw, and no error message is set on its account.
    The lines after it are handled as if it were not there: the loop ends
    in the state the records of the other lines lead to, so a well-formed
    progress line that follows sets the percent and the message it
    carries, and a well-formed complete line that follows sets the percent
    to 100 and schedules the redirect to its diagnosis. *)
Theorem malformed_line_is_skipped
  (before after : list js_string) (line : js_string) (st : state) :
  JSON_parse line = None ->
  @handle_line thrown line st = (Normal tt, st)
  /\ line_events (before ++ line :: after) = line_events (before ++ after)
  /\ for_of (before ++ line :: after) (@handle_line thrown) st
     = for_of (before ++ after) (@handle_line thrown) st
  /\ (exists st', for_of (before ++ line :: after) (@handle_line thrown) st
                  = (Normal tt, st')
                  /\ error st' = error st)
  /\ for_of (before ++ line :: after) (@handle_line thrown) st
     = (Normal tt, on_events (line_events before ++ line_events after) st)
  /\ (forall next props,
         trim next <> [] ->
         JSON_parse next = Some (JObject props) ->
         strict_eq_str (own_property (lit "type") props) (lit "progress") = true ->
         for_of [line; next] (@handle_line thrown) st
         = (Normal tt,
            with_progressMessage (own_property (lit "message") props)
              (with_progress (own_property (lit "progress") props) st)))
  /\ (forall next props,
         trim next <> [] ->
         JSON_parse next = Some (JObject props) ->
         strict_eq_str (own_property (lit "type") props) (lit "complete") = true ->
         for_of [line; next] (@handle_line thrown) st
         = (Normal tt,
            with_redirect (own_property (lit "diagnosisId") props)
              (with_progressMessage (text "Analysis complete! Redirecting...")
                 (with_progress (number 100) st)))).
Proof.
  intro Hp.
  assert (Hl : line_event line = None).
  { unfold line_event. rewrite Hp. destruct (trim line); reflexivity. }
  assert (He : line_events (before ++ line :: after) = line_events (before ++ after)).
  { rewrite !line_events_app. simpl. rewrite Hl. reflexivity. }
  assert (Hnext : forall next props,
             trim next <> [] -> JSON_parse next = Some (JObject props) ->
             line_event next = event_of (JObject props)).
  { intros next props Ht Hn. unfold line_event. rewrite Hn.
    destruct (trim next); [contradiction Ht; reflexivity|reflexivity]. }
  split; [rewrite handle_line_event, Hl; reflexivity|].
  split; [exact He|].
  split; [rewrite !for_of_lines, He; reflexivity|].
  split.
  { rewrite for_of_lines. eexists. split; [reflexivity|]. apply on_events_error. }
  split.
  { rewrite for_of_lines, He, line_events_app. reflexivity. }
  split.
  - intros next props Ht Hn Hty. rewrite for_of_lines.
    cbn [line_events]. rewrite Hl, (Hnext next props Ht Hn).
    cbn [event_of]. rewrite Hty. reflexivity.
  - intros next props Ht Hn Hty. rewrite for_of_lines.
    cbn [line_events]. rewrite Hl, (Hnext next props Ht Hn).
    cbn [event_of]. rewrite (type_is_not_progress _ Hty), Hty. reflexivity.
Qed.

Lemma malformed_line_is_skipped_witness :
  JSON_parse (lit "data: not json") = None
  /\ (@handle_line thrown (lit "data: not json") running = (Normal tt, running)
      /\ line_events ([decode (json_text progress_10)] ++ lit "data: not json"
                        :: [decode (json_text progress_90)])
         = line_events ([decode (json_text progress_10)]
                          ++ [decode (json_text progress_90)])
      /\ for_of ([decode (json_text progress_10)] ++ lit "data: not json"
                   :: [decode (json_text progress_90)])
                (@handle_line thrown) running
         = for_of ([decode (json_text progress_10)] ++ [decode (json_text progress_90)])
                  (@handle_line thrown) running
      /\ (exists st',
             for_of ([decode (json_text progress_10)] ++ lit "data: not json"
                       :: [decode (json_text progress_90)])
                    (@handle_line thrown) running
             = (Normal tt, st')
             /\ error st' = error running)
      /\ for_of ([decode (json_text progress_10)] ++ lit "data: not json"
                   :: [decode (json_text progress_90)])
                (@handle_line thrown) running
         = (Normal tt,
            on_events (line_events [decode (json_text progress_10)]
                         ++ line_events [decode (json_text progress_90)]) running)
      /\ (forall next props,
             trim next <> [] ->
             JSON_parse next = Some (JObject props) ->
             strict_eq_str (own_property (lit "type") props) (lit "progress") = true ->
             for_of [lit "data: not json"; next] (@handle_line thrown) running
             = (Normal tt,
                with_progressMessage (own_property (lit "message") props)
                  (with_progress (own_property (lit "progress") props) running)))
      /\ (forall next props,
             trim next <> [] ->
             JSON_parse next = Some (JObject props) ->
             strict_eq_str (own_property (lit "type") props) (lit "complete") = true ->
             for_of [lit "data: not json"; next] (@handle_line thrown) running
             = (Normal tt,
                with_redirect (own_property (lit "diagnosisId") props)
                  (with_progressMessage (text "Analysis complete! Redirecting...")
                     (with_progress (number 100) running))))).
Proof.
  split; [vm_compute; reflexivity|].
  apply malformed_line_is_skipped. vm_compute. reflexivity.
Defined.

(** The scenario in full: a progress line, a line that is not JSON and a
    second progress line leave the percent and the message of the second,
    and no error. *)
Lemma skipped_line_then_progress :
  for_of [decode (json_text progress_10); lit "data: not json";
          decode (json_text progress_90)]
         (@handle_line thrown) running
  = (Normal tt,
     with_progressMessage (text "Finalizing") (with_progress (number 90) running)).
Proof. vm_compute. reflexivity. Qed.

(** Whatever a body carries, reading it to the end sets no error message:
    the [Error] thrown for an error record does not leave the [try] block
    of its line. *)
Lemma body_sets_no_error (values : list (list byte)) (st : state) :
  exists st', read_loop (map Value values) st = (Normal tt, st')
              /\ error st' = error st.
Proof.
  rewrite read_loop_values. eexists. split; [reflexivity|].
  apply on_events_error.
Qed.

(** A body that is read to its end never makes the run fail, whatever
    records it carries. *)
Lemma streamed_run_never_fails
  (env : option js_string) (fetch : network) (st : state)
  (k f : N) (ks fs : js_string) (values : list (list byte)) :
  s3Key st = Some (k :: ks) ->
  fileName st = Some (f :: fs) ->
  fetch (Config.getApiUrl env Config.ENDPOINTS.PROCESS_S3_VIDEO)
        (processing_request (k :: ks) (f :: fs)) = Normal (streamed values) ->
  exists st',
    processS3Video env fetch st = (Normal tt, st')
    /\ error st' = None
    /\ ~ Failed st'.
Proof.
  intros Hk Hf Hr.
  unfold processS3Video. rewrite Hk, Hf.
  unfold bind at 1 2 3 4.
  unfold setIsProcessing, setProgress, setError, setProgressMessage, update.
  unfold try_finally, try_catch, bind at 1, await.
  rewrite Hr.
  change (ok (streamed values)) with true. cbn [negb body streamed].
  destruct (body_sets_no_error values
              (with_progressMessage (text "Initializing analysis...")
                 (with_error None
                    (with_progress (number 0) (with_isProcessing true st)))))
    as [st1 [E1 E2]].
  rewrite E1. cbn [setIsProcessing update].
  eexists. split; [reflexivity|].
  split.
  - simpl. rewrite E2. reflexivity.
  - intros [H _]. apply H. simpl. rewrite E2. reflexivity.
Qed.

(** C2, on the code.  A stream that consists of the single record
    [{"type":"error","message":"model unavailable"}] is read as one error
    event, and the run ends with no error message: not Failed, processing
    over, the percent and message those set when the run began. *)
Theorem error_event_is_swallowed :
  decoded_events (map Value [json_line error_unavailable])
  = [Failure (text "model unavailable")]
  /\ processS3Video None (always (Normal (streamed [json_line error_unavailable])))
       uploaded
     = (Normal tt, with_isProcessing false running)
  /\ error (with_isProcessing false running) = None
  /\ ~ Failed (with_isProcessing false running).
Proof.
  split; [vm_compute; reflexivity|].
  split; [vm_compute; reflexivity|].
  split; [reflexivity|].
  intros [H _]. apply H. reflexivity.
Qed.

(** C7.  When the diagnosis-start call answers with a status that is not
    ok, or with no body, the run goes straight to Failed with a fixed
    message; the percent is 0, the progress message empty, and no redirect
    has been scheduled. *)
Theorem transport_failure_is_Failed
  (env : option js_string) (fetch : network) (st : state)
  (k f : N) (ks fs : js_string) (r : Response) :
  s3Key st = Some (k :: ks) ->
  fileName st = Some (f :: fs) ->
  fetch (Config.getApiUrl env Config.ENDPOINTS.PROCESS_S3_VIDEO)
        (processing_request (k :: ks) (f :: fs)) = Normal r ->
  ok r = false \/ body r = None ->
  exists st',
    processS3Video env fetch st = (Normal tt, st')
    /\ Failed st'
    /\ error st' = Some (if ok r then lit "Failed to read response stream"
                         else lit "Failed to process S3 video")
    /\ progress st' = number 0
    /\ progressMessage st' = text ""
    /\ redirects st' = redirects st.
Proof.
  intros Hk Hf Hr Hbad.
  unfold processS3Video. rewrite Hk, Hf.
  unfold bind, try_finally, try_catch, await, setIsProcessing, setProgress,
    setError, setProgressMessage, update, throw.
  rewrite Hr.
  destruct (ok r) eqn:Hok; simpl.
  - destruct Hbad as [Hbad|Hbad]; [discriminate|]. rewrite Hbad.
    eexists. split; [reflexivity|].
    repeat split; try reflexivity. discriminate.
  - eexists. split; [reflexivity|].
    repeat split; try reflexivity. discriminate.
Qed.

Lemma transport_failure_is_Failed_witness :
  s3Key uploaded = Some (118%N :: lit "ideos/key1")
  /\ fileName uploaded = Some (102%N :: lit "ridge1.mp4")
  /\ always (Normal {| status := 503; body := None |})
       (Config.getApiUrl None Config.ENDPOINTS.PROCESS_S3_VIDEO)
       (processing_request (118%N :: lit "ideos/key1") (102%N :: lit "ridge1.mp4"))
     = Normal {| status := 503; body := None |}
  /\ (ok {| status := 503; body := None |} = false
      \/ body {| status := 503; body := None |} = None)
  /\ exists st',
       processS3Video None (always (Normal {| status := 503; body := None |})) uploaded
       = (Normal tt, st')
       /\ Failed st'
       /\ error st' = Some (if ok {| status := 503; body := None |}
                            then lit "Failed to read response stream"
                            else lit "Failed to process S3 video")
       /\ progress st' = number 0
       /\ progressMessage st' = text ""
       /\ redirects st' = redirects uploaded.
Proof.
  split; [reflexivity|].
  split; [reflexivity|].
  split; [reflexivity|].
  split; [left; reflexivity|].
  apply (@transport_failure_is_Failed None
           (always (Normal {| status := 503; body := None |})) uploaded
           118%N 102%N (lit "ideos/key1") (lit "ridge1.mp4")
           {| status := 503; body := None |});
    try reflexivity.
  left. reflexivity.
Defined.

(** The same when [fetch] itself rejects: the message is the one of the
    [Error] it rejects with. *)
Lemma fetch_rejection_is_Failed
  (env : option js_string) (fetch : network) (st : state)
  (k f : N) (ks fs : js_string) (e : thrown) :
  s3Key st = Some (k :: ks) ->
  fileName st = Some (f :: fs) ->
  fetch (Config.getApiUrl env Config.ENDPOINTS.PROCESS_S3_VIDEO)
        (processing_request (k :: ks) (f :: fs)) = Throw e ->
  exists st',
    processS3Video env fetch st = (Normal tt, st')
    /\ Failed st'
    /\ error st' = Some (match e with
                         | ErrorObject message => message
                         | NotAnError => lit "Failed to process S3 video"
                         end)
    /\ progress st' = number 0
    /\ redirects st' = redirects st.
Proof.
  intros Hk Hf Hr.
  unfold processS3Video. rewrite Hk, Hf.
  unfold bind, try_finally, try_catch, await, setIsProcessing, setProgress,
    setError, setProgressMessage, update, throw.
  rewrite Hr. simpl.
  eexists. split; [reflexivity|].
  repeat split; try reflexivity. discriminate.
Qed.

Lemma displayed_percents (evs : list event) (st : state) :
  existsb is_failure evs = false ->
  map progress (displayed evs st) = map carried_percent evs.
Proof.
  revert st; induction evs as [|ev evs IH]; intros st H; [reflexivity|].
  simpl in H. apply orb_false_elim in H. destruct H as [Hev H].
  simpl. rewrite (IH _ H). f_equal.
  destruct ev; [reflexivity|reflexivity|discriminate].
Qed.

Lemma last_nonempty (A : Type) (x : A) (l : list A) (d d' : A) :
  last (x :: l) d = last (x :: l) d'.
Proof.
  revert x; induction l as [|y l IH]; intro x; [reflexivity|].
  change (last (y :: l) d = last (y :: l) d'). apply IH.
Qed.

Lemma last_displayed (evs : list event) (st : state) :
  last (displayed evs st) st = on_events evs st.
Proof.
  revert st; induction evs as [|ev evs IH]; intro st; [reflexivity|].
  change (on_events (ev :: evs) st) with (on_events evs (on_event ev st)).
  rewrite <- IH. simpl.
  destruct (displayed evs (on_event ev st)) as [|s l] eqn:E.
  - reflexivity.
  - apply last_nonempty.
Qed.

(** C4, as the code has it.  In a run that receives progress and complete
    events, the percent shown after each event is the one the event
    carries (100 for a complete event), whatever was shown before it: no
    clamp is applied.  The percents shown are thus non-decreasing exactly
    when the percents received are. *)
Theorem displayed_percent_is_received (values : list (list byte)) (st : state) :
  existsb is_failure (decoded_events (map Value values)) = false ->
  map progress (displayed (decoded_events (map Value values)) st)
  = map carried_percent (decoded_events (map Value values))
  /\ non_decreasing
       (progress st :: map progress (displayed (decoded_events (map Value values)) st))
     = non_decreasing
         (progress st :: map carried_percent (decoded_events (map Value values)))
  /\ read_loop (map Value values) st
     = (Normal tt, last (displayed (decoded_events (map Value values)) st) st).
Proof.
  intro H.
  pose proof (displayed_percents _ st H) as E.
  split; [exact E|].
  split; [rewrite E; reflexivity|].
  rewrite read_loop_values, last_displayed. reflexivity.
Qed.

Lemma displayed_percent_is_received_witness :
  existsb is_failure
    (decoded_events (map Value [json_line progress_10; json_line progress_90])) = false
  /\ (map progress
        (displayed
           (decoded_events (map Value [json_line progress_10; json_line progress_90]))
           running)
      = map carried_percent
          (decoded_events (map Value [json_line progress_10; json_line progress_90]))
      /\ non_decreasing
           (progress running
            :: map progress
                 (displayed
                    (decoded_events
                       (map Value [json_line progress_10; json_line progress_90]))
                    running))
         = non_decreasing
             (progress running
              :: map carried_percent
                   (decoded_events
                      (map Value [json_line progress_10; json_line progress_90])))
      /\ read_loop (map Value [json_line progress_10; json_line progress_90]) running
         = (Normal tt,
            last (displayed
                    (decoded_events
                       (map Value [json_line progress_10; json_line progress_90]))
                    running) running)).
Proof.
  split; [vm_compute; reflexivity|].
  apply displayed_percent_is_received. vm_compute. reflexivity.
Defined.

(** C4, as stated, fails: a progress record of 90 followed, in the next
    chunk, by one of 10 shows 90 and then 10. *)
Lemma percent_regresses :
  map progress
    (displayed
       (decoded_events (map Value [json_line progress_90; json_line progress_10]))
       running)
  = [number 90; number 10]
  /\ progress (snd (read_loop (map Value [json_line progress_90]) running)) = number 90
  /\ progress (snd (read_loop (map Value [json_line progress_90; json_line progress_10])
                      running)) = number 10
  /\ percent_le (number 90) (number 10) = false.
Proof.
  split; [vm_compute; reflexivity|].
  split; [vm_compute; reflexivity|].
  split; [vm_compute; reflexivity|].
  reflexivity.
Qed.

Lemma on_events_snoc (evs : list event) (ev : event) (st : state) :
  on_events (evs ++ [ev]) st = on_event ev (on_events evs st).
Proof. rewrite on_events_app. reflexivity. Qed.

Lemma on_events_redirects (evs : list event) (st : state) :
  redirects (on_events evs st) = redirects st ++ completed_ids evs.
Proof.
  revert st; induction evs as [|ev evs IH]; intro st.
  - simpl. rewrite app_nil_r. reflexivity.
  - change (on_events (ev :: evs) st) with (on_events evs (on_event ev st)).
    rewrite IH. destruct ev; simpl; try reflexivity.
    rewrite <- app_assoc. reflexivity.
Qed.

(** C5, as the code has it.  In a run that receives progress and complete
    events, every event is handled in the order received, those after a
    complete event included: the percent and message shown at the end are
    those of the last event, and every complete event has scheduled its
    redirect. *)
Theorem events_after_complete_are_handled (values : list (list byte)) (st : state) :
  existsb is_failure (decoded_events (map Value values)) = false ->
  read_loop (map Value values) st
  = (Normal tt, on_events (decoded_events (map Value values)) st)
  /\ redirects (on_events (decoded_events (map Value values)) st)
     = redirects st ++ completed_ids (decoded_events (map Value values))
  /\ match rev (decoded_events (map Value values)) with
     | [] => on_events (decoded_events (map Value values)) st = st
     | ev :: _ =>
         progress (on_events (decoded_events (map Value values)) st)
         = carried_percent ev
         /\ progressMessage (on_events (decoded_events (map Value values)) st)
            = carried_message ev
     end.
Proof.
  intro H.
  split; [apply read_loop_values|].
  split; [apply on_events_redirects|].
  destruct (rev (decoded_events (map Value values))) as [|ev l] eqn:E.
  - apply (f_equal (@rev event)) in E. rewrite rev_involutive in E.
    rewrite E. reflexivity.
  - apply (f_equal (@rev event)) in E. rewrite rev_involutive in E.
    simpl in E. rewrite E in *. rewrite on_events_snoc.
    rewrite existsb_app in H. apply orb_false_elim in H. destruct H as [_ H].
    simpl in H. rewrite orb_false_r in H.
    destruct ev; [split; reflexivity|split; reflexivity|discriminate].
Qed.

Lemma events_after_complete_are_handled_witness :
  existsb is_failure
    (decoded_events (map Value [json_line complete_d1; json_line progress_10])) = false
  /\ (read_loop (map Value [json_line complete_d1; json_line progress_10]) running
      = (Normal tt,
         on_events
           (decoded_events (map Value [json_line complete_d1; json_line progress_10]))
           running)
      /\ redirects
           (on_events
              (decoded_events (map Value [json_line complete_d1; json_line progress_10]))
              running)
         = redirects running
           ++ completed_ids
                (decoded_events
                   (map Value [json_line complete_d1; json_line progress_10]))
      /\ match
           rev (decoded_events
                  (map Value [json_line complete_d1; json_line progress_10]))
         with
         | [] =>
             on_events
               (decoded_events
                  (map Value [json_line complete_d1; json_line progress_10]))
               running = running
         | ev :: _ =>
             progress
               (on_events
                  (decoded_events
                     (map Value [json_line complete_d1; json_line progress_10]))
                  running)
             = carried_percent ev
             /\ progressMessage
                  (on_events
                     (decoded_events
                        (map Value [json_line complete_d1; json_line progress_10]))
                     running)
                = carried_message ev
         end).
Proof.
  split; [vm_compute; reflexivity|].
  apply events_after_complete_are_handled. vm_compute. reflexivity.
Defined.

(** C5, as stated, fails: a progress record that arrives after a complete
    record is not ignored; the percent shown goes from 100 to 10 and the
    message is replaced, so the run ends in another state than the run
    that stops at the complete record. *)
Lemma progress_after_complete_is_shown :
  decoded_events (map Value [json_line complete_d1; json_line progress_10])
  = [Complete (text "d1"); Progress (number 10) (text "Analyzing")]
  /\ is_terminal (Complete (text "d1")) = true
  /\ progress (snd (read_loop (map Value [json_line complete_d1]) running))
     = number 100
  /\ progress
       (snd (read_loop (map Value [json_line complete_d1; json_line progress_10])
               running)) = number 10
  /\ progressMessage
       (snd (read_loop (map Value [json_line complete_d1; json_line progress_10])
               running)) = text "Analyzing"
  /\ read_loop (map Value [json_line complete_d1; json_line progress_10]) running
     <> read_loop (map Value [json_line complete_d1]) running.
Proof.
  split; [vm_compute; reflexivity|].
  split; [reflexivity|].
  split; [vm_compute; reflexivity|].
  split; [vm_compute; reflexivity|].
  split; [vm_compute; reflexivity|].
  vm_compute. discriminate.
Qed.

End Orchestrator.

(* ================================================================== *)
(** * [apiRequest] and [checkBackendHealth] *)
(* ================================================================== *)

Module ConfigFacts.
Import Config Samples.

(** C10.  [checkBackendHealth] returns a boolean for every outcome of
    [fetch] and never throws; the boolean is [true] exactly when the health
    request resolves with a response whose status is ok. *)
Theorem checkBackendHealth_total (env : option js_string) (fetch : network) :
  exists b : bool,
    checkBackendHealth env fetch = Normal b
    /\ (b = true <->
        exists r, fetch (getApiUrl env ENDPOINTS.HEALTH) health_request = Normal r
                  /\ ok r = true).
Proof.
  unfold checkBackendHealth, try_catch, bind.
  destruct (fetch (getApiUrl env ENDPOINTS.HEALTH) health_request) as [r|e].
  - exists (ok r). split; [reflexivity|]. split.
    + intro H. exists r. split; [reflexivity|exact H].
    + intros [r' [E H]]. injection E as <-. exact H.
  - exists false. split; [reflexivity|]. split.
    + discriminate.
    + intros [r' [E _]]. discriminate.
Qed.

(** The value [apiRequest] makes its [Error] from when the body parses to
    [data]. *)
Lemma error_value (r : Response) (data : json) :
  try_catch
    (errorData <- (Normal data : outcome raised json) ;;
     detail <- get errorData "detail" ;;
     message <- get errorData "message" ;;
     Normal (or_else (or_else detail message) (http_error r)))
    (fun _ => Normal (http_error r))
  = (Normal
       (match data with
        | JObject props =>
            or_else (or_else (own_property (lit "detail") props)
                             (own_property (lit "message") props))
                    (http_error r)
        | _ => http_error r
        end) : outcome raised jsval).
Proof. destruct data; reflexivity. Qed.

(** C9, as the code has it.  When [fetch] resolves, [apiRequest] returns
    the response exactly when its status is ok.  Otherwise it throws an
    [Error] made from the [detail] field of the body if that field is
    truthy, else from its [message] field if that is truthy, else from
    "HTTP error! status: " and the status; the last also when the body is
    not JSON, or is JSON but not an object. *)
Theorem apiRequest_outcome
  (env : option js_string) (fetch : network) (endpoint : js_string)
  (options : option RequestInit) (r : Response) :
  fetch (getApiUrl env endpoint) (defaultOptions options) = Normal r ->
  ((exists r', apiRequest env fetch endpoint options = Normal r') <-> ok r = true)
  /\ (ok r = true -> apiRequest env fetch endpoint options = Normal r)
  /\ (ok r = false ->
      apiRequest env fetch endpoint options
      = Throw (Error_of
                 (match Response_json r with
                  | Normal (JObject props) =>
                      if truthy (own_property (lit "detail") props)
                      then own_property (lit "detail") props
                      else if truthy (own_property (lit "message") props)
                           then own_property (lit "message") props
                           else http_error r
                  | _ => http_error r
                  end))).
Proof.
  intro H.
  assert (Hbad : ok r = false ->
    apiRequest env fetch endpoint options
    = Throw (Error_of
               (match Response_json r with
                | Normal (JObject props) =>
                    if truthy (own_property (lit "detail") props)
                    then own_property (lit "detail") props
                    else if truthy (own_property (lit "message") props)
                         then own_property (lit "message") props
                         else http_error r
                | _ => http_error r
                end))).
  { intro Hok. unfold apiRequest. rewrite H. unfold await, bind at 1.
    rewrite Hok. cbn [negb].
    destruct (Response_json r) as [data|e].
    - rewrite error_value. unfold bind.
      destruct data; try reflexivity.
      unfold or_else.
      destruct (truthy (own_property (lit "detail") props)) eqn:Hd;
        cbv iota; rewrite ?Hd; [reflexivity|].
      destruct (truthy (own_property (lit "message") props)) eqn:Hm;
        cbv iota; rewrite ?Hm; reflexivity.
    - reflexivity. }
  assert (Hgood : ok r = true -> apiRequest env fetch endpoint options = Normal r).
  { intro Hok. unfold apiRequest. rewrite H. unfold await, bind at 1.
    rewrite Hok. reflexivity. }
  split; [|split; assumption].
  split.
  - intros [r' E]. destruct (ok r) eqn:Hok; [reflexivity|].
    rewrite (Hbad eq_refl) in E. discriminate.
  - intro Hok. exists r. apply Hgood. exact Hok.
Qed.

Lemma apiRequest_outcome_witness :
  always (Normal not_found) (getApiUrl None ENDPOINTS.HISTORY) (defaultOptions None)
  = Normal not_found
  /\ (((exists r', apiRequest None (always (Normal not_found)) ENDPOINTS.HISTORY None
                   = Normal r') <-> ok not_found = true)
      /\ (ok not_found = true ->
          apiRequest None (always (Normal not_found)) ENDPOINTS.HISTORY None
          = Normal not_found)
      /\ (ok not_found = false ->
          apiRequest None (always (Normal not_found)) ENDPOINTS.HISTORY None
          = Throw (Error_of
                     (match Response_json not_found with
                      | Normal (JObject props) =>
                          if truthy (own_property (lit "detail") props)
                          then own_property (lit "detail") props
                          else if truthy (own_property (lit "message") props)
                               then own_property (lit "message") props
                               else http_error not_found
                      | _ => http_error not_found
                      end)))).
Proof.
  split; [reflexivity|].
  apply (@apiRequest_outcome None (always (Normal not_found)) ENDPOINTS.HISTORY None
           not_found).
  reflexivity.
Defined.

(** C9, as stated, fails: a body whose [detail] field is present and is the
    empty string gives an [Error] made from the [message] field, not from
    [detail]. *)
Lemma empty_detail_is_passed_over :
  ok empty_detail = false
  /\ Response_json empty_detail
     = Normal (JObject [(lit "detail", JString []);
                        (lit "message", JString (lit "bad request"))])
  /\ own_property (lit "detail")
       [(lit "detail", JString []); (lit "message", JString (lit "bad request"))]
     = Some (JString [])
  /\ apiRequest None (always (Normal empty_detail)) ENDPOINTS.HISTORY None
     = Throw (Error_of (text "bad request"))
  /\ apiRequest None (always (Normal empty_detail)) ENDPOINTS.HISTORY None
     <> Throw (Error_of (Some (JString []))).
Proof.
  split; [reflexivity|].
  split; [vm_compute; reflexivity|].
  split; [reflexivity|].
  split; [vm_compute; reflexivity|].
  vm_compute. discriminate.
Qed.

End ConfigFacts.

(* ================================================================== *)
(** * The store under the schema *)
(* ================================================================== *)

Module StoreFacts.
Import Schema Samples.
Local Open Scope string_scope.

Lemma script_runs : run before_script script = Some schema.
Proof. reflexivity. Qed.

(** The foreign keys the file leaves in place. *)
Lemma references_to_diagnoses : referencing schema "refrigerator_diagnoses" = [].
Proof. reflexivity. Qed.

Lemma references_to_conversations :
  referencing schema "chat_conversations"
  = [("chat_messages", "conversation_id", "id", CASCADE)].
Proof. reflexivity. Qed.

Lemma references_to_messages : referencing schema "chat_messages" = [].
Proof. reflexivity. Qed.

(** The sample store is one the statements produce. *)
Lemma store_with_chat_reachable : reachable store_with_chat.
Proof.
  apply (@reach_append (at_time "m1" 30 2)
           [("refrigerator_diagnoses", [diagnosis_1]);
            ("chat_conversations",
             [[("id", Text "c1"); ("title", Text "Leak"); ("created_at", Time 20);
               ("updated_at", Time 20); ("diagnosis_id", Text "1")]])]
           (Text "c1") (Text "user") (Text "why is it leaking?"));
    [|reflexivity].
  apply (@reach_insert (at_time "c1" 20 2)
           [("refrigerator_diagnoses", [diagnosis_1])]
           "chat_conversations"
           [("title", Text "Leak"); ("diagnosis_id", Text "1")]);
    [|reflexivity].
  apply (@reach_insert (at_time "d" 10 1) [] "refrigerator_diagnoses"
           [("video_id", Text "v1"); ("file_name", Text "fridge1.mp4");
            ("video_url", Text "s3://bucket/key1");
            ("diagnosis_result", Text "Blocked drain");
            ("solutions", Text "Clear the drain pan")]);
    [|reflexivity].
  apply reach_empty.
Qed.

Lemma rows_set_rows (db : database) (t q : string) (rs : list row) :
  rows (set_rows db t rs) q = if t =? q then rs else rows db q.
Proof.
  induction db as [|[t0 rs0] db IH]; simpl; [reflexivity|].
  destruct (t0 =? t) eqn:E0.
  - apply String.eqb_eq in E0. subst t0. simpl.
    destruct (t =? q); reflexivity.
  - simpl. rewrite IH.
    destruct (t0 =? q) eqn:E1; [|reflexivity].
    apply String.eqb_eq in E1. subst t0. rewrite String.eqb_sym, E0. reflexivity.
Qed.

Lemma incl_filter (A : Type) (f : A -> bool) (l : list A) : incl (filter f l) l.
Proof. intros x H. apply filter_In in H. tauto. Qed.

(** A DELETE only removes rows, whatever it cascades to. *)
Lemma delete_where_incl (fuel : nat) (cat : catalog) :
  forall (db : database) (t : string) (doomed : row -> bool) (db' : database),
    delete_where fuel cat db t doomed = Normal db' ->
    forall q, incl (rows db' q) (rows db q).
Proof.
  induction fuel as [|fuel IH]; intros db t doomed db' H q; [discriminate|].
  cbn [delete_where] in H.
  assert (Hstart : forall q,
             incl (rows (set_rows db t (filter (fun r => negb (doomed r)) (rows db t))) q)
                  (rows db q)).
  { intro q'. rewrite rows_set_rows. destruct (t =? q') eqn:E.
    - apply String.eqb_eq in E. subst q'. apply incl_filter.
    - apply incl_refl. }
  revert H Hstart.
  generalize (set_rows db t (filter (fun r => negb (doomed r)) (rows db t))) as d0.
  generalize (filter doomed (rows db t)) as victims.
  intros victims.
  generalize (referencing cat t) as refs.
  induction refs as [|ref refs IHr]; intros d0 H Hd0.
  - simpl in H. injection H as <-. apply Hd0.
  - match type of H with
    | fold_left ?F _ _ = _ =>
        assert (Hthrow : forall l e, fold_left F l (Throw e) = Throw e)
          by (induction l; simpl; auto)
    end.
    simpl in H. destruct ref as [[[ct cc] pc] action]. destruct action.
    + destruct (existsb _ (rows d0 ct)).
      * rewrite Hthrow in H. discriminate.
      * apply (IHr d0 H Hd0).
    + match type of H with
      | fold_left _ _ ?c = _ => destruct c as [d1|e] eqn:E
      end.
      * apply (IHr d1 H). intro q'.
        eapply incl_tran; [apply (IH _ _ _ _ E)|apply Hd0].
      * rewrite Hthrow in H. discriminate.
Qed.

(** Deleting a conversation removes the messages that refer to it: here
    the schema declares the cascade. *)
Lemma conversation_delete_cascades (db : database) (id : string) :
  exists db',
    delete_conversation db id = Normal db'
    /\ forall c m,
         In c (rows db "chat_conversations") ->
         field c "id" = Text id ->
         In m (rows db' "chat_messages") ->
         owned_by_conversation c m = false.
Proof.
  unfold delete_conversation, delete.
  change (S (List.length schema)) with 5%nat.
  cbn [delete_where]. rewrite references_to_conversations. cbn [fold_left].
  cbn [delete_where]. rewrite references_to_messages. cbn [fold_left].
  eexists. split; [reflexivity|].
  intros c m Hc Hid Hm.
  rewrite rows_set_rows in Hm. cbn [String.eqb Ascii.eqb Bool.eqb] in Hm.
  apply filter_In in Hm. destruct Hm as [_ Hm].
  unfold owned_by_conversation.
  destruct (is_null (field m "conversation_id")) eqn:En; [reflexivity|].
  simpl. simpl in Hm.
  destruct (value_eqb (field m "conversation_id") (field c "id")) eqn:Ev; [|reflexivity].
  exfalso.
  apply negb_true_iff in Hm.
  assert (Hex : existsb (fun v => value_eqb (field v "id") (field m "conversation_id"))
                  (filter (fun r => value_eqb (field r "id") (Text id))
                          (rows db "chat_conversations")) = true).
  { apply existsb_exists. exists c. split.
    - apply filter_In. split; [exact Hc|]. rewrite Hid. simpl. apply String.eqb_refl.
    - rewrite Hid in *. destruct (field m "conversation_id"); try discriminate.
      simpl in *. rewrite String.eqb_sym. exact Ev. }
  rewrite Hex in Hm. discriminate.
Qed.

(** ** The role check of [chat_messages] *)

Lemma messages_table_role (tb : table) :
  find_table schema "chat_messages" = Some tb ->
  table_name tb = "chat_messages"
  /\ In {| name := "role"; type := TEXT; not_null := true; default := None |}
        (columns tb)
  /\ In ("chat_messages_role_check", CHECK "role" ["user"; "assistant"])
        (constraints tb).
Proof.
  intro H. vm_compute in H. injection H as <-.
  split; [reflexivity|].
  split; simpl; repeat (try (left; reflexivity); right).
Qed.

Lemma find_messages_table : exists tb, find_table schema "chat_messages" = Some tb.
Proof. eexists. reflexivity. Qed.

(** A row that passes the checks of [chat_messages] has one of the two
    roles. *)
Lemma checked_row_role (tb : table) (r : row) :
  find_table schema "chat_messages" = Some tb ->
  row_violates tb r = None ->
  valid_role r.
Proof.
  intros Ht H. destruct (messages_table_role Ht) as [_ [Hc Hk]].
  unfold row_violates in H.
  destruct (forallb (fun c => has_type (type c) (field r (name c))) (columns tb))
    eqn:H1; [|discriminate].
  destruct (forallb (fun c => negb (not_null c && is_null (field r (name c))))
                    (columns tb)) eqn:H2; [|discriminate].
  destruct (forallb (fun nk => check_ok r (snd nk)) (constraints tb))
    eqn:H3; [|discriminate].
  rewrite forallb_forall in H1, H2, H3.
  specialize (H1 _ Hc). specialize (H2 _ Hc). specialize (H3 _ Hk).
  cbn [type name not_null snd check_ok] in H1, H2, H3.
  unfold valid_role.
  destruct (field r "role") as [|s| | |]; try discriminate.
  cbn [existsb] in H3.
  destruct (s =? "user") eqn:E1.
  - left. apply String.eqb_eq in E1. subst s. reflexivity.
  - destruct (s =? "assistant") eqn:E2; [|discriminate].
    right. apply String.eqb_eq in E2. subst s. reflexivity.
Qed.

(** The violations a row alone can cause. *)
Lemma row_violates_kind (tb : table) (r : row) (e : sql_error) :
  row_violates tb r = Some e ->
  e = datatype_mismatch \/ e = not_null_violation \/ e = check_violation.
Proof.
  unfold row_violates.
  repeat match goal with
         | |- context [if ?c then _ else _] => destruct c
         end; intro H; try discriminate; injection H as <-; tauto.
Qed.

Lemma first_violation_none (tb : table) (rs : list row) :
  first_violation tb rs = None ->
  forall r, In r rs -> row_violates tb r = None.
Proof.
  induction rs as [|r0 rs IH]; intros H r Hin; [destruct Hin|].
  simpl in H. destruct (row_violates tb r0) eqn:E; [discriminate|].
  destruct Hin as [<-|Hin]; [exact E|apply (IH H r Hin)].
Qed.

Lemma insert_keeps_roles (env : session) (db : database) (t : string) (r : row)
  (db' : database) :
  insert schema env db t r = Normal db' ->
  Forall valid_role (rows db "chat_messages") ->
  Forall valid_role (rows db' "chat_messages").
Proof.
  unfold insert.
  destruct (find_table schema t) as [tb|] eqn:Ht; [|discriminate].
  destruct (negb _); [discriminate|].
  destruct (violates db tb (rows db t) (complete env tb r)) eqn:Hv; [discriminate|].
  intro H. injection H as <-. intro Hall.
  rewrite rows_set_rows.
  destruct (t =? "chat_messages") eqn:E; [|exact Hall].
  apply String.eqb_eq in E. subst t.
  apply Forall_app. split; [exact Hall|].
  constructor; [|constructor].
  apply (@checked_row_role tb _ Ht).
  unfold violates in Hv. destruct (row_violates tb _); [discriminate|reflexivity].
Qed.

Lemma delete_keeps_roles (db : database) (t c : string) (v : value) (db' : database) :
  delete schema db t c v = Normal db' ->
  Forall valid_role (rows db "chat_messages") ->
  Forall valid_role (rows db' "chat_messages").
Proof.
  unfold delete. intros H Hall.
  pose proof (delete_where_incl _ _ _ _ _ H "chat_messages") as Hincl.
  rewrite Forall_forall in *. intros m Hm. apply Hall. apply Hincl. exact Hm.
Qed.

Lemma update_keeps_roles (env : session) (db : database) (t c : string) (v : value)
  (k : string) (kv : value) (db' : database) :
  update schema env db t c v k kv = Normal db' ->
  Forall valid_role (rows db "chat_messages") ->
  Forall valid_role (rows db' "chat_messages").
Proof.
  unfold update.
  destruct (find_table schema t) as [tb|] eqn:Ht; [|discriminate].
  destruct (negb _); [discriminate|].
  destruct (_ || _)%bool; [discriminate|].
  match goal with
  | |- context [first_violation tb ?l] => destruct (first_violation tb l) eqn:Hf
  end; [discriminate|].
  intro H. injection H as <-. intro Hall.
  rewrite rows_set_rows.
  destruct (t =? "chat_messages") eqn:E; [|exact Hall].
  apply String.eqb_eq in E. subst t.
  rewrite Forall_forall in *. intros m Hm.
  apply in_map_iff in Hm. destruct Hm as [r0 [<- Hr0]].
  destruct (value_eqb (field r0 k) kv) eqn:Hhit; [|apply Hall; exact Hr0].
  apply (@checked_row_role tb _ Ht).
  apply (@first_violation_none tb _ Hf).
  apply in_map_iff. exists r0. split; [reflexivity|].
  apply filter_In. split; assumption.
Qed.

Lemma append_keeps_roles (env : session) (db : database)
  (conversationId role content : value) (db' : database) :
  appendMessage env db conversationId role content = Normal db' ->
  Forall valid_role (rows db "chat_messages") ->
  Forall valid_role (rows db' "chat_messages").
Proof.
  unfold appendMessage. intros H Hall.
  assert (Hgo :
    match insert schema env db "chat_messages"
            [("conversation_id", conversationId); ("role", role); ("content", content)]
    with
    | Throw (datatype_mismatch | not_null_violation | check_violation) =>
        Throw ValidationError
    | Throw foreign_key_violation => Throw NotFoundError
    | Throw e => Throw (StoreError e)
    | Normal db1 =>
        match update schema env db1 "chat_conversations"
                "updated_at" (Time (current_time env)) "id" conversationId
        with
        | Normal db2 => Normal db2
        | Throw e => Throw (StoreError e)
        end
    end = Normal db').
  { destruct content as [|s| | |]; try exact H.
    destruct s; [discriminate|exact H]. }
  clear H.
  destruct (insert schema env db "chat_messages" _) as [db1|e] eqn:Hi.
  - destruct (update schema env db1 _ _ _ _ _) as [db2|e] eqn:Hu; [|discriminate].
    injection Hgo as <-.
    apply (update_keeps_roles _ _ _ _ _ _ _ Hu).
    apply (insert_keeps_roles _ _ _ _ Hi Hall).
  - destruct e; discriminate.
Qed.

(** Every message of a reachable store has one of the two roles. *)
Lemma reachable_roles (db : database) :
  reachable db -> Forall valid_role (rows db "chat_messages").
Proof.
  induction 1 as [|env db t r db' _ IH H|db t c v db' _ IH H
                  |env db t c v k kv db' _ IH H|env db cid role content db' _ IH H].
  - constructor.
  - exact (insert_keeps_roles _ _ _ _ H IH).
  - exact (delete_keeps_roles _ _ _ _ H IH).
  - exact (update_keeps_roles _ _ _ _ _ _ _ H IH).
  - exact (append_keeps_roles _ _ _ _ _ H IH).
Qed.

(** An INSERT into [chat_messages] with another role is refused on the
    row's own account. *)
Lemma bad_role_insert (env : session) (db : database)
  (conversationId role content : value) :
  role <> Text "user" -> role <> Text "assistant" ->
  exists e,
    insert schema env db "chat_messages"
      [("conversation_id", conversationId); ("role", role); ("content", content)]
    = Throw e
    /\ (e = datatype_mismatch \/ e = not_null_violation \/ e = check_violation).
Proof.
  intros Hu Ha. unfold insert.
  destruct find_messages_table as [tb Ht]. rewrite Ht.
  pose proof Ht as Ht'. vm_compute in Ht'. injection Ht' as Etb.
  assert (Hr : field (complete env tb
                        [("conversation_id", conversationId); ("role", role);
                         ("content", content)]) "role" = role).
  { rewrite <- Etb. reflexivity. }
  assert (Hcols : forallb
            (fun cv : string * value => existsb (fun c => name c =? fst cv) (columns tb))
            [("conversation_id", conversationId); ("role", role); ("content", content)]
          = true).
  { rewrite <- Etb. reflexivity. }
  rewrite Hcols. cbn [negb].
  unfold violates.
  destruct (row_violates tb _) as [e|] eqn:Ev.
  - exists e. split; [reflexivity|]. exact (@row_violates_kind tb _ e Ev).
  - exfalso. pose proof (@checked_row_role tb _ Ht Ev) as Hv.
    unfold valid_role in Hv. rewrite Hr in Hv. tauto.
Qed.

(** C8.  A call of [appendMessage] whose role is neither "user" nor
    "assistant" fails with [ValidationError], so it stores nothing; and in
    every store the statements can produce, each message has one of the
    two roles. *)
Theorem message_role_is_checked :
  (forall (env : session) (db : database) (conversationId role content : value),
      role <> Text "user" -> role <> Text "assistant" ->
      appendMessage env db conversationId role content = Throw ValidationError)
  /\ (forall db : database,
         reachable db ->
         forall m, In m (rows db "chat_messages") ->
                   field m "role" = Text "user" \/ field m "role" = Text "assistant").
Proof.
  split.
  - intros env db cid role content Hu Ha.
    destruct (bad_role_insert env db cid content Hu Ha) as [e [Hi Hk]].
    unfold appendMessage. rewrite Hi.
    destruct content as [|s| | |]; try destruct s;
      destruct Hk as [->|[->| ->]]; reflexivity.
  - intros db Hr m Hm.
    pose proof (reachable_roles Hr) as Hall.
    rewrite Forall_forall in Hall. exact (Hall m Hm).
Qed.

Lemma message_role_is_checked_witness :
  Text "system" <> Text "user"
  /\ Text "system" <> Text "assistant"
  /\ appendMessage (at_time "m2" 40 2) store_with_chat
       (Text "c1") (Text "system") (Text "x")
     = Throw ValidationError
  /\ reachable store_with_chat
  /\ In message_m1 (rows store_with_chat "chat_messages")
  /\ (field message_m1 "role" = Text "user"
      \/ field message_m1 "role" = Text "assistant").
Proof.
  destruct message_role_is_checked as [Hreject Hstored].
  assert (H1 : Text "system" <> Text "user") by discriminate.
  assert (H2 : Text "system" <> Text "assistant") by discriminate.
  split; [exact H1|]. split; [exact H2|].
  split; [exact (Hreject (at_time "m2" 40 2) store_with_chat
                   (Text "c1") (Text "system") (Text "x") H1 H2)|].
  split; [exact store_with_chat_reachable|].
  split; [left; reflexivity|].
  exact (Hstored store_with_chat store_with_chat_reachable message_m1
           (or_introl eq_refl)).
Defined.

End StoreFacts.

(* ================================================================== *)
(** * More on the run of [processS3Video] *)
(* ================================================================== *)

Module RunFacts.
Import Home HomeFacts StreamFacts Orchestrator Samples Observations.

Lemma on_event_keeps (ev : event) (st : state) :
  s3Key (on_event ev st) = s3Key st
  /\ fileName (on_event ev st) = fileName st
  /\ isProcessing (on_event ev st) = isProcessing st.
Proof. destruct ev; repeat split; reflexivity. Qed.

Lemma on_events_keeps (evs : list event) (st : state) :
  s3Key (on_events evs st) = s3Key st
  /\ fileName (on_events evs st) = fileName st
  /\ isProcessing (on_events evs st) = isProcessing st.
Proof.
  revert st; induction evs as [|ev evs IH]; intro st; [repeat split; reflexivity|].
  change (on_events (ev :: evs) st) with (on_events evs (on_event ev st)).
  destruct (IH (on_event ev st)) as [H1 [H2 H3]].
  destruct (on_event_keeps ev st) as [K1 [K2 K3]].
  rewrite H1, H2, H3, K1, K2, K3. repeat split; reflexivity.
Qed.

(** Reading a body: the events up to the first read that fails are
    handled, and that failure, if any, is thrown. *)
Lemma read_loop_outcome (reads : list read_result) (st : state) :
  read_loop reads st
  = (match first_rejection reads with
     | Some e => Throw e
     | None => Normal tt
     end, on_events (decoded_events reads) st).
Proof.
  revert st; induction reads as [|[v|e] rest IH]; intro st; try reflexivity.
  simpl. unfold bind at 1. rewrite handle_chunk_events, IH, on_events_app.
  reflexivity.
Qed.

(** What a run that starts does, in terms of the result of [fetch] and of
    the events of the body. *)
Lemma run_outcome
  (env : option js_string) (fetch : network) (st : state)
  (k f : N) (ks fs : js_string) :
  s3Key st = Some (k :: ks) ->
  fileName st = Some (f :: fs) ->
  processS3Video env fetch st
  = (Normal tt,
     with_isProcessing false
       (match fetch (Config.getApiUrl env Config.ENDPOINTS.PROCESS_S3_VIDEO)
                    (processing_request (k :: ks) (f :: fs)) with
        | Throw e => failed_with e (started_from st)
        | Normal r =>
            if ok r then
              match body r with
              | None =>
                  failed_with (ErrorObject (lit "Failed to read response stream"))
                              (started_from st)
              | Some reads =>
                  match first_rejection reads with
                  | Some e =>
                      failed_with e (on_events (decoded_events reads) (started_from st))
                  | None => on_events (decoded_events reads) (started_from st)
                  end
              end
            else failed_with (ErrorObject (lit "Failed to process S3 video"))
                             (started_from st)
        end)).
Proof.
  intros Hk Hf. unfold processS3Video. rewrite Hk, Hf.
  unfold bind at 1 2 3 4.
  unfold setIsProcessing, setProgress, setError, setProgressMessage, update.
  unfold try_finally, try_catch, bind at 1, await.
  fold (started_from st).
  destruct (fetch _ _) as [r|e]; [|reflexivity].
  destruct (ok r); cbn [negb]; [|reflexivity].
  destruct (body r) as [reads|]; [|reflexivity].
  rewrite read_loop_outcome.
  destruct (first_rejection reads); reflexivity.
Qed.

Lemma failed_with_keeps (e : thrown) (st : state) :
  s3Key (failed_with e st) = s3Key st
  /\ fileName (failed_with e st) = fileName st
  /\ redirects (failed_with e st) = redirects st.
Proof. repeat split; reflexivity. Qed.

(** [processS3Video] never throws and never changes the uploaded key and
    file name.  A run that starts (both are non-empty strings) ends with
    [isProcessing] false, whatever [fetch] and the body do; without them
    nothing at all changes, whatever the network would answer. *)
Theorem processS3Video_always_settles
  (env : option js_string) (fetch : network) (st : state) :
  exists st',
    processS3Video env fetch st = (Normal tt, st')
    /\ s3Key st' = s3Key st
    /\ fileName st' = fileName st
    /\ match s3Key st, fileName st with
       | Some (_ :: _), Some (_ :: _) => isProcessing st' = false
       | _, _ => st' = st
       end.
Proof.
  destruct (s3Key st) as [[|k ks]|] eqn:Hk;
    try (exists st; unfold processS3Video; rewrite Hk; repeat split; reflexivity).
  destruct (fileName st) as [[|f fs]|] eqn:Hf;
    try (exists st; unfold processS3Video; rewrite Hk, Hf; repeat split;
         first [reflexivity | assumption]).
  rewrite (run_outcome env fetch st Hk Hf).
  eexists. split; [reflexivity|].
  assert (Hs : s3Key (started_from st) = s3Key st
               /\ fileName (started_from st) = fileName st)
    by (split; reflexivity).
  destruct Hs as [Hs1 Hs2].
  split; [|split; [|reflexivity]].
  - cbn [s3Key with_isProcessing].
    destruct (fetch _ _) as [r|e]; [|rewrite <- Hk; reflexivity].
    destruct (ok r); [|rewrite <- Hk; reflexivity].
    destruct (body r) as [reads|]; [|rewrite <- Hk; reflexivity].
    destruct (on_events_keeps (decoded_events reads) (started_from st)) as [K _].
    destruct (first_rejection reads).
    + destruct (failed_with_keeps t (on_events (decoded_events reads) (started_from st)))
        as [F _].
      rewrite F, K, <- Hk. reflexivity.
    + rewrite K, <- Hk. reflexivity.
  - cbn [fileName with_isProcessing].
    destruct (fetch _ _) as [r|e]; [|rewrite <- Hf; reflexivity].
    destruct (ok r); [|rewrite <- Hf; reflexivity].
    destruct (body r) as [reads|]; [|rewrite <- Hf; reflexivity].
    destruct (on_events_keeps (decoded_events reads) (started_from st)) as [_ [K _]].
    destruct (first_rejection reads).
    + destruct (failed_with_keeps t (on_events (decoded_events reads) (started_from st)))
        as [_ [F _]].
      rewrite F, K, <- Hf. reflexivity.
    + rewrite K, <- Hf. reflexivity.
Qed.

(** When a read of the body fails after some chunks, the run is Failed
    with the message of that failure, the percent is back at 0 and the
    progress message empty; but the redirects that complete records of the
    earlier chunks scheduled stay scheduled. *)
Theorem read_failure_is_Failed
  (env : option js_string) (fetch : network) (st : state)
  (k f : N) (ks fs : js_string) (r : Response)
  (reads : list read_result) (e : thrown) :
  s3Key st = Some (k :: ks) ->
  fileName st = Some (f :: fs) ->
  fetch (Config.getApiUrl env Config.ENDPOINTS.PROCESS_S3_VIDEO)
        (processing_request (k :: ks) (f :: fs)) = Normal r ->
  ok r = true ->
  body r = Some reads ->
  first_rejection reads = Some e ->
  exists st',
    processS3Video env fetch st = (Normal tt, st')
    /\ Failed st'
    /\ error st' = Some (caught_message e)
    /\ progress st' = number 0
    /\ progressMessage st' = text ""
    /\ redirects st' = redirects st ++ completed_ids (decoded_events reads).
Proof.
  intros Hk Hf Hr Hok Hb He.
  rewrite (run_outcome env fetch st Hk Hf), Hr, Hok, Hb, He.
  eexists. split; [reflexivity|].
  split; [split; [discriminate|reflexivity]|].
  repeat split; try reflexivity.
  cbn [redirects with_isProcessing failed_with with_progressMessage with_progress
       with_error].
  rewrite on_events_redirects. reflexivity.
Qed.

Lemma read_failure_is_Failed_witness :
  s3Key uploaded = Some (118%N :: lit "ideos/key1")
  /\ fileName uploaded = Some (102%N :: lit "ridge1.mp4")
  /\ always (Normal interrupted)
       (Config.getApiUrl None Config.ENDPOINTS.PROCESS_S3_VIDEO)
       (processing_request (118%N :: lit "ideos/key1") (102%N :: lit "ridge1.mp4"))
     = Normal interrupted
  /\ ok interrupted = true
  /\ body interrupted
     = Some [Value (json_line complete_d1);
             Rejected (ErrorObject (lit "network error"))]
  /\ first_rejection [Value (json_line complete_d1);
                      Rejected (ErrorObject (lit "network error"))]
     = Some (ErrorObject (lit "network error"))
  /\ exists st',
       processS3Video None (always (Normal interrupted)) uploaded = (Normal tt, st')
       /\ Failed st'
       /\ error st' = Some (caught_message (ErrorObject (lit "network error")))
       /\ progress st' = number 0
       /\ progressMessage st' = text ""
       /\ redirects st'
          = redirects uploaded
            ++ completed_ids
                 (decoded_events [Value (json_line complete_d1);
                                  Rejected (ErrorObject (lit "network error"))]).
Proof.
  split; [reflexivity|]. split; [reflexivity|]. split; [reflexivity|].
  split; [reflexivity|]. split; [reflexivity|]. split; [reflexivity|].
  apply (@read_failure_is_Failed None (always (Normal interrupted)) uploaded
           118%N 102%N (lit "ideos/key1") (lit "ridge1.mp4") interrupted
           [Value (json_line complete_d1);
            Rejected (ErrorObject (lit "network error"))]
           (ErrorObject (lit "network error")));
    reflexivity.
Defined.

End RunFacts.

(* ================================================================== *)
(** * More on lines and chunks *)
(* ================================================================== *)

Module LineFacts.
Import Home HomeFacts StreamFacts Samples Observations.
Local Open Scope N_scope.

(** A line that is JSON but carries no record the loop knows leaves the
    state as it was: a number, a string, a boolean, an array, an object
    whose [type] is none of the three, and also [null], for which reading
    [data.type] throws inside the [try]. *)
Theorem unrecognised_json_is_ignored (line : js_string) (data : json) (st : state) :
  JSON_parse line = Some data ->
  match data with
  | JObject props =>
      strict_eq_str (own_property (lit "type") props) (lit "progress") = false
      /\ strict_eq_str (own_property (lit "type") props) (lit "complete") = false
      /\ strict_eq_str (own_property (lit "type") props) (lit "error") = false
  | _ => True
  end ->
  @handle_line thrown line st = (Normal tt, st).
Proof.
  intros Hp Hd. unfold handle_line.
  destruct (trim line); [reflexivity|].
  unfold try_catch, bind, parse. rewrite Hp.
  destruct data; try reflexivity.
  destruct Hd as [H1 [H2 H3]].
  unfold dispatch, bind, get, ret. simpl. rewrite H1, H2, H3. reflexivity.
Qed.

Lemma unrecognised_json_is_ignored_witness :
  JSON_parse (lit "null") = Some JNull
  /\ True
  /\ @handle_line thrown (lit "null") running = (Normal tt, running).
Proof.
  split; [reflexivity|]. split; [exact I|].
  apply (@unrecognised_json_is_ignored (lit "null") JNull running);
    [reflexivity|exact I].
Defined.

(** A record delivered twice.  A repeated progress record changes nothing
    the second time; a repeated complete record schedules a second
    redirect to the same identifier and changes nothing else. *)
Theorem repeated_record (line : js_string) (ev : event) (st : state) :
  line_event line = Some ev ->
  snd (@handle_line thrown line (snd (@handle_line thrown line st)))
  = match ev with
    | Complete id => with_redirect id (snd (@handle_line thrown line st))
    | _ => snd (@handle_line thrown line st)
    end.
Proof.
  intro H. rewrite !handle_line_event, H. destruct ev; reflexivity.
Qed.

Lemma repeated_record_witness :
  line_event (decode (json_text complete_d1)) = Some (Complete (text "d1"))
  /\ snd (@handle_line thrown (decode (json_text complete_d1))
            (snd (@handle_line thrown (decode (json_text complete_d1)) running)))
     = with_redirect (text "d1")
         (snd (@handle_line thrown (decode (json_text complete_d1)) running)).
Proof.
  assert (H : line_event (decode (json_text complete_d1)) = Some (Complete (text "d1")))
    by (vm_compute; reflexivity).
  split; [exact H|].
  exact (@repeated_record (decode (json_text complete_d1)) (Complete (text "d1"))
           running H).
Defined.

Lemma split_no_sep (sep : N) (s : js_string) : ~ In sep s -> split sep s = [s].
Proof.
  induction s as [|c s IH]; intro H; [reflexivity|].
  simpl. destruct (c =? sep) eqn:E.
  - apply N.eqb_eq in E. subst c. exfalso. apply H. left. reflexivity.
  - rewrite IH; [reflexivity|]. intro Hin. apply H. right. exact Hin.
Qed.

(** The text after the last newline of a chunk is handled at once, as a
    line of its own: it is neither kept for the next chunk nor dropped at
    the end of the stream. *)
Theorem unterminated_tail_is_a_line
  (value : list byte) (head last : js_string) (st : state) :
  decode value = head ++ 10 :: last ->
  ~ In 10 last ->
  @handle_chunk thrown value st
  = for_of (split 10 head ++ [last]) (@handle_line thrown) st.
Proof.
  intros Hd Hl. unfold handle_chunk.
  rewrite Hd, split_app_sep, (@split_no_sep 10 last Hl). reflexivity.
Qed.

Lemma unterminated_tail_is_a_line_witness :
  decode (json_line progress_10 ++ json_text complete_d1)
  = decode (json_text progress_10) ++ 10 :: decode (json_text complete_d1)
  /\ ~ In 10 (decode (json_text complete_d1))
  /\ @handle_chunk thrown (json_line progress_10 ++ json_text complete_d1) running
     = for_of (split 10 (decode (json_text progress_10))
                 ++ [decode (json_text complete_d1)])
              (@handle_line thrown) running.
Proof.
  assert (H1 : decode (json_line progress_10 ++ json_text complete_d1)
               = decode (json_text progress_10)
                 ++ 10 :: decode (json_text complete_d1))
    by (vm_compute; reflexivity).
  assert (H2 : ~ In 10 (decode (json_text complete_d1))).
  { vm_compute. intro H.
    repeat (destruct H as [H|H]; [discriminate H|]). exact H. }
  split; [exact H1|]. split; [exact H2|].
  exact (@unterminated_tail_is_a_line
           (json_line progress_10 ++ json_text complete_d1)
           (decode (json_text progress_10)) (decode (json_text complete_d1))
           running H1 H2).
Defined.

Lemma join_split_cons (sep : N) (s : js_string) :
  join sep (split sep s) = s.
Proof.
  induction s as [|c s IH]; [reflexivity|].
  simpl. destruct (c =? sep) eqn:E.
  - apply N.eqb_eq in E. subst c.
    destruct (split sep s) as [|l ls] eqn:Es; [exfalso; exact (split_not_nil _ _ Es)|].
    cbn [join app]. rewrite <- IH. reflexivity.
  - destruct (split sep s) as [|l ls] eqn:Es; [exfalso; exact (split_not_nil _ _ Es)|].
    rewrite <- IH. cbn [join]. destruct ls; reflexivity.
Qed.

Lemma split_pieces (sep : N) (s : js_string) :
  Forall (fun piece => ~ In sep piece) (split sep s).
Proof.
  induction s as [|c s IH]; simpl.
  - constructor; [intros []|constructor].
  - destruct (c =? sep) eqn:E.
    + constructor; [intros []|exact IH].
    + destruct (split sep s) as [|l ls]; [constructor; [|constructor]|].
      * intros [H|[]]. subst c. rewrite N.eqb_refl in E. discriminate.
      * inversion IH as [|? ? Hl Hls]; subst.
        constructor; [|exact Hls].
        intros [H|H]; [subst c; rewrite N.eqb_refl in E; discriminate|].
        exact (Hl H).
Qed.

Lemma split_count (sep : N) (s : js_string) :
  List.length (split sep s) = S (List.length (filter (N.eqb sep) s)).
Proof.
  induction s as [|c s IH]; [reflexivity|].
  cbn [split filter]. rewrite (N.eqb_sym sep c). destruct (c =? sep).
  - cbn [List.length]. rewrite IH. reflexivity.
  - destruct (split sep s) as [|l ls]; [discriminate IH|]. exact IH.
Qed.

(** The cut of a chunk into lines loses and reorders nothing: no line
    contains a newline, there is one more line than there are newlines,
    and the lines written one after the other with a newline between them
    give back the text of the chunk. *)
Theorem lines_of_chunk (value : list byte) :
  join 10 (split 10 (decode value)) = decode value
  /\ Forall (fun line => ~ In 10 line) (split 10 (decode value))
  /\ List.length (split 10 (decode value))
     = S (List.length (filter (N.eqb 10) (decode value))).
Proof.
  split; [apply join_split_cons|].
  split; [apply split_pieces|apply split_count].
Qed.

Lemma utf8_run_ascii (bytes : list byte) :
  Forall (fun b => Byte.to_N b < 128) bytes ->
  utf8_run utf8_start bytes = map Byte.to_N bytes.
Proof.
  induction 1 as [|b bytes Hb _ IH]; [reflexivity|].
  assert (L : (Byte.to_N b <=? 127) = true) by (apply N.leb_le; lia).
  cbn [utf8_run map]. unfold utf8_step, utf8_lead.
  cbn [bytes_needed utf8_start N.eqb]. rewrite L. cbn [app].
  rewrite IH. reflexivity.
Qed.

Lemma flat_map_units_ascii (cps : list N) :
  Forall (fun c => c < 128) cps -> flat_map utf16_units cps = cps.
Proof.
  induction 1 as [|c cps Hc _ IH]; [reflexivity|].
  assert (L : (c <? 65536) = true) by (apply N.ltb_lt; lia).
  cbn [flat_map]. unfold utf16_units at 1. rewrite L. cbn [app].
  rewrite IH. reflexivity.
Qed.

(** On bytes below 128 [decode] changes nothing, so for an ASCII stream
    the text of the chunks, one after the other, is the text of the whole:
    chunk boundaries then matter only through the cut into lines. *)
Theorem decode_ascii (a b : list byte) :
  Forall (fun x => Byte.to_N x < 128) a ->
  Forall (fun x => Byte.to_N x < 128) b ->
  decode a = map Byte.to_N a
  /\ decode (a ++ b) = decode a ++ decode b.
Proof.
  assert (D : forall l, Forall (fun x => Byte.to_N x < 128) l ->
                        decode l = map Byte.to_N l).
  { intros l Hl. unfold decode. rewrite (@utf8_run_ascii l Hl).
    assert (Hm : Forall (fun c => c < 128) (map Byte.to_N l)).
    { apply Forall_map. exact Hl. }
    assert (Hs : strip_bom (map Byte.to_N l) = map Byte.to_N l).
    { destruct Hm as [|c cps Hc _]; [reflexivity|].
      simpl. assert (E : (c =? 65279) = false) by (apply N.eqb_neq; lia).
      rewrite E. reflexivity. }
    rewrite Hs. apply flat_map_units_ascii. exact Hm. }
  intros Ha Hb. split; [exact (D a Ha)|].
  rewrite (D a Ha), (D b Hb), (D (a ++ b)); [apply map_app|].
  apply Forall_app. split; assumption.
Qed.

Lemma decode_ascii_witness :
  Forall (fun x => Byte.to_N x < 128) (json_text "{'type'")
  /\ Forall (fun x => Byte.to_N x < 128) (json_text ":'progress'}")
  /\ decode (json_text "{'type'") = map Byte.to_N (json_text "{'type'")
  /\ decode (json_text "{'type'" ++ json_text ":'progress'}")
     = decode (json_text "{'type'") ++ decode (json_text ":'progress'}").
Proof.
  assert (H1 : Forall (fun x => Byte.to_N x < 128) (json_text "{'type'"))
    by (repeat constructor).
  assert (H2 : Forall (fun x => Byte.to_N x < 128) (json_text ":'progress'}"))
    by (repeat constructor).
  split; [exact H1|]. split; [exact H2|].
  exact (@decode_ascii (json_text "{'type'") (json_text ":'progress'}") H1 H2).
Defined.

End LineFacts.

(* ================================================================== *)
(** * More on [apiRequest] *)
(* ================================================================== *)

Module RequestFacts.
Import Config ConfigFacts Samples Observations.

Lemma http_error_truthy (r : Response) : truthy (http_error r) = true.
Proof. reflexivity. Qed.

Lemma or_else_truthy (a b : jsval) : truthy b = true -> truthy (or_else a b) = true.
Proof.
  intro H. unfold or_else. destruct (truthy a) eqn:E; [exact E|exact H].
Qed.

(** Every way [apiRequest] can end.  A response it returns is the one
    [fetch] resolved with, and its status is ok.  When [fetch] rejects, the
    rejection is passed on unchanged.  Otherwise the response was not ok
    and an [Error] is thrown, made from a value that is never falsy.
    Nothing else escapes: a failure to read or parse the error body, or a
    [null] body, is caught inside. *)
Theorem apiRequest_ends
  (env : option js_string) (fetch : network) (endpoint : js_string)
  (options : option RequestInit) :
  match apiRequest env fetch endpoint options with
  | Normal r =>
      fetch (getApiUrl env endpoint) (defaultOptions options) = Normal r
      /\ ok r = true
  | Throw (Rethrown e) =>
      fetch (getApiUrl env endpoint) (defaultOptions options) = Throw e
  | Throw (Error_of v) =>
      truthy v = true
      /\ exists r, fetch (getApiUrl env endpoint) (defaultOptions options) = Normal r
                   /\ ok r = false
  | Throw SyntaxError => False
  | Throw TypeError => False
  end.
Proof.
  unfold apiRequest.
  destruct (fetch (getApiUrl env endpoint) (defaultOptions options)) as [r|e];
    [|reflexivity].
  unfold await, bind at 1.
  destruct (ok r) eqn:Hok; cbn [negb].
  - split; [reflexivity|exact Hok].
  - destruct (Response_json r) as [data|e].
    + rewrite error_value. unfold bind. split.
      * destruct data; try apply http_error_truthy.
        apply or_else_truthy. apply http_error_truthy.
      * exists r. split; [reflexivity|exact Hok].
    + unfold bind, try_catch. split; [apply http_error_truthy|].
      exists r. split; [reflexivity|exact Hok].
Qed.

Lemma spread_nothing (hs : list (js_string * js_string)) : spread_headers hs [] = hs.
Proof. reflexivity. Qed.

(** The options [apiRequest] hands to [fetch].  Because the spread of
    [options] comes after the merged [headers], headers given by the caller
    are sent exactly as given: the default Content-Type is among them only
    if the caller put it there.  Without headers from the caller the
    request carries Content-Type: application/json alone.  Method and body
    are the caller's, and applying the defaults twice changes nothing. *)
Theorem request_headers (options : option RequestInit) :
  headers (defaultOptions options)
  = Some (match options with
          | Some o => match headers o with Some h => h | None => json_headers end
          | None => json_headers
          end)
  /\ method (defaultOptions options)
     = match options with Some o => method o | None => None end
  /\ request_body (defaultOptions options)
     = match options with Some o => request_body o | None => None end
  /\ defaultOptions (Some (defaultOptions options)) = defaultOptions options.
Proof.
  destruct options as [[m [h|] b]|]; cbn; repeat split; reflexivity.
Qed.

End RequestFacts.

(* ================================================================== *)
(** * Invariants of the store *)
(* ================================================================== *)

Module IntegrityFacts.
Import Schema StoreFacts Samples Integrity.
Local Open Scope string_scope.

Lemma value_eqb_eq (a b : value) : value_eqb a b = true -> a = b.
Proof.
  destruct a, b; simpl; intro H; try discriminate; try reflexivity.
  - apply String.eqb_eq in H. subst. reflexivity.
  - apply Z.eqb_eq in H. subst. reflexivity.
  - apply Z.eqb_eq in H. subst. reflexivity.
  - apply String.eqb_eq in H. subst. reflexivity.
Qed.

Lemma value_eqb_refl (a : value) : value_eqb a a = true.
Proof.
  destruct a; simpl; try reflexivity;
    first [apply String.eqb_refl | apply Z.eqb_refl].
Qed.

(** The only foreign key of the schema points at [chat_conversations]. *)
Lemma referencing_schema (t : string) :
  referencing schema t
  = if "chat_conversations" =? t
    then [("chat_messages", "conversation_id", "id", CASCADE)]
    else [].
Proof.
  unfold referencing.
  let s := eval vm_compute in schema in change schema with s.
  cbn [flat_map constraints snd app table_name].
  destruct ("chat_conversations" =? t); reflexivity.
Qed.

(** ** What the statements do to the tables *)

(** Under this schema a DELETE never fails: the rows go, and when they are
    conversations, so do the messages that refer to them. *)
Lemma delete_where_schema (db : database) (t : string) (doomed : row -> bool) :
  delete_where 5 schema db t doomed
  = Normal
      (let db1 := set_rows db t (filter (fun r => negb (doomed r)) (rows db t)) in
       if "chat_conversations" =? t then
         set_rows db1 "chat_messages"
           (filter
              (fun m =>
                 negb (negb (is_null (field m "conversation_id"))
                       && existsb (fun v => value_eqb (field v "id")
                                                      (field m "conversation_id"))
                                  (filter doomed (rows db t))))
              (rows db1 "chat_messages"))
       else db1).
Proof.
  cbn [delete_where]. rewrite referencing_schema.
  destruct ("chat_conversations" =? t) eqn:E; [|reflexivity].
  cbn [fold_left delete_where]. rewrite referencing_schema.
  reflexivity.
Qed.

Lemma delete_schema (db : database) (t c : string) (v : value) :
  delete schema db t c v
  = delete_where 5 schema db t (fun r => value_eqb (field r c) v).
Proof. reflexivity. Qed.

(** What a successful INSERT did. *)
Lemma insert_inversion (env : session) (db : database) (t : string) (r : row)
  (db' : database) :
  insert schema env db t r = Normal db' ->
  exists tb,
    find_table schema t = Some tb
    /\ forallb (fun cv : string * value =>
                  existsb (fun c => name c =? fst cv) (columns tb)) r = true
    /\ violates db tb (rows db t) (complete env tb r) = None
    /\ db' = set_rows db t (rows db t ++ [complete env tb r]).
Proof.
  unfold insert.
  destruct (find_table schema t) as [tb|]; [|discriminate].
  destruct (forallb _ r) eqn:Hc; cbn [negb]; [|discriminate].
  destruct (violates db tb (rows db t) (complete env tb r)) eqn:Hv; [discriminate|].
  intro H. injection H as <-. exists tb. repeat split; assumption.
Qed.

(** What a successful UPDATE did. *)
Lemma update_inversion (env : session) (db : database) (t c : string) (v : value)
  (k : string) (kv : value) (db' : database) :
  update schema env db t c v k kv = Normal db' ->
  exists tb,
    find_table schema t = Some tb
    /\ existsb (fun nk : string * table_constraint =>
                  match snd nk with
                  | PKEY c' | FKEY c' _ _ _ => c' =? c
                  | CHECK _ _ => false
                  end) (constraints tb) = false
    /\ existsb (fun ref : string * string * string * referential_action =>
                  match ref with (_, _, pc, _) => pc =? c end)
               (referencing schema t) = false
    /\ first_violation tb
         (map (fun r => fold_left (fun new f => run_trigger env f new)
                                  (before_update tb) (set_field r c v))
              (filter (fun r => value_eqb (field r k) kv) (rows db t))) = None
    /\ db' = set_rows db t
               (map (fun r =>
                       if value_eqb (field r k) kv
                       then fold_left (fun new f => run_trigger env f new)
                                      (before_update tb) (set_field r c v)
                       else r)
                    (rows db t)).
Proof.
  unfold update.
  destruct (find_table schema t) as [tb|]; [|discriminate].
  destruct (negb _); [discriminate|].
  destruct (existsb _ (constraints tb)) eqn:H1; [discriminate|].
  destruct (existsb _ (referencing schema t)) eqn:H2; [discriminate|].
  cbn [orb].
  match goal with
  | |- context [first_violation tb ?l] => destruct (first_violation tb l) eqn:Hf
  end; [discriminate|].
  intro H. injection H as <-. exists tb. repeat split; assumption.
Qed.

(** [appendMessage] is an INSERT followed by an UPDATE. *)
Lemma append_inversion (env : session) (db : database)
  (conversationId role content : value) (db' : database) :
  appendMessage env db conversationId role content = Normal db' ->
  exists db1,
    insert schema env db "chat_messages"
      [("conversation_id", conversationId); ("role", role); ("content", content)]
    = Normal db1
    /\ update schema env db1 "chat_conversations" "updated_at"
         (Time (current_time env)) "id" conversationId = Normal db'.
Proof.
  unfold appendMessage. intro H.
  assert (Hgo :
    match insert schema env db "chat_messages"
            [("conversation_id", conversationId); ("role", role); ("content", content)]
    with
    | Throw (datatype_mismatch | not_null_violation | check_violation) =>
        Throw ValidationError
    | Throw foreign_key_violation => Throw NotFoundError
    | Throw e => Throw (StoreError e)
    | Normal db1 =>
        match update schema env db1 "chat_conversations"
                "updated_at" (Time (current_time env)) "id" conversationId
        with
        | Normal db2 => Normal db2
        | Throw e => Throw (StoreError e)
        end
    end = Normal db').
  { destruct content as [|s| | |]; try exact H.
    destruct s; [discriminate|exact H]. }
  clear H.
  destruct (insert schema env db "chat_messages" _) as [db1|e].
  - exists db1. split; [reflexivity|].
    destruct (update schema env db1 _ _ _ _ _) as [db2|e]; [|discriminate].
    injection Hgo as <-. reflexivity.
  - destruct e; discriminate.
Qed.

(** A property of the empty store that INSERT, DELETE and UPDATE keep holds
    in every store the statements can produce. *)
Lemma reachable_invariant (P : database -> Prop) :
  P [] ->
  (forall env db t r db', P db -> insert schema env db t r = Normal db' -> P db') ->
  (forall db t c v db', P db -> delete schema db t c v = Normal db' -> P db') ->
  (forall env db t c v k kv db',
      P db -> update schema env db t c v k kv = Normal db' -> P db') ->
  forall db, reachable db -> P db.
Proof.
  intros H0 Hi Hd Hu db Hr.
  induction Hr as [|env db t r db' _ IH H|db t c v db' _ IH H
                   |env db t c v k kv db' _ IH H|env db cid role content db' _ IH H].
  - exact H0.
  - exact (Hi _ _ _ _ _ IH H).
  - exact (Hd _ _ _ _ _ IH H).
  - exact (Hu _ _ _ _ _ _ _ _ IH H).
  - destruct (append_inversion _ _ _ _ _ H) as [db1 [H1 H2]].
    exact (Hu _ _ _ _ _ _ _ _ (Hi _ _ _ _ _ IH H1) H2).
Qed.

Lemma produced_invariant (P : database -> Prop) :
  P [] ->
  (forall env db t r db', P db -> insert schema env db t r = Normal db' -> P db') ->
  (forall db t c v db', P db -> delete schema db t c v = Normal db' -> P db') ->
  (forall env db t c v k kv db',
      P db -> update schema env db t c v k kv = Normal db' -> P db') ->
  forall db, produced db -> P db.
Proof.
  intros H0 Hi Hd Hu db Hr.
  induction Hr as [|env db t r db' _ IH H|db t c v db' _ IH H
                   |env db t c v k kv db' _ IH H].
  - exact H0.
  - exact (Hi _ _ _ _ _ IH H).
  - exact (Hd _ _ _ _ _ IH H).
  - exact (Hu _ _ _ _ _ _ _ _ IH H).
Qed.

(** The stores the backend operations reach are among them. *)
Lemma reachable_produced (db : database) : reachable db -> produced db.
Proof.
  revert db. apply (@reachable_invariant produced).
  - constructor.
  - intros env db t r db' IH H. exact (produced_insert _ _ _ IH H).
  - intros db t c v db' IH H. exact (produced_delete _ _ _ IH H).
  - intros env db t c v k kv db' IH H. exact (produced_update _ _ _ _ _ _ IH H).
Qed.

Lemma store_with_chat_produced : produced store_with_chat.
Proof. exact (reachable_produced store_with_chat_reachable). Qed.

(** ** Every stored row satisfies its table *)

Lemma rows_checked_all (db : database) :
  produced db -> forall t, rows_checked db t.
Proof.
  revert db. apply (@produced_invariant (fun db => forall t, rows_checked db t)).
  - intros t tb r _ [].
  - intros env db t0 r0 db' IH H t tb r Ht Hin.
    destruct (insert_inversion _ _ _ _ H) as [tb0 [Ht0 [_ [Hv ->]]]].
    rewrite rows_set_rows in Hin.
    destruct (t0 =? t) eqn:E; [|exact (IH t tb r Ht Hin)].
    apply String.eqb_eq in E. subst t0.
    rewrite Ht in Ht0. injection Ht0 as <-.
    apply in_app_or in Hin. destruct Hin as [Hin|[<-|[]]].
    + exact (IH t tb r Ht Hin).
    + unfold violates in Hv. destruct (row_violates tb _); [discriminate|reflexivity].
  - intros db t0 c v db' IH H t tb r Ht Hin.
    apply (IH t tb r Ht).
    exact (delete_where_incl _ _ _ _ _ H t r Hin).
  - intros env db t0 c v k kv db' IH H t tb r Ht Hin.
    destruct (update_inversion _ _ _ _ _ _ _ H) as [tb0 [Ht0 [_ [_ [Hf ->]]]]].
    rewrite rows_set_rows in Hin.
    destruct (t0 =? t) eqn:E; [|exact (IH t tb r Ht Hin)].
    apply String.eqb_eq in E. subst t0.
    rewrite Ht in Ht0. injection Ht0 as <-.
    apply in_map_iff in Hin. destruct Hin as [r0 [<- Hr0]].
    destruct (value_eqb (field r0 k) kv) eqn:Hhit; [|exact (IH t tb r0 Ht Hr0)].
    apply (@first_violation_none tb _ Hf).
    apply in_map_iff. exists r0. split; [reflexivity|].
    apply filter_In. split; assumption.
Qed.

Lemma row_violates_none (tb : table) (r : row) :
  row_violates tb r = None ->
  (forall c, In c (columns tb) -> has_type (type c) (field r (name c)) = true)
  /\ (forall c, In c (columns tb) -> not_null c = true -> field r (name c) <> NULL)
  /\ (forall n k, In (n, k) (constraints tb) -> check_ok r k = true).
Proof.
  unfold row_violates. intro H.
  destruct (forallb (fun c => has_type (type c) (field r (name c))) (columns tb))
    eqn:H1; [|discriminate].
  destruct (forallb (fun c => negb (not_null c && is_null (field r (name c))))
                    (columns tb)) eqn:H2; [|discriminate].
  destruct (forallb (fun nk => check_ok r (snd nk)) (constraints tb))
    eqn:H3; [|discriminate].
  rewrite forallb_forall in H1, H2, H3.
  split; [exact H1|]. split.
  - intros c Hc Hn Hnull. specialize (H2 c Hc). rewrite Hn, Hnull in H2.
    discriminate.
  - intros n k Hk. exact (H3 (n, k) Hk).
Qed.

Lemma stored_rows_satisfy_columns_aux
  (db : database) (t : string) (tb : table) (r : row) :
  produced db ->
  find_table schema t = Some tb ->
  In r (rows db t) ->
  (forall c, In c (columns tb) -> has_type (type c) (field r (name c)) = true)
  /\ (forall c, In c (columns tb) -> not_null c = true -> field r (name c) <> NULL)
  /\ (forall n k, In (n, k) (constraints tb) -> check_ok r k = true).
Proof.
  intros Hr Ht Hin. apply row_violates_none.
  exact (@rows_checked_all db Hr t tb r Ht Hin).
Qed.

(** In every store the statements can produce, each value of each row has
    the type of its column, is not NULL where the column is declared
    NOT NULL (or is the primary key), and passes the CHECK on its
    column. *)
Theorem stored_rows_satisfy_columns
  (db : database) (t : string) (tb : table) (r : row) :
  produced db ->
  find_table schema t = Some tb ->
  In r (rows db t) ->
  (forall c, In c (columns tb) -> has_type (type c) (field r (name c)) = true)
  /\ (forall c, In c (columns tb) -> not_null c = true -> field r (name c) <> NULL)
  /\ (forall n k, In (n, k) (constraints tb) -> check_ok r k = true).
Proof.
  exact (@stored_rows_satisfy_columns_aux db t tb r).
Qed.

Lemma stored_rows_satisfy_columns_witness :
  produced store_with_chat
  /\ find_table schema "chat_messages" = Some messages_table
  /\ In message_m1 (rows store_with_chat "chat_messages")
  /\ ((forall c, In c (columns messages_table) ->
                 has_type (type c) (field message_m1 (name c)) = true)
      /\ (forall c, In c (columns messages_table) -> not_null c = true ->
                    field message_m1 (name c) <> NULL)
      /\ (forall n k, In (n, k) (constraints messages_table) ->
                      check_ok message_m1 k = true)).
Proof.
  assert (H1 : find_table schema "chat_messages" = Some messages_table)
    by reflexivity.
  assert (H2 : In message_m1 (rows store_with_chat "chat_messages"))
    by (left; reflexivity).
  split; [exact store_with_chat_produced|].
  split; [exact H1|]. split; [exact H2|].
  exact (@stored_rows_satisfy_columns store_with_chat "chat_messages" messages_table
           message_m1 store_with_chat_produced H1 H2).
Defined.

(** Every stored diagnosis has an integer identifier and a text, not NULL,
    for its video, file name, video URL, diagnosis result and solutions. *)
Theorem stored_diagnosis_is_filled (db : database) (d : row) :
  produced db ->
  In d (rows db "refrigerator_diagnoses") ->
  (exists z, field d "id" = Int z)
  /\ (exists s, field d "video_id" = Text s)
  /\ (exists s, field d "file_name" = Text s)
  /\ (exists s, field d "video_url" = Text s)
  /\ (exists s, field d "diagnosis_result" = Text s)
  /\ (exists s, field d "solutions" = Text s).
Proof.
  intros Hr Hin.
  assert (Ht : find_table schema "refrigerator_diagnoses" = Some diagnoses_table)
    by reflexivity.
  destruct (@stored_rows_satisfy_columns_aux db "refrigerator_diagnoses"
              diagnoses_table d Hr Ht Hin) as [Hty [Hnn _]].
  assert (Hcol : forall n ty,
             In {| name := n; type := ty; not_null := true; default :=
                     match ty with SERIAL => Some nextval | _ => None end |}
                (columns diagnoses_table) ->
             field d n <> NULL /\ has_type ty (field d n) = true).
  { intros n ty Hc. split.
    - exact (Hnn _ Hc eq_refl).
    - exact (Hty _ Hc). }
  assert (Htext : forall n,
             In {| name := n; type := TEXT; not_null := true; default := None |}
                (columns diagnoses_table) ->
             exists s, field d n = Text s).
  { intros n Hc. destruct (Hcol n TEXT Hc) as [Hn Ht'].
    destruct (field d n); try discriminate; [congruence|eexists; reflexivity]. }
  split.
  - destruct (Hcol "id" SERIAL) as [Hn Ht']; [left; reflexivity|].
    destruct (field d "id"); try discriminate; [congruence|eexists; reflexivity].
  - repeat split; apply Htext; simpl; tauto.
Qed.

Lemma stored_diagnosis_is_filled_witness :
  produced store_with_chat
  /\ In diagnosis_1 (rows store_with_chat "refrigerator_diagnoses")
  /\ ((exists z, field diagnosis_1 "id" = Int z)
      /\ (exists s, field diagnosis_1 "video_id" = Text s)
      /\ (exists s, field diagnosis_1 "file_name" = Text s)
      /\ (exists s, field diagnosis_1 "video_url" = Text s)
      /\ (exists s, field diagnosis_1 "diagnosis_result" = Text s)
      /\ (exists s, field diagnosis_1 "solutions" = Text s)).
Proof.
  assert (H : In diagnosis_1 (rows store_with_chat "refrigerator_diagnoses"))
    by (left; reflexivity).
  split; [exact store_with_chat_produced|]. split; [exact H|].
  exact (@stored_diagnosis_is_filled store_with_chat diagnosis_1
           store_with_chat_produced H).
Defined.

Lemma Normal_inj (E A : Type) (a b : A) : @Normal E A a = Normal b -> a = b.
Proof. intro H. injection H. auto. Qed.

(** The rows of each table after a DELETE. *)
Lemma delete_rows (db : database) (t c : string) (v : value) (q : string)
  (db' : database) :
  delete schema db t c v = Normal db' ->
  rows db' q
  = if t =? q
    then filter (fun r => negb (value_eqb (field r c) v)) (rows db q)
    else if ("chat_conversations" =? t) && ("chat_messages" =? q)
    then filter
           (fun m =>
              negb (negb (is_null (field m "conversation_id"))
                    && existsb (fun p => value_eqb (field p "id")
                                                   (field m "conversation_id"))
                               (filter (fun r => value_eqb (field r c) v)
                                       (rows db t))))
           (rows db q)
    else rows db q.
Proof.
  rewrite delete_schema, delete_where_schema. intro H.
  apply Normal_inj in H. subst db'. cbv zeta.
  destruct ("chat_conversations" =? t) eqn:E.
  - apply String.eqb_eq in E. subst t. rewrite !rows_set_rows.
    assert (Hne : ("chat_conversations" =? "chat_messages") = false) by reflexivity.
    rewrite Hne. cbn [andb].
    destruct ("chat_messages" =? q) eqn:E2.
    + apply String.eqb_eq in E2. subst q. rewrite Hne. reflexivity.
    + destruct ("chat_conversations" =? q) eqn:E3; [|reflexivity].
      apply String.eqb_eq in E3. subst q. reflexivity.
  - rewrite rows_set_rows. cbn [andb].
    destruct (t =? q) eqn:E2; [|reflexivity].
    apply String.eqb_eq in E2. subst q. reflexivity.
Qed.

(** ** Rows keep the columns of their table *)

Lemma set_field_keys (r : row) (c : string) (v : value) :
  map fst (set_field r c v) = map fst r.
Proof.
  induction r as [|[c' v'] r IH]; [reflexivity|].
  simpl. destruct (c' =? c); simpl; [reflexivity|]. rewrite IH. reflexivity.
Qed.

Lemma field_set_field_other (r : row) (c k : string) (v : value) :
  c <> k -> field (set_field r c v) k = field r k.
Proof.
  intro Hck. unfold field.
  induction r as [|[c' v'] r IH]; [reflexivity|].
  simpl. destruct (c' =? c) eqn:E; simpl.
  - apply String.eqb_eq in E. subst c'.
    destruct (c =? k) eqn:E'; [apply String.eqb_eq in E'; contradiction|reflexivity].
  - destruct (c' =? k); [reflexivity|exact IH].
Qed.

Lemma field_set_field_same (r : row) (c : string) (v : value) :
  In c (map fst r) -> field (set_field r c v) c = v.
Proof.
  unfold field. induction r as [|[c' v'] r IH]; [intros []|].
  intro Hin. simpl. destruct (c' =? c) eqn:E; simpl.
  - rewrite E. reflexivity.
  - rewrite E. apply IH. destruct Hin as [H|H]; [|exact H].
    simpl in H. subst c'. rewrite String.eqb_refl in E. discriminate.
Qed.

Lemma run_triggers_keys (env : session) (fs : list string) (r : row) :
  map fst (fold_left (fun new f => run_trigger env f new) fs r) = map fst r.
Proof.
  revert r; induction fs as [|f fs IH]; intro r; [reflexivity|].
  simpl. rewrite IH. unfold run_trigger.
  destruct (f =? "update_updated_at_column"); [apply set_field_keys|reflexivity].
Qed.

Lemma run_triggers_other (env : session) (fs : list string) (r : row) (k : string) :
  "updated_at" <> k ->
  field (fold_left (fun new f => run_trigger env f new) fs r) k = field r k.
Proof.
  intro Hk. revert r; induction fs as [|f fs IH]; intro r; [reflexivity|].
  simpl. rewrite IH. unfold run_trigger.
  destruct (f =? "update_updated_at_column");
    [apply field_set_field_other; exact Hk|reflexivity].
Qed.

(** Every stored row has exactly the columns of its table, in their
    order. *)
Lemma rows_have_columns (db : database) :
  produced db ->
  forall t tb r, find_table schema t = Some tb -> In r (rows db t) ->
                 map fst r = map name (columns tb).
Proof.
  revert db.
  apply (@produced_invariant
           (fun db => forall t tb r, find_table schema t = Some tb ->
                                     In r (rows db t) ->
                                     map fst r = map name (columns tb))).
  - intros t tb r _ [].
  - intros env db t0 r0 db' IH H t tb r Ht Hin.
    destruct (insert_inversion _ _ _ _ H) as [tb0 [Ht0 [_ [_ ->]]]].
    rewrite rows_set_rows in Hin.
    destruct (t0 =? t) eqn:E; [|exact (IH t tb r Ht Hin)].
    apply String.eqb_eq in E. subst t0.
    rewrite Ht in Ht0. injection Ht0 as <-.
    apply in_app_or in Hin. destruct Hin as [Hin|[<-|[]]].
    + exact (IH t tb r Ht Hin).
    + unfold complete. rewrite map_map. reflexivity.
  - intros db t0 c v db' IH H t tb r Ht Hin.
    apply (IH t tb r Ht).
    exact (delete_where_incl _ _ _ _ _ H t r Hin).
  - intros env db t0 c v k kv db' IH H t tb r Ht Hin.
    destruct (update_inversion _ _ _ _ _ _ _ H) as [tb0 [Ht0 [_ [_ [_ ->]]]]].
    rewrite rows_set_rows in Hin.
    destruct (t0 =? t) eqn:E; [|exact (IH t tb r Ht Hin)].
    apply String.eqb_eq in E. subst t0.
    rewrite Ht in Ht0. injection Ht0 as <-.
    apply in_map_iff in Hin. destruct Hin as [r0 [<- Hr0]].
    destruct (value_eqb (field r0 k) kv); [|exact (IH t tb r0 Ht Hr0)].
    rewrite run_triggers_keys, set_field_keys. exact (IH t tb r0 Ht Hr0).
Qed.

(** ** Primary keys *)

(** Every table of the schema has [id] as its primary key. *)
Lemma table_pkey (t : string) (tb : table) :
  find_table schema t = Some tb ->
  exists n, In (n, PKEY "id") (constraints tb).
Proof.
  unfold find_table.
  let s := eval vm_compute in schema in change schema with s.
  cbn [find table_name].
  repeat match goal with
         | |- context [if ?a =? t then _ else _] => destruct (a =? t)
         end;
    intro H; try discriminate; injection H as <-;
    eexists; cbn [constraints]; left; reflexivity.
Qed.

Lemma NoDup_map_filter (A B : Type) (g : A -> B) (f : A -> bool) (l : list A) :
  NoDup (map g l) -> NoDup (map g (filter f l)).
Proof.
  induction l as [|x l IH]; intro H; [constructor|].
  simpl in H. inversion H as [|? ? Hx Hl]; subst.
  simpl. destruct (f x); [|exact (IH Hl)].
  simpl. constructor; [|exact (IH Hl)].
  intro Hin. apply Hx. apply in_map_iff in Hin. destruct Hin as [y [Hy Hyl]].
  apply in_map_iff. exists y. split; [exact Hy|].
  apply filter_In in Hyl. tauto.
Qed.

(** In every store the statements can produce, no two rows of a table
    have the same [id]. *)
Theorem ids_are_unique (db : database) :
  produced db -> forall t, NoDup (ids (rows db t)).
Proof.
  revert db.
  apply (@produced_invariant (fun db => forall t, NoDup (ids (rows db t)))).
  - intro t. constructor.
  - intros env db t0 r0 db' IH H t.
    destruct (insert_inversion _ _ _ _ H) as [tb0 [Ht0 [_ [Hv ->]]]].
    rewrite rows_set_rows.
    destruct (t0 =? t) eqn:E; [|exact (IH t)].
    apply String.eqb_eq in E. subst t0.
    unfold ids. rewrite map_app. simpl.
    apply NoDup_app; [exact (IH t)|constructor; [intros []|constructor]|].
    intros x Hx [<-|[]].
    destruct (@table_pkey _ _ Ht0) as [n Hn].
    unfold violates in Hv.
    destruct (row_violates tb0 (complete env tb0 r0)); [discriminate|].
    destruct (forallb (fun nk => unique_ok (rows db t) (complete env tb0 r0) (snd nk))
                      (constraints tb0)) eqn:Hu; [|discriminate].
    rewrite forallb_forall in Hu. specialize (Hu _ Hn). cbn [snd unique_ok] in Hu.
    apply negb_true_iff in Hu.
    apply in_map_iff in Hx. destruct Hx as [r1 [Hr1 Hin1]].
    assert (Hex : existsb (fun r' => value_eqb (field r' "id")
                                       (field (complete env tb0 r0) "id"))
                    (rows db t) = true).
    { apply existsb_exists. exists r1. split; [exact Hin1|].
      rewrite Hr1. apply value_eqb_refl. }
    rewrite Hex in Hu. discriminate.
  - intros db t0 c v db' IH H t.
    rewrite (delete_rows _ _ _ _ t H).
    destruct (t0 =? t); [apply NoDup_map_filter; exact (IH t)|].
    destruct (("chat_conversations" =? t0) && ("chat_messages" =? t));
      [apply NoDup_map_filter|]; exact (IH t).
  - intros env db t0 c v k kv db' IH H t.
    destruct (update_inversion _ _ _ _ _ _ _ H) as [tb0 [Ht0 [Hkey [_ [_ ->]]]]].
    rewrite rows_set_rows.
    destruct (t0 =? t) eqn:E; [|exact (IH t)].
    apply String.eqb_eq in E. subst t0.
    destruct (@table_pkey _ _ Ht0) as [n Hn].
    assert (Hc : "id" <> c).
    { intro Hc. subst c.
      assert (Hex : existsb (fun nk : string * table_constraint =>
                               match snd nk with
                               | PKEY c' | FKEY c' _ _ _ => c' =? "id"
                               | CHECK _ _ => false
                               end) (constraints tb0) = true).
      { apply existsb_exists. exists (n, PKEY "id"). split; [exact Hn|reflexivity]. }
      rewrite Hex in Hkey. discriminate. }
    assert (Hids : ids (map (fun r =>
                        if value_eqb (field r k) kv
                        then fold_left (fun new f => run_trigger env f new)
                                       (before_update tb0) (set_field r c v)
                        else r) (rows db t))
                   = ids (rows db t)).
    { unfold ids. rewrite map_map. apply map_ext. intro r.
      destruct (value_eqb (field r k) kv); [|reflexivity].
      rewrite run_triggers_other by discriminate.
      apply field_set_field_other. intro Hc'. apply Hc. symmetry. exact Hc'. }
    rewrite Hids. exact (IH t).
Qed.

Lemma ids_are_unique_witness :
  produced store_with_chat
  /\ NoDup (ids (rows store_with_chat "chat_messages")).
Proof.
  split; [exact store_with_chat_produced|].
  exact (@ids_are_unique store_with_chat store_with_chat_produced "chat_messages").
Defined.

(** ** References *)

Lemma insert_rows (env : session) (db : database) (t : string) (r : row)
  (db' : database) (q : string) :
  insert schema env db t r = Normal db' ->
  exists tb,
    find_table schema t = Some tb
    /\ violates db tb (rows db t) (complete env tb r) = None
    /\ rows db' q = if t =? q then (rows db q ++ [complete env tb r])%list else rows db q.
Proof.
  intro H. destruct (insert_inversion _ _ _ _ H) as [tb [Ht [_ [Hv ->]]]].
  exists tb. split; [exact Ht|]. split; [exact Hv|].
  rewrite rows_set_rows. destruct (t =? q) eqn:E; [|reflexivity].
  apply String.eqb_eq in E. subst q. reflexivity.
Qed.

Lemma existsb_false_in (A : Type) (f : A -> bool) (l : list A) :
  existsb f l = false -> forall x, In x l -> f x = false.
Proof.
  intros H x Hin. destruct (f x) eqn:E; [|reflexivity].
  rewrite <- H. symmetry. apply existsb_exists. exists x. split; assumption.
Qed.

(** An UPDATE rewrites the rows of its table one by one and changes neither
    a primary key nor the conversation of a message. *)
Lemma update_rows (env : session) (db : database) (t c : string) (v : value)
  (k : string) (kv : value) (db' : database) (q : string) :
  update schema env db t c v k kv = Normal db' ->
  exists f : row -> row,
    rows db' q = map f (rows db q)
    /\ (forall r, field (f r) "id" = field r "id")
    /\ (q = "chat_messages" ->
        forall r, field (f r) "conversation_id" = field r "conversation_id").
Proof.
  intro H.
  destruct (update_inversion _ _ _ _ _ _ _ H) as [tb [Ht [Hkey [_ [_ ->]]]]].
  rewrite rows_set_rows.
  destruct (t =? q) eqn:E.
  - apply String.eqb_eq in E. subst q.
    assert (Hno : forall n col, In (n, col) (constraints tb) ->
                    match col with
                    | PKEY c' | FKEY c' _ _ _ => c' <> c
                    | CHECK _ _ => True
                    end).
    { intros n col Hin.
      pose proof (@existsb_false_in _ _ _ Hkey (n, col) Hin) as Hc.
      destruct col as [c'|c' a|c' rt rc a]; cbn [snd] in Hc; try exact I;
        intros Heq; subst c'; rewrite String.eqb_refl in Hc; discriminate. }
    exists (fun r => if value_eqb (field r k) kv
                     then fold_left (fun new f => run_trigger env f new)
                                    (before_update tb) (set_field r c v)
                     else r).
    split; [reflexivity|]. split.
    + intro r. destruct (value_eqb (field r k) kv); [|reflexivity].
      destruct (@table_pkey _ _ Ht) as [n Hn].
      rewrite run_triggers_other by discriminate.
      apply field_set_field_other. intro Hc. exact (Hno _ _ Hn (eq_sym Hc)).
    + intros -> r. destruct (value_eqb (field r k) kv); [|reflexivity].
      rewrite run_triggers_other by discriminate.
      apply field_set_field_other. intro Hc.
      assert (Hm : tb = messages_table).
      { assert (Ht' : find_table schema "chat_messages" = Some messages_table)
          by reflexivity.
        rewrite Ht in Ht'. injection Ht' as ->. reflexivity. }
      subst tb.
      apply (Hno "chat_messages_conversation_id_fkey"
                 (FKEY "conversation_id" "chat_conversations" "id" CASCADE));
        [simpl; tauto|symmetry; exact Hc].
  - exists (fun r => r). rewrite map_id. repeat split; reflexivity.
Qed.

Lemma messages_reference_conversations (db : database) :
  produced db ->
  forall m, In m (rows db "chat_messages") -> has_conversation db m.
Proof.
  revert db.
  apply (@produced_invariant
           (fun db => forall m, In m (rows db "chat_messages") ->
                                has_conversation db m)).
  - intros m [].
  - intros env db t0 r0 db' IH H m Hin.
    destruct (insert_rows _ _ _ _ "chat_messages" H) as [tb [Ht [Hv Hm]]].
    destruct (insert_rows _ _ _ _ "chat_conversations" H) as [tb' [_ [_ Hc]]].
    assert (Hold : forall m0, has_conversation db m0 -> has_conversation db' m0).
    { intros m0 [Hn [c0 [Hc0 Hid]]]. split; [exact Hn|].
      exists c0. split; [|exact Hid]. rewrite Hc.
      destruct (t0 =? "chat_conversations"); [apply in_or_app; left|]; exact Hc0. }
    rewrite Hm in Hin.
    destruct (t0 =? "chat_messages") eqn:E; [|exact (Hold m (IH m Hin))].
    apply in_app_or in Hin. destruct Hin as [Hin|[<-|[]]]; [exact (Hold m (IH m Hin))|].
    apply String.eqb_eq in E. subst t0.
    assert (Ht' : find_table schema "chat_messages" = Some messages_table)
      by reflexivity.
    rewrite Ht in Ht'. injection Ht' as ->.
    assert (Hcc : ("chat_messages" =? "chat_conversations") = false) by reflexivity.
    rewrite Hcc in Hc.
    unfold violates in Hv.
    destruct (row_violates messages_table (complete env messages_table r0))
      eqn:Hrow; [discriminate|].
    destruct (negb (forallb _ (constraints messages_table))); [discriminate|].
    match type of Hv with
    | (if negb (forallb ?f ?l) then _ else _) = _ =>
        destruct (forallb f l) eqn:Href; [|discriminate]
    end.
    destruct (row_violates_none _ _ Hrow) as [_ [Hnn _]].
    assert (Hnull : field (complete env messages_table r0) "conversation_id" <> NULL).
    { apply (Hnn {| name := "conversation_id"; type := TEXT; not_null := true;
                    default := None |}); [simpl; tauto|reflexivity]. }
    split; [exact Hnull|].
    rewrite forallb_forall in Href.
    assert (Hfk := Href ("chat_messages_conversation_id_fkey",
                         FKEY "conversation_id" "chat_conversations" "id" CASCADE)).
    cbn [snd reference_ok] in Hfk.
    assert (Hex : existsb (fun p => value_eqb (field p "id")
                             (field (complete env messages_table r0) "conversation_id"))
                    (rows db "chat_conversations") = true).
    { destruct (field (complete env messages_table r0) "conversation_id") eqn:Hf;
        [contradiction Hnull; reflexivity| | | |];
        apply Hfk; simpl; tauto. }
    apply existsb_exists in Hex. destruct Hex as [p [Hp Hid]].
    exists p. split; [rewrite Hc; exact Hp|].
    apply value_eqb_eq. exact Hid.
  - intros db t0 c v db' IH H m Hin.
    rewrite (delete_rows _ _ _ _ "chat_messages" H) in Hin.
    pose proof (delete_rows _ _ _ _ "chat_conversations" H) as Hc.
    destruct (t0 =? "chat_messages") eqn:E.
    + apply String.eqb_eq in E. subst t0.
      assert (Hcc : ("chat_messages" =? "chat_conversations") = false) by reflexivity.
      rewrite Hcc in Hc.
      assert (Hcc' : ("chat_conversations" =? "chat_messages") = false) by reflexivity.
      rewrite Hcc' in Hc. cbn [andb] in Hc.
      apply filter_In in Hin. destruct Hin as [Hin _].
      destruct (IH m Hin) as [Hn [c0 [Hc0 Hid]]].
      split; [exact Hn|]. exists c0. rewrite Hc. split; assumption.
    + destruct ("chat_conversations" =? t0) eqn:E2.
      * apply String.eqb_eq in E2. subst t0.
        rewrite String.eqb_refl in Hin, Hc. cbn [andb] in Hin.
        apply filter_In in Hin. destruct Hin as [Hin Hkeep].
        destruct (IH m Hin) as [Hn [c0 [Hc0 Hid]]].
        split; [exact Hn|]. exists c0. split; [|exact Hid].
        rewrite Hc. apply filter_In. split; [exact Hc0|].
        destruct (value_eqb (field c0 c) v) eqn:Hd; [|reflexivity].
        apply negb_true_iff in Hkeep.
        assert (Hnn : is_null (field m "conversation_id") = false)
          by (destruct (field m "conversation_id"); [contradiction Hn|..]; reflexivity).
        rewrite Hnn in Hkeep. cbn [negb andb] in Hkeep.
        assert (Hex : existsb (fun p => value_eqb (field p "id")
                                          (field m "conversation_id"))
                        (filter (fun r => value_eqb (field r c) v)
                                (rows db "chat_conversations")) = true).
        { apply existsb_exists. exists c0. split.
          - apply filter_In. split; assumption.
          - rewrite Hid. apply value_eqb_refl. }
        rewrite Hex in Hkeep. discriminate.
      * cbn [andb] in Hin, Hc.
        destruct (IH m Hin) as [Hn [c0 [Hc0 Hid]]].
        split; [exact Hn|]. exists c0. split; [|exact Hid].
        rewrite Hc. destruct (t0 =? "chat_conversations") eqn:E3; [|exact Hc0].
        apply String.eqb_eq in E3. subst t0. discriminate.
  - intros env db t0 c v k kv db' IH H m Hin.
    destruct (update_rows _ _ _ _ _ _ _ "chat_messages" H) as [f [Hm [_ Hcid]]].
    destruct (update_rows _ _ _ _ _ _ _ "chat_conversations" H) as [g [Hc [Hid _]]].
    rewrite Hm in Hin. apply in_map_iff in Hin. destruct Hin as [m0 [<- Hin]].
    destruct (IH m0 Hin) as [Hn [c0 [Hc0 Hc0id]]].
    unfold has_conversation. rewrite (Hcid eq_refl m0).
    split; [exact Hn|]. exists (g c0). split.
    + rewrite Hc. apply in_map. exact Hc0.
    + rewrite Hid. exact Hc0id.
Qed.

(** In every store the statements can produce, each message names a
    conversation that is in the store. *)
Theorem message_has_conversation (db : database) (m : row) :
  produced db ->
  In m (rows db "chat_messages") ->
  has_conversation db m.
Proof. intros Hr Hin. exact (@messages_reference_conversations db Hr m Hin). Qed.

Lemma message_has_conversation_witness :
  produced store_with_chat
  /\ In message_m1 (rows store_with_chat "chat_messages")
  /\ has_conversation store_with_chat message_m1.
Proof.
  assert (H : In message_m1 (rows store_with_chat "chat_messages"))
    by (left; reflexivity).
  split; [exact store_with_chat_produced|]. split; [exact H|].
  exact (@message_has_conversation store_with_chat message_m1
           store_with_chat_produced H).
Defined.

(** Every stored row has exactly the columns of its table, in the order
    of the table. *)
Theorem stored_row_has_columns (db : database) (t : string) (tb : table) (r : row) :
  produced db ->
  find_table schema t = Some tb ->
  In r (rows db t) ->
  map fst r = map name (columns tb).
Proof. intros Hr Ht Hin. exact (@rows_have_columns db Hr t tb r Ht Hin). Qed.

Lemma stored_row_has_columns_witness :
  produced store_with_chat
  /\ find_table schema "chat_conversations" = Some conversations_table
  /\ In conversation_c1 (rows store_with_chat "chat_conversations")
  /\ map fst conversation_c1 = map name (columns conversations_table).
Proof.
  assert (H1 : find_table schema "chat_conversations" = Some conversations_table)
    by reflexivity.
  assert (H2 : In conversation_c1 (rows store_with_chat "chat_conversations"))
    by (left; reflexivity).
  split; [exact store_with_chat_produced|].
  split; [exact H1|]. split; [exact H2|].
  exact (@stored_row_has_columns store_with_chat "chat_conversations"
           conversations_table conversation_c1 store_with_chat_produced H1 H2).
Defined.

(** ** Deleting a conversation *)

(** [DELETE FROM chat_conversations WHERE id = ...] succeeds; it removes
    the conversation with that identifier and exactly the messages that
    name it, and leaves every other table as it was. *)
Theorem deleting_a_conversation (db : database) (id : string) :
  produced db ->
  exists db',
    delete schema db "chat_conversations" "id" (Text id) = Normal db'
    /\ rows db' "chat_conversations"
       = filter (fun c => negb (value_eqb (field c "id") (Text id)))
                (rows db "chat_conversations")
    /\ rows db' "chat_messages"
       = filter (fun m => negb (value_eqb (field m "conversation_id") (Text id)))
                (rows db "chat_messages")
    /\ forall q, q <> "chat_conversations" -> q <> "chat_messages" ->
                 rows db' q = rows db q.
Proof.
  intro Hr.
  destruct (delete schema db "chat_conversations" "id" (Text id)) as [db'|e] eqn:H.
  2:{ rewrite delete_schema, delete_where_schema in H. discriminate. }
  exists db'. split; [reflexivity|].
  split; [|split].
  - rewrite (delete_rows _ _ _ _ "chat_conversations" H). reflexivity.
  - rewrite (delete_rows _ _ _ _ "chat_messages" H).
    assert (Hne : ("chat_conversations" =? "chat_messages") = false) by reflexivity.
    rewrite Hne, !String.eqb_refl. cbn [andb].
    apply filter_ext_in. intros m Hm. f_equal.
    destruct (@messages_reference_conversations db Hr m Hm) as [Hn [c0 [Hc0 Hid]]].
    assert (Hnn : is_null (field m "conversation_id") = false)
      by (destruct (field m "conversation_id"); [contradiction Hn|..]; reflexivity).
    rewrite Hnn. cbn [negb andb].
    destruct (value_eqb (field m "conversation_id") (Text id)) eqn:E.
    + apply value_eqb_eq in E. apply existsb_exists. exists c0. split.
      * apply filter_In. split; [exact Hc0|]. rewrite Hid, E. apply value_eqb_refl.
      * rewrite Hid. apply value_eqb_refl.
    + destruct (existsb _ _) eqn:Ex; [|reflexivity].
      apply existsb_exists in Ex. destruct Ex as [p [Hp Hpid]].
      apply filter_In in Hp. destruct Hp as [_ Hp].
      apply value_eqb_eq in Hp, Hpid.
      rewrite <- Hpid, Hp in E. rewrite value_eqb_refl in E. discriminate.
  - intros q Hq1 Hq2. rewrite (delete_rows _ _ _ _ q H).
    destruct ("chat_conversations" =? q) eqn:E1;
      [apply String.eqb_eq in E1; congruence|].
    destruct ("chat_messages" =? q) eqn:E2;
      [apply String.eqb_eq in E2; congruence|].
    rewrite andb_false_r. reflexivity.
Qed.

Lemma deleting_a_conversation_witness :
  produced store_with_chat
  /\ exists db',
       delete schema store_with_chat "chat_conversations" "id" (Text "c1") = Normal db'
       /\ rows db' "chat_conversations"
          = filter (fun c => negb (value_eqb (field c "id") (Text "c1")))
                   (rows store_with_chat "chat_conversations")
       /\ rows db' "chat_messages"
          = filter (fun m => negb (value_eqb (field m "conversation_id") (Text "c1")))
                   (rows store_with_chat "chat_messages")
       /\ forall q, q <> "chat_conversations" -> q <> "chat_messages" ->
                    rows db' q = rows store_with_chat q.
Proof.
  split; [exact store_with_chat_produced|].
  exact (@deleting_a_conversation store_with_chat "c1" store_with_chat_produced).
Defined.

(** ** Reading back what was inserted *)

Lemma given_In (r : row) (c : string) (v : value) : given r c = Some v -> In (c, v) r.
Proof.
  induction r as [|[c' v'] r IH]; [discriminate|].
  simpl. destruct (c' =? c) eqn:E.
  - apply String.eqb_eq in E. subst c'. intro H. injection H as ->. left. reflexivity.
  - intro H. right. exact (IH H).
Qed.

Lemma given_complete (env : session) (tb : table) (r : row) (x : string) :
  given (complete env tb r) x
  = match find (fun c => name c =? x) (columns tb) with
    | Some c => Some match given r x with
                     | Some v => v
                     | None => default_value env (default c)
                     end
    | None => None
    end.
Proof.
  unfold complete. induction (columns tb) as [|c cs IH]; [reflexivity|].
  cbn [map given find]. destruct (name c =? x) eqn:E; [|exact IH].
  apply String.eqb_eq in E. rewrite E. reflexivity.
Qed.

Lemma find_distinct (cs : list column) (c : column) :
  NoDup (map name cs) -> In c cs ->
  find (fun c' => name c' =? name c) cs = Some c.
Proof.
  induction cs as [|c0 cs IH]; [intros _ []|].
  intros Hnd Hin. simpl in Hnd. inversion Hnd as [|? ? Hc0 Hcs]; subst.
  cbn [find]. destruct Hin as [->|Hin]; [rewrite String.eqb_refl; reflexivity|].
  destruct (name c0 =? name c) eqn:E; [|exact (IH Hcs Hin)].
  apply String.eqb_eq in E. exfalso. apply Hc0. rewrite E.
  apply in_map. exact Hin.
Qed.

(** No table of the schema has two columns of the same name. *)
Lemma columns_distinct (t : string) (tb : table) :
  find_table schema t = Some tb -> NoDup (map name (columns tb)).
Proof.
  unfold find_table.
  let s := eval vm_compute in schema in change schema with s.
  cbn [find table_name].
  repeat match goal with
         | |- context [if ?a =? t then _ else _] => destruct (a =? t)
         end;
    intro H; try discriminate; injection H as <-;
    cbn [columns map name];
    repeat (constructor;
            [let Hin := fresh in
             intro Hin; cbn [In] in Hin;
             repeat (destruct Hin as [Hin|Hin]; [discriminate Hin|]); exact Hin|]);
    constructor.
Qed.

(** After an INSERT the table has one more row, at its end: it has the
    values the statement gave and the default of every column the statement
    left out; the other tables are as they were. *)
Theorem inserted_row_is_read_back (env : session) (db : database) (t : string)
  (r : row) (db' : database) (tb : table) :
  insert schema env db t r = Normal db' ->
  find_table schema t = Some tb ->
  exists stored,
    rows db' t = (rows db t ++ [stored])%list
    /\ (forall c v, given r c = Some v -> field stored c = v)
    /\ (forall c, In c (columns tb) -> given r (name c) = None ->
                  field stored (name c) = default_value env (default c))
    /\ (forall q, q <> t -> rows db' q = rows db q).
Proof.
  intros H Ht.
  destruct (insert_inversion _ _ _ _ H) as [tb0 [Ht0 [Hcols [_ ->]]]].
  rewrite Ht in Ht0. injection Ht0 as <-.
  exists (complete env tb r). split; [|split; [|split]].
  - rewrite rows_set_rows, String.eqb_refl. reflexivity.
  - intros c v Hg. unfold field. rewrite given_complete, Hg.
    rewrite forallb_forall in Hcols.
    pose proof (Hcols (c, v) (given_In _ _ Hg)) as Hex. cbn [fst] in Hex.
    destruct (find (fun c0 => name c0 =? c) (columns tb)) eqn:Hf; [reflexivity|].
    apply existsb_exists in Hex. destruct Hex as [c0 [Hc0 Hn]].
    rewrite (find_none _ _ Hf c0 Hc0) in Hn. discriminate.
  - intros c Hc Hg. unfold field. rewrite given_complete, Hg.
    rewrite (@find_distinct _ _ (@columns_distinct _ _ Ht) Hc). reflexivity.
  - intros q Hq. rewrite rows_set_rows.
    destruct (t =? q) eqn:E; [|reflexivity].
    apply String.eqb_eq in E. congruence.
Qed.

Lemma inserted_row_is_read_back_witness :
  insert schema (at_time "m2" 40 2) store_with_chat "chat_messages"
    [("conversation_id", Text "c1"); ("role", Text "assistant");
     ("content", Text "check the drain pan")]
  = Normal (set_rows store_with_chat "chat_messages"
              [message_m1;
               [("id", Text "m2"); ("conversation_id", Text "c1");
                ("role", Text "assistant"); ("content", Text "check the drain pan");
                ("created_at", Time 40)]])
  /\ find_table schema "chat_messages" = Some messages_table
  /\ exists stored,
       rows (set_rows store_with_chat "chat_messages"
               [message_m1;
                [("id", Text "m2"); ("conversation_id", Text "c1");
                 ("role", Text "assistant"); ("content", Text "check the drain pan");
                 ("created_at", Time 40)]]) "chat_messages"
       = (rows store_with_chat "chat_messages" ++ [stored])%list
       /\ (forall c v,
              given [("conversation_id", Text "c1"); ("role", Text "assistant");
                     ("content", Text "check the drain pan")] c = Some v ->
              field stored c = v)
       /\ (forall c, In c (columns messages_table) ->
              given [("conversation_id", Text "c1"); ("role", Text "assistant");
                     ("content", Text "check the drain pan")] (name c) = None ->
              field stored (name c)
              = default_value (at_time "m2" 40 2) (default c))
       /\ (forall q, q <> "chat_messages" ->
              rows (set_rows store_with_chat "chat_messages"
                      [message_m1;
                       [("id", Text "m2"); ("conversation_id", Text "c1");
                        ("role", Text "assistant");
                        ("content", Text "check the drain pan");
                        ("created_at", Time 40)]]) q
              = rows store_with_chat q).
Proof.
  assert (H1 : insert schema (at_time "m2" 40 2) store_with_chat "chat_messages"
                 [("conversation_id", Text "c1"); ("role", Text "assistant");
                  ("content", Text "check the drain pan")]
               = Normal (set_rows store_with_chat "chat_messages"
                           [message_m1;
                            [("id", Text "m2"); ("conversation_id", Text "c1");
                             ("role", Text "assistant");
                             ("content", Text "check the drain pan");
                             ("created_at", Time 40)]]))
    by (vm_compute; reflexivity).
  assert (H2 : find_table schema "chat_messages" = Some messages_table)
    by reflexivity.
  split; [exact H1|]. split; [exact H2|].
  exact (@inserted_row_is_read_back _ _ _ _ _ _ H1 H2).
Defined.

(** ** The trigger on conversations *)

(** An UPDATE of [chat_conversations] whose WHERE clause compares a column
    of the table with a value of that column's type that is not NULL:
    every row it touches gets the time of the statement as its
    [updated_at], also when the statement sets [updated_at] itself; the
    rows it does not touch, among them those whose value in that column is
    NULL, stay as they were. *)
Theorem conversation_update_is_stamped (env : session) (db : database)
  (c : string) (v : value) (key : column) (kv : value) (db' : database) :
  produced db ->
  In key (columns conversations_table) ->
  has_type (type key) kv = true ->
  kv <> NULL ->
  update schema env db "chat_conversations" c v (name key) kv = Normal db' ->
  rows db' "chat_conversations"
  = map (fun r => if value_eqb (field r (name key)) kv then touched env c v r else r)
        (rows db "chat_conversations")
  /\ (forall r, In r (rows db "chat_conversations") ->
                field (touched env c v r) "updated_at" = Time (current_time env))
  /\ (forall r, In r (rows db "chat_conversations") ->
                field r (name key) = NULL ->
                In r (rows db' "chat_conversations")).
Proof.
  intros Hr Hk Hty Hkv H.
  assert (Ht : find_table schema "chat_conversations" = Some conversations_table)
    by reflexivity.
  assert (Hrows : rows db' "chat_conversations"
                  = map (fun r => if value_eqb (field r (name key)) kv
                                  then touched env c v r else r)
                        (rows db "chat_conversations")).
  { destruct (update_inversion _ _ _ _ _ _ _ H) as [tb [Ht0 [_ [_ [_ ->]]]]].
    rewrite Ht in Ht0. injection Ht0 as <-.
    rewrite rows_set_rows, String.eqb_refl. reflexivity. }
  split; [exact Hrows|]. split.
  - intros r Hin. unfold touched. apply field_set_field_same.
    rewrite set_field_keys, (@rows_have_columns db Hr _ _ r Ht Hin).
    simpl. tauto.
  - intros r Hin Hnull. rewrite Hrows. apply in_map_iff. exists r.
    split; [|exact Hin]. rewrite Hnull.
    destruct kv; try reflexivity. contradiction Hkv. reflexivity.
Qed.

Lemma conversation_update_is_stamped_witness :
  produced store_with_chat
  /\ In {| name := "id"; type := TEXT; not_null := true;
           default := Some gen_random_uuid |} (columns conversations_table)
  /\ has_type TEXT (Text "c1") = true
  /\ Text "c1" <> NULL
  /\ update schema (at_time "u" 40 2) store_with_chat "chat_conversations"
       "updated_at" (Time 7) "id" (Text "c1")
     = Normal (set_rows store_with_chat "chat_conversations"
                 [set_field conversation_c1 "updated_at" (Time 40)])
  /\ rows (set_rows store_with_chat "chat_conversations"
             [set_field conversation_c1 "updated_at" (Time 40)]) "chat_conversations"
     = map (fun r => if value_eqb (field r "id") (Text "c1")
                     then touched (at_time "u" 40 2) "updated_at" (Time 7) r else r)
           (rows store_with_chat "chat_conversations")
  /\ (forall r, In r (rows store_with_chat "chat_conversations") ->
                field (touched (at_time "u" 40 2) "updated_at" (Time 7) r) "updated_at"
                = Time (current_time (at_time "u" 40 2)))
  /\ (forall r, In r (rows store_with_chat "chat_conversations") ->
                field r "id" = NULL ->
                In r (rows (set_rows store_with_chat "chat_conversations"
                              [set_field conversation_c1 "updated_at" (Time 40)])
                           "chat_conversations")).
Proof.
  assert (Hk : In {| name := "id"; type := TEXT; not_null := true;
                     default := Some gen_random_uuid |}
                  (columns conversations_table))
    by (simpl; tauto).
  assert (Hty : has_type TEXT (Text "c1") = true) by reflexivity.
  assert (Hkv : Text "c1" <> NULL) by discriminate.
  assert (H : update schema (at_time "u" 40 2) store_with_chat "chat_conversations"
                "updated_at" (Time 7) "id" (Text "c1")
              = Normal (set_rows store_with_chat "chat_conversations"
                          [set_field conversation_c1 "updated_at" (Time 40)]))
    by (vm_compute; reflexivity).
  split; [exact store_with_chat_produced|]. split; [exact Hk|]. split; [exact Hty|].
  split; [exact Hkv|]. split; [exact H|].
  exact (@conversation_update_is_stamped (at_time "u" 40 2) store_with_chat
           "updated_at" (Time 7)
           {| name := "id"; type := TEXT; not_null := true;
              default := Some gen_random_uuid |}
           (Text "c1") _ store_with_chat_produced Hk Hty Hkv H).
Defined.

End IntegrityFacts.

(* ================================================================== *)
(** * Deleting a diagnosis *)
(* ================================================================== *)

Module DeleteFacts.
Import Schema StoreFacts Samples Integrity IntegrityFacts.
Local Open Scope string_scope.





(** On the sample store: the diagnosis, its conversation and the message of
    that conversation all go; a second delete finds nothing. *)
Lemma sample_diagnosis_delete :
  delete_diagnosis store_with_chat 1
  = Normal [("refrigerator_diagnoses", []); ("chat_conversations", []);
            ("chat_messages", [])]
  /\ delete_diagnosis [("refrigerator_diagnoses", []); ("chat_conversations", []);
                       ("chat_messages", [])] 1
     = Throw NotFoundError.
Proof. split; reflexivity. Qed.

End DeleteFacts.

(* ================================================================== *)
(** * The history pages and the health check *)
(* ================================================================== *)

Module PageFacts.
Import Effects.

(** ** [truncateContent] *)

Lemma firstn_firstn_app (k : nat) (c x : js_string) :
  (k <= List.length c)%nat -> firstn k (firstn k c ++ x) = firstn k c.
Proof.
  intro Hk. rewrite firstn_app, firstn_firstn, Nat.min_id.
  rewrite firstn_length_le by exact Hk.
  rewrite Nat.sub_diag. cbn [firstn]. apply app_nil_r.
Qed.

(** The result of [truncateContent] has at most [maxLength] units and the
    three dots, and begins as [content] does. *)
Theorem truncateContent_bound (content : js_string) (maxLength : Z) :
  (List.length (HistoryPage.truncateContent content maxLength)
   <= Z.to_nat maxLength + 3)%nat
  /\ firstn (Z.to_nat maxLength) (HistoryPage.truncateContent content maxLength)
     = firstn (Z.to_nat maxLength) content.
Proof.
  unfold HistoryPage.truncateContent, HistoryPage.substring_to.
  destruct (Z.leb_spec (Z.of_nat (List.length content)) maxLength) as [H|H].
  - split; [lia|reflexivity].
  - split.
    + rewrite length_app, length_firstn. cbn. lia.
    + apply firstn_firstn_app. lia.
Qed.

Lemma truncateContent_short (content : js_string) (maxLength : Z) :
  (Z.of_nat (List.length content) <= maxLength)%Z ->
  HistoryPage.truncateContent content maxLength = content.
Proof.
  intro H. unfold HistoryPage.truncateContent.
  destruct (Z.leb_spec (Z.of_nat (List.length content)) maxLength); [reflexivity|lia].
Qed.

Lemma truncateContent_long (content : js_string) (maxLength : Z) :
  (maxLength < Z.of_nat (List.length content))%Z ->
  HistoryPage.truncateContent content maxLength
  = firstn (Z.to_nat maxLength) content ++ lit "...".
Proof.
  intro H. unfold HistoryPage.truncateContent, HistoryPage.substring_to.
  destruct (Z.leb_spec (Z.of_nat (List.length content)) maxLength); [lia|reflexivity].
Qed.

(** Truncating what is already truncated changes nothing. *)
Theorem truncateContent_idempotent (content : js_string) (maxLength : Z) :
  HistoryPage.truncateContent (HistoryPage.truncateContent content maxLength) maxLength
  = HistoryPage.truncateContent content maxLength.
Proof.
  destruct (Z.leb_spec (Z.of_nat (List.length content)) maxLength) as [H|H].
  - rewrite (truncateContent_short _ H). exact (truncateContent_short _ H).
  - rewrite (truncateContent_long _ H).
    assert (Hlen : List.length (firstn (Z.to_nat maxLength) content ++ lit "...")
                   = (Z.to_nat maxLength + 3)%nat).
    { rewrite length_app, length_firstn. cbn. lia. }
    rewrite truncateContent_long by (rewrite Hlen; lia).
    rewrite firstn_firstn_app by lia. reflexivity.
Qed.

(** A text a little longer than the limit comes out longer than it went
    in. *)
Theorem truncateContent_lengthens (content : js_string) (maxLength : Z) :
  (0 <= maxLength)%Z ->
  (maxLength < Z.of_nat (List.length content) < maxLength + 3)%Z ->
  (List.length content
   < List.length (HistoryPage.truncateContent content maxLength))%nat.
Proof.
  intros H0 [H1 H2].
  unfold HistoryPage.truncateContent, HistoryPage.substring_to.
  destruct (Z.leb_spec (Z.of_nat (List.length content)) maxLength) as [H|H]; [lia|].
  rewrite length_app, length_firstn. cbn. lia.
Qed.

Lemma truncateContent_lengthens_witness :
  (0 <= 3)%Z
  /\ (3 < Z.of_nat (List.length (lit "leak")) < 3 + 3)%Z
  /\ (List.length (lit "leak")
      < List.length (HistoryPage.truncateContent (lit "leak") 3))%nat.
Proof.
  assert (H0 : (0 <= 3)%Z) by lia.
  assert (H1 : (3 < Z.of_nat (List.length (lit "leak")) < 3 + 3)%Z) by (cbn; lia).
  split; [exact H0|]. split; [exact H1|].
  exact (@truncateContent_lengthens (lit "leak") 3 H0 H1).
Defined.

(** ** Loading the history *)

Ltac run_history :=
  cbv beta iota zeta
      delta [HistoryPage.fetchHistory try_finally try_catch bind throw update call await
             Config.await HistoryPage.setLoading HistoryPage.setError
             HistoryPage.setDiagnoses negb
             HistoryPage.loading HistoryPage.error HistoryPage.diagnoses].

(** [fetchHistory] never throws and always ends with [loading] off.  The
    list is replaced only when the call succeeds and the body is JSON
    whose [diagnoses] can be read; otherwise a message is set and the list
    that was shown stays. *)
Theorem fetchHistory_settles (env : option js_string) (fetch : network)
  (st : HistoryPage.state) :
  exists st',
    HistoryPage.fetchHistory env fetch st = (Normal tt, st')
    /\ HistoryPage.loading st' = false
    /\ ((exists response data d,
            fetch (Config.getApiUrl env Config.ENDPOINTS.HISTORY) no_options
            = Normal response
            /\ ok response = true
            /\ Response_json response = Normal data
            /\ Config.get data "diagnoses" = Normal d
            /\ HistoryPage.error st' = None
            /\ HistoryPage.diagnoses st' = or_else d (Some (JArray [])))
        \/ (exists message,
               HistoryPage.error st' = Some message
               /\ HistoryPage.diagnoses st' = HistoryPage.diagnoses st)).
Proof.
  run_history.
  destruct (fetch (Config.getApiUrl env Config.ENDPOINTS.HISTORY) no_options)
    as [response|e] eqn:Hf; run_history.
  2:{ eexists. split; [reflexivity|]. split; [reflexivity|].
      right. eexists. split; reflexivity. }
  destruct (ok response) eqn:Hok; run_history.
  2:{ eexists. split; [reflexivity|]. split; [reflexivity|].
      right. eexists. split; reflexivity. }
  destruct (Response_json response) as [data|e] eqn:Hj; run_history.
  2:{ eexists. split; [reflexivity|]. split; [reflexivity|].
      right. eexists. split; reflexivity. }
  destruct (Config.get data "diagnoses") as [d|e] eqn:Hg; run_history.
  2:{ eexists. split; [reflexivity|]. split; [reflexivity|].
      right. eexists. split; reflexivity. }
  eexists. split; [reflexivity|]. split; [reflexivity|].
  left. exists response, data, d. repeat split; assumption || reflexivity.
Qed.

(** ** Loading one diagnosis *)

Import HistoryDetailPage.

Ltac run_detail :=
  cbv beta iota zeta
      delta [fetchDiagnosis handleDeleteDiagnosis
             try_finally try_catch bind throw update call await Config.await
             setLoading setError setDiagnosis setIsDeleting push alert negb
             with_loading with_error with_diagnosis with_isDeleting with_push
             with_alert].

Lemma get_id (e : json) (v : jsval) (id : js_string) :
  Config.get e "id" = Normal v -> strict_eq_str v id = has_id id e.
Proof.
  destruct e; cbn; intro H; try (injection H as <-; reflexivity); discriminate.
Qed.

Lemma find_id_found (id : js_string) (elems : list json) (v : jsval) :
  find_id id elems = Normal v ->
  truthy v = true ->
  exists d, v = Some d /\ has_id id d = true /\ In d elems.
Proof.
  induction elems as [|e rest IH]; cbn [find_id].
  - intros H Ht. injection H as <-. discriminate.
  - destruct (Config.get e "id") as [w|err] eqn:Hg; [|discriminate].
    rewrite (get_id _ id Hg).
    destruct (has_id id e) eqn:Hid.
    + intros H _. injection H as <-. exists e. repeat split; [exact Hid|left; reflexivity].
    + intros H Ht. destruct (IH H Ht) as [d [Hv [Hd Hin]]].
      exists d. repeat split; [exact Hv|exact Hd|right; exact Hin].
Qed.

Lemma fetchDiagnosis_cases (env : option js_string) (fetch : network)
  (id : js_string) (st : state) :
  exists st',
    fetchDiagnosis env fetch id st = (Normal tt, st')
    /\ loading st' = false
    /\ ((exists response data elems d,
            fetch (Config.getApiUrl env Config.ENDPOINTS.HISTORY) no_options
            = Normal response
            /\ ok response = true
            /\ Response_json response = Normal data
            /\ Config.get data "diagnoses" = Normal (Some (JArray elems))
            /\ In d elems
            /\ has_id id d = true
            /\ error st' = None
            /\ diagnosis st' = Some d)
        \/ (exists message,
               error st' = Some message /\ diagnosis st' = diagnosis st)).
Proof.
  run_detail.
  destruct (fetch (Config.getApiUrl env Config.ENDPOINTS.HISTORY) no_options)
    as [response|e] eqn:Hf; run_detail.
  2:{ eexists. split; [reflexivity|]. split; [reflexivity|].
      right. eexists. split; reflexivity. }
  destruct (ok response) eqn:Hok; run_detail.
  2:{ eexists. split; [reflexivity|]. split; [reflexivity|].
      right. eexists. split; reflexivity. }
  destruct (Response_json response) as [data|e] eqn:Hj; run_detail.
  2:{ eexists. split; [reflexivity|]. split; [reflexivity|].
      right. eexists. split; reflexivity. }
  destruct (Config.get data "diagnoses") as [ds|e] eqn:Hg; run_detail.
  2:{ eexists. split; [reflexivity|]. split; [reflexivity|].
      right. eexists. split; reflexivity. }
  destruct (find_in ds id) as [found|e] eqn:Hfind; run_detail.
  2:{ eexists. split; [reflexivity|]. split; [reflexivity|].
      right. eexists. split; reflexivity. }
  destruct (truthy found) eqn:Ht; run_detail.
  2:{ eexists. split; [reflexivity|]. split; [reflexivity|].
      right. eexists. split; reflexivity. }
  eexists. split; [reflexivity|]. split; [reflexivity|].
  left. unfold find_in in Hfind.
  destruct ds as [[| | | |elems|]|]; try discriminate.
  destruct (find_id_found _ _ Hfind Ht) as [d [-> [Hd Hin]]].
  exists response, data, elems, d. repeat split; assumption || reflexivity.
Qed.

(** [fetchDiagnosis] never throws and always ends with [loading] off.
    Either no message is set and the diagnosis is an element of the list
    the backend returned, an object whose [id] is the string asked for; or
    a message is set and the diagnosis is the one that was there. *)
Theorem fetchDiagnosis_settles (env : option js_string) (fetch : network)
  (id : js_string) (st : state) :
  exists st',
    fetchDiagnosis env fetch id st = (Normal tt, st')
    /\ loading st' = false
    /\ ((exists response data elems d,
            fetch (Config.getApiUrl env Config.ENDPOINTS.HISTORY) no_options
            = Normal response
            /\ ok response = true
            /\ Response_json response = Normal data
            /\ Config.get data "diagnoses" = Normal (Some (JArray elems))
            /\ In d elems
            /\ has_id id d = true
            /\ error st' = None
            /\ diagnosis st' = Some d)
        \/ (exists message,
               error st' = Some message /\ diagnosis st' = diagnosis st)).
Proof. exact (fetchDiagnosis_cases env fetch id st). Qed.

(** [find] gives the first element that is an object with the [id] asked
    for, and only when no element before it is [null]. *)
Theorem find_id_is_first_match (id : js_string) (elems : list json) (d : json) :
  find_id id elems = Normal (Some d)
  <-> exists before after,
        elems = before ++ d :: after
        /\ has_id id d = true
        /\ Forall (fun e => e <> JNull /\ has_id id e = false) before.
Proof.
  split.
  - induction elems as [|e rest IH]; cbn [find_id]; [discriminate|].
    destruct (Config.get e "id") as [w|err] eqn:Hg; [|discriminate].
    rewrite (get_id _ id Hg).
    destruct (has_id id e) eqn:Hid.
    + intro H. injection H as <-. exists [], rest.
      repeat split; [exact Hid|constructor].
    + intro H. destruct (IH H) as [before [after [-> [Hd Hb]]]].
      exists (e :: before), after. repeat split; [exact Hd|].
      constructor; [|exact Hb]. split; [|exact Hid].
      intros ->. discriminate.
  - intros [before [after [-> [Hd Hb]]]].
    induction Hb as [|e before [Hn He] _ IH]; cbn [app find_id].
    + destruct (Config.get d "id") as [w|err] eqn:Hg.
      * rewrite (get_id _ id Hg), Hd. reflexivity.
      * destruct d; discriminate.
    + destruct (Config.get e "id") as [w|err] eqn:Hg.
      * rewrite (get_id _ id Hg), He. exact IH.
      * destruct e; try discriminate. contradiction Hn. reflexivity.
Qed.

Lemma find_id_is_first_match_witness :
  find_id (lit "8") [PageSamples.diagnosis_7; PageSamples.diagnosis_8]
  = Normal (Some PageSamples.diagnosis_8)
  <-> exists before after,
        [PageSamples.diagnosis_7; PageSamples.diagnosis_8]
        = before ++ PageSamples.diagnosis_8 :: after
        /\ has_id (lit "8") PageSamples.diagnosis_8 = true
        /\ Forall (fun e => e <> JNull /\ has_id (lit "8") e = false) before.
Proof.
  exact (@find_id_is_first_match (lit "8")
           [PageSamples.diagnosis_7; PageSamples.diagnosis_8] PageSamples.diagnosis_8).
Defined.

Lemma find_id_no_match (id : js_string) (elems : list json) :
  Forall (fun e => has_id id e = false) elems ->
  find_id id elems
  = if existsb is_null_element elems then Throw TypeError else Normal undefined.
Proof.
  induction 1 as [|e rest He _ IH]; cbn [find_id existsb]; [reflexivity|].
  destruct (Config.get e "id") as [w|err] eqn:Hg.
  - rewrite (get_id _ id Hg), He, IH.
    destruct e; try reflexivity. discriminate.
  - destruct e; try discriminate. cbn in Hg. injection Hg as <-. reflexivity.
Qed.

(** When no element of the list is an object whose [id] is the string
    asked for (an [id] that is a number does not count), the page keeps
    the diagnosis it had and sets a message: that the diagnosis was not
    found when no element is [null], and otherwise the message of the
    [TypeError] that reading [id] of the [null] element throws. *)
Theorem fetchDiagnosis_not_found (env : option js_string) (fetch : network)
  (id : js_string) (st : state) (response : Response) (data : json)
  (elems : list json) :
  fetch (Config.getApiUrl env Config.ENDPOINTS.HISTORY) no_options = Normal response ->
  ok response = true ->
  Response_json response = Normal data ->
  Config.get data "diagnoses" = Normal (Some (JArray elems)) ->
  Forall (fun e => has_id id e = false) elems ->
  fetchDiagnosis env fetch id st
  = (Normal tt,
     with_loading false
       (with_error
          (Some (if existsb is_null_element elems
                 then MessageOf TypeError
                 else Literal (lit "Refrigerator diagnosis not found")))
          (with_loading true st))).
Proof.
  intros Hf Hok Hj Hg Hall. run_detail.
  rewrite Hf. run_detail. rewrite Hok. run_detail. rewrite Hj. run_detail.
  rewrite Hg. run_detail. unfold find_in. rewrite (@find_id_no_match id elems Hall).
  destruct (existsb is_null_element elems); reflexivity.
Qed.

Lemma fetchDiagnosis_not_found_witness :
  Samples.always (Normal PageSamples.numbered)
    (Config.getApiUrl None Config.ENDPOINTS.HISTORY) no_options
  = Normal PageSamples.numbered
  /\ ok PageSamples.numbered = true
  /\ Response_json PageSamples.numbered
     = Normal (JObject [(lit "diagnoses",
                         JArray [JObject [(lit "id", JNumber 8 0);
                                          (lit "fileName", JString (lit "b.mp4"))]]);
                        (lit "total", JNumber 1 0)])
  /\ Config.get (JObject [(lit "diagnoses",
                           JArray [JObject [(lit "id", JNumber 8 0);
                                            (lit "fileName", JString (lit "b.mp4"))]]);
                          (lit "total", JNumber 1 0)]) "diagnoses"
     = Normal (Some (JArray [JObject [(lit "id", JNumber 8 0);
                                      (lit "fileName", JString (lit "b.mp4"))]]))
  /\ Forall (fun e => has_id (lit "8") e = false)
            [JObject [(lit "id", JNumber 8 0); (lit "fileName", JString (lit "b.mp4"))]]
  /\ fetchDiagnosis None (Samples.always (Normal PageSamples.numbered)) (lit "8") initial
     = (Normal tt,
        with_loading false
          (with_error
             (Some (if existsb is_null_element
                         [JObject [(lit "id", JNumber 8 0);
                                   (lit "fileName", JString (lit "b.mp4"))]]
                    then MessageOf TypeError
                    else Literal (lit "Refrigerator diagnosis not found")))
             (with_loading true initial))).
Proof.
  assert (H1 : Samples.always (Normal PageSamples.numbered)
                 (Config.getApiUrl None Config.ENDPOINTS.HISTORY) no_options
               = Normal PageSamples.numbered) by reflexivity.
  assert (H2 : ok PageSamples.numbered = true) by reflexivity.
  assert (H3 : Response_json PageSamples.numbered
               = Normal (JObject [(lit "diagnoses",
                                   JArray [JObject [(lit "id", JNumber 8 0);
                                                    (lit "fileName",
                                                     JString (lit "b.mp4"))]]);
                                  (lit "total", JNumber 1 0)]))
    by (vm_compute; reflexivity).
  assert (H4 : Config.get (JObject [(lit "diagnoses",
                                     JArray [JObject [(lit "id", JNumber 8 0);
                                                      (lit "fileName",
                                                       JString (lit "b.mp4"))]]);
                                    (lit "total", JNumber 1 0)]) "diagnoses"
               = Normal (Some (JArray [JObject [(lit "id", JNumber 8 0);
                                                (lit "fileName",
                                                 JString (lit "b.mp4"))]])))
    by (vm_compute; reflexivity).
  assert (H5 : Forall (fun e => has_id (lit "8") e = false)
                 [JObject [(lit "id", JNumber 8 0);
                           (lit "fileName", JString (lit "b.mp4"))]]).
  { constructor; [reflexivity|constructor]. }
  split; [exact H1|]. split; [exact H2|]. split; [exact H3|]. split; [exact H4|].
  split; [exact H5|].
  exact (@fetchDiagnosis_not_found None _ (lit "8") initial _ _ _ H1 H2 H3 H4 H5).
Defined.

(** The two messages, on a list without match: with and without a
    [null] element. *)
Lemma not_found_or_type_error (id : js_string) :
  find_id id [JNull] = Throw TypeError /\ find_id id [] = Normal undefined.
Proof. split; reflexivity. Qed.

(** ** Deleting the diagnosis *)

Lemma apiRequest_cases (env : option js_string) (fetch : network)
  (endpoint : js_string) (options : option RequestInit) :
  match fetch (Config.getApiUrl env endpoint) (Config.defaultOptions options) with
  | Normal response =>
      if ok response
      then Config.apiRequest env fetch endpoint options = Normal response
      else exists e, Config.apiRequest env fetch endpoint options = Throw e
  | Throw _ => exists e, Config.apiRequest env fetch endpoint options = Throw e
  end.
Proof.
  unfold Config.apiRequest.
  destruct (fetch (Config.getApiUrl env endpoint) (Config.defaultOptions options))
    as [response|e]; cbn [Config.await Config.bind].
  - destruct (ok response); cbn [negb]; [reflexivity|].
    destruct (Config.try_catch _ _) as [m|e]; cbn [Config.bind];
      eexists; reflexivity.
  - eexists. reflexivity.
Qed.

Lemma property_id (v : jsval) :
  truthy v = true -> property v "id" = Normal (id_of v).
Proof.
  destruct v as [[| | | | |]|]; cbn; intro H; try reflexivity; discriminate.
Qed.

Lemma handleDeleteDiagnosis_runs (env : option js_string) (fetch : network)
  (confirm : js_string -> bool) (ToString : jsval -> js_string) (st : state) :
  handleDeleteDiagnosis env fetch confirm ToString st
  = (Normal tt,
     if truthy (diagnosis st) && confirm confirm_text then
       with_isDeleting false
         (after_delete
            (fetch (delete_url env (template ToString (id_of (diagnosis st))))
                   delete_sent)
            (with_isDeleting true st))
     else st).
Proof.
  unfold handleDeleteDiagnosis.
  destruct (truthy (diagnosis st)) eqn:Ht; cbn [negb andb]; [|reflexivity].
  destruct (confirm confirm_text); cbn [negb]; [|reflexivity].
  run_detail. rewrite (property_id _ Ht).
  pose proof (apiRequest_cases env fetch
                (Config.ENDPOINTS.HISTORY ++ lit "/"
                 ++ template ToString (id_of (diagnosis st)))
                (Some delete_options)) as Hreq.
  change (Config.defaultOptions (Some delete_options)) with delete_sent in Hreq.
  unfold delete_url, after_delete.
  destruct (fetch _ delete_sent) as [response|e].
  - destruct (ok response).
    + rewrite Hreq. reflexivity.
    + destruct Hreq as [e ->]. reflexivity.
  - destruct Hreq as [e' ->]. reflexivity.
Qed.

(** [handleDeleteDiagnosis] never throws.  Without a diagnosis or without
    the user's confirmation it does nothing; otherwise it sends one DELETE
    for the diagnosis [id], goes to [/history] when the backend answers
    with a success status, shows the same fixed alert for every failure,
    and leaves [isDeleting] off. *)
Theorem handleDeleteDiagnosis_outcome (env : option js_string) (fetch : network)
  (confirm : js_string -> bool) (ToString : jsval -> js_string) (st : state) :
  handleDeleteDiagnosis env fetch confirm ToString st
  = (Normal tt,
     if truthy (diagnosis st) && confirm confirm_text then
       with_isDeleting false
         (after_delete
            (fetch (delete_url env (template ToString (id_of (diagnosis st))))
                   delete_sent)
            (with_isDeleting true st))
     else st).
Proof. exact (handleDeleteDiagnosis_runs env fetch confirm ToString st). Qed.

Lemma has_id_id_of (id : js_string) (d : json) :
  has_id id d = true -> id_of (Some d) = Some (JString id).
Proof.
  destruct d as [| | | | |props]; cbn [has_id id_of]; try discriminate.
  destruct (own_property (lit "id") props) as [[| | |s| |]|]; cbn [strict_eq_str];
    try discriminate.
  intro H. apply JsonFacts.str_eqb_eq in H. subst s. reflexivity.
Qed.

(** Once [fetchDiagnosis] has loaded the diagnosis asked for, a confirmed
    delete is sent to the history endpoint followed by that same
    identifier. *)
Theorem delete_after_load (env : option js_string) (fetch fetch' : network)
  (confirm : js_string -> bool) (ToString : jsval -> js_string)
  (id : js_string) (st0 st : state) :
  fetchDiagnosis env fetch id st0 = (Normal tt, st) ->
  error st = None ->
  confirm confirm_text = true ->
  handleDeleteDiagnosis env fetch' confirm ToString st
  = (Normal tt,
     with_isDeleting false
       (after_delete (fetch' (delete_url env id) delete_sent)
          (with_isDeleting true st))).
Proof.
  intros Hload Herr Hyes.
  destruct (fetchDiagnosis_cases env fetch id st0) as [st' [Hrun [_ Hcases]]].
  rewrite Hload in Hrun. injection Hrun as <-.
  destruct Hcases as [[response [data [elems [d [_ [_ [_ [_ [_ [Hid [_ Hd]]]]]]]]]]]
                     |[message [Hm _]]].
  2:{ rewrite Herr in Hm. discriminate. }
  rewrite handleDeleteDiagnosis_runs, Hd, Hyes, (has_id_id_of _ _ Hid).
  assert (Ht : truthy (Some d) = true) by (destruct d; try discriminate; reflexivity).
  rewrite Ht. reflexivity.
Qed.

Lemma delete_after_load_witness :
  fetchDiagnosis None (Samples.always (Normal PageSamples.history)) (lit "8") initial
  = (Normal tt, PageSamples.loaded)
  /\ error PageSamples.loaded = None
  /\ PageSamples.yes confirm_text = true
  /\ handleDeleteDiagnosis None (Samples.always (Normal PageSamples.deleted))
       PageSamples.yes PageSamples.plain PageSamples.loaded
     = (Normal tt,
        with_isDeleting false
          (after_delete
             (Samples.always (Normal PageSamples.deleted)
                (delete_url None (lit "8")) delete_sent)
             (with_isDeleting true PageSamples.loaded))).
Proof.
  assert (H1 : fetchDiagnosis None (Samples.always (Normal PageSamples.history))
                 (lit "8") initial
               = (Normal tt, PageSamples.loaded)) by (vm_compute; reflexivity).
  assert (H2 : error PageSamples.loaded = None) by reflexivity.
  assert (H3 : PageSamples.yes confirm_text = true) by reflexivity.
  split; [exact H1|]. split; [exact H2|]. split; [exact H3|].
  exact (@delete_after_load None _ (Samples.always (Normal PageSamples.deleted))
           PageSamples.yes PageSamples.plain (lit "8") initial PageSamples.loaded
           H1 H2 H3).
Defined.

(** ** The health check of the component *)

Ltac run_health :=
  cbv beta iota zeta
      delta [BackendHealthCheck.checkHealth BackendHealthCheck.setStatus
             try_catch bind throw update call await Config.await].

Lemma checkHealth_cases (env : option js_string) (fetch : network) (now : Z)
  (statusText : Response -> js_string) (st : BackendHealthCheck.BackendStatus) :
  exists st',
    BackendHealthCheck.checkHealth env fetch now statusText st = (Normal tt, st')
    /\ BackendHealthCheck.isChecking st' = false
    /\ BackendHealthCheck.lastChecked st' = Some now
    /\ ((exists response data,
            fetch (Config.getApiUrl env Config.ENDPOINTS.HEALTH) Config.health_request
            = Normal response
            /\ ok response = true
            /\ Response_json response = Normal data
            /\ BackendHealthCheck.isHealthy st' = true
            /\ BackendHealthCheck.error st' = None
            /\ BackendHealthCheck.response st' = Some data)
        \/ (exists message,
               (forall response,
                   fetch (Config.getApiUrl env Config.ENDPOINTS.HEALTH)
                         Config.health_request = Normal response ->
                   ok response = true ->
                   exists e, Response_json response = Throw e)
               /\ BackendHealthCheck.isHealthy st' = false
               /\ BackendHealthCheck.error st' = Some message
               /\ BackendHealthCheck.response st' = Some JNull)).
Proof.
  run_health.
  change (fetch (Config.getApiUrl env (lit "/health"))
                {| method := Some (lit "GET");
                   headers := Some [(lit "Content-Type", lit "application/json")];
                   request_body := None |})
    with (fetch (Config.getApiUrl env Config.ENDPOINTS.HEALTH) Config.health_request).
  destruct (fetch (Config.getApiUrl env Config.ENDPOINTS.HEALTH) Config.health_request)
    as [response|e] eqn:Hf; run_health.
  2:{ eexists. split; [reflexivity|]. split; [reflexivity|]. split; [reflexivity|].
      right. eexists. split; [intros r Hr; discriminate|].
      repeat split; reflexivity. }
  destruct (ok response) eqn:Hok; run_health.
  2:{ eexists. split; [reflexivity|]. split; [reflexivity|]. split; [reflexivity|].
      right. eexists. split.
      - intros r Hr Hokr. injection Hr as <-. rewrite Hok in Hokr. discriminate.
      - repeat split; reflexivity. }
  destruct (Response_json response) as [data|e] eqn:Hj; run_health.
  - eexists. split; [reflexivity|]. split; [reflexivity|]. split; [reflexivity|].
    left. exists response, data. repeat split; assumption || reflexivity.
  - eexists. split; [reflexivity|]. split; [reflexivity|]. split; [reflexivity|].
    right. eexists. split.
    + intros r Hr _. injection Hr as <-. exists e. exact Hj.
    + repeat split; reflexivity.
Qed.

(** [checkHealth] never throws; it ends with [isChecking] off and the time
    of the check recorded.  The backend is shown healthy exactly when the
    call succeeds with a success status and a body that is JSON; the body
    is then kept.  In every other case a message is set and the kept
    response is [null]. *)
Theorem checkHealth_settles (env : option js_string) (fetch : network) (now : Z)
  (statusText : Response -> js_string) (st : BackendHealthCheck.BackendStatus) :
  exists st',
    BackendHealthCheck.checkHealth env fetch now statusText st = (Normal tt, st')
    /\ BackendHealthCheck.isChecking st' = false
    /\ BackendHealthCheck.lastChecked st' = Some now
    /\ ((exists response data,
            fetch (Config.getApiUrl env Config.ENDPOINTS.HEALTH) Config.health_request
            = Normal response
            /\ ok response = true
            /\ Response_json response = Normal data
            /\ BackendHealthCheck.isHealthy st' = true
            /\ BackendHealthCheck.error st' = None
            /\ BackendHealthCheck.response st' = Some data)
        \/ (exists message,
               (forall response,
                   fetch (Config.getApiUrl env Config.ENDPOINTS.HEALTH)
                         Config.health_request = Normal response ->
                   ok response = true ->
                   exists e, Response_json response = Throw e)
               /\ BackendHealthCheck.isHealthy st' = false
               /\ BackendHealthCheck.error st' = Some message
               /\ BackendHealthCheck.response st' = Some JNull)).
Proof. exact (checkHealth_cases env fetch now statusText st). Qed.

(** When the component shows the backend healthy, [checkBackendHealth]
    of the library agrees. *)
Theorem healthy_component_healthy_backend (env : option js_string) (fetch : network)
  (now : Z) (statusText : Response -> js_string)
  (st : BackendHealthCheck.BackendStatus) :
  BackendHealthCheck.isHealthy
    (snd (BackendHealthCheck.checkHealth env fetch now statusText st)) = true ->
  Config.checkBackendHealth env fetch = Normal true.
Proof.
  intro H.
  destruct (checkHealth_cases env fetch now statusText st)
    as [st' [Hrun [_ [_ [[response [data [Hf [Hok _]]]]|[m [_ [Hno _]]]]]]]];
    rewrite Hrun in H; cbn [snd] in H.
  - unfold Config.checkBackendHealth. rewrite Hf. cbn. rewrite Hok. reflexivity.
  - rewrite Hno in H. discriminate.
Qed.

Lemma healthy_component_healthy_backend_witness :
  BackendHealthCheck.isHealthy
    (snd (BackendHealthCheck.checkHealth None
            (Samples.always (Normal PageSamples.healthy)) 50
            PageSamples.reason_phrase BackendHealthCheck.initial)) = true
  /\ Config.checkBackendHealth None (Samples.always (Normal PageSamples.healthy))
     = Normal true.
Proof.
  assert (H : BackendHealthCheck.isHealthy
                (snd (BackendHealthCheck.checkHealth None
                        (Samples.always (Normal PageSamples.healthy)) 50
                        PageSamples.reason_phrase BackendHealthCheck.initial)) = true)
    by (vm_compute; reflexivity).
  split; [exact H|].
  exact (@healthy_component_healthy_backend None _ 50 PageSamples.reason_phrase
           BackendHealthCheck.initial H).
Defined.

(** The converse fails: for an answer with a success status whose body is
    not JSON, [checkBackendHealth] says healthy and the component shows the
    backend unhealthy, with the message of the failed read. *)
Theorem success_status_without_json (env : option js_string) (fetch : network)
  (now : Z) (statusText : Response -> js_string)
  (st : BackendHealthCheck.BackendStatus) (response : Response) (e : raised) :
  fetch (Config.getApiUrl env Config.ENDPOINTS.HEALTH) Config.health_request
  = Normal response ->
  ok response = true ->
  Response_json response = Throw e ->
  Config.checkBackendHealth env fetch = Normal true
  /\ BackendHealthCheck.checkHealth env fetch now statusText st
     = (Normal tt,
        {| BackendHealthCheck.isHealthy := false;
           BackendHealthCheck.isChecking := false;
           BackendHealthCheck.lastChecked := Some now;
           BackendHealthCheck.error := Some (message_or "Unknown error" e);
           BackendHealthCheck.response := Some JNull |}).
Proof.
  intros Hf Hok Hj. split.
  - unfold Config.checkBackendHealth. rewrite Hf. cbn. rewrite Hok. reflexivity.
  - run_health.
    change (fetch (Config.getApiUrl env (lit "/health"))
                  {| method := Some (lit "GET");
                     headers := Some [(lit "Content-Type", lit "application/json")];
                     request_body := None |})
      with (fetch (Config.getApiUrl env Config.ENDPOINTS.HEALTH) Config.health_request).
    rewrite Hf. run_health. rewrite Hok. run_health. rewrite Hj. reflexivity.
Qed.

Lemma success_status_without_json_witness :
  Samples.always (Normal PageSamples.gateway_page)
    (Config.getApiUrl None Config.ENDPOINTS.HEALTH) Config.health_request
  = Normal PageSamples.gateway_page
  /\ ok PageSamples.gateway_page = true
  /\ Response_json PageSamples.gateway_page = Throw SyntaxError
  /\ Config.checkBackendHealth None (Samples.always (Normal PageSamples.gateway_page))
     = Normal true
  /\ BackendHealthCheck.checkHealth None
       (Samples.always (Normal PageSamples.gateway_page)) 50
       PageSamples.reason_phrase BackendHealthCheck.initial
     = (Normal tt,
        {| BackendHealthCheck.isHealthy := false;
           BackendHealthCheck.isChecking := false;
           BackendHealthCheck.lastChecked := Some 50%Z;
           BackendHealthCheck.error := Some (message_or "Unknown error" SyntaxError);
           BackendHealthCheck.response := Some JNull |}).
Proof.
  assert (H1 : Samples.always (Normal PageSamples.gateway_page)
                 (Config.getApiUrl None Config.ENDPOINTS.HEALTH) Config.health_request
               = Normal PageSamples.gateway_page) by reflexivity.
  assert (H2 : ok PageSamples.gateway_page = true) by reflexivity.
  assert (H3 : Response_json PageSamples.gateway_page = Throw SyntaxError)
    by (vm_compute; reflexivity).
  split; [exact H1|]. split; [exact H2|]. split; [exact H3|].
  exact (@success_status_without_json None _ 50 PageSamples.reason_phrase
           BackendHealthCheck.initial _ _ H1 H2 H3).
Defined.

End PageFacts.
